(** * InsightPioneer: sitemap acquisition and URL-diff engine

    A shallow embedding of
      - [app/utils/http.py]            ([make_request] under tenacity's [retry]),
      - [app/scrapers/sitemap/parser.py]  ([SitemapParser]),
      - [app/scrapers/sitemap/crawler.py] ([SitemapCrawler]),
      - [app/database/connection.py]   (the session factory, [get_db_session]),
      - [app/models/site.py]           (the three tables and the unique
                                        constraint [uix_site_url]),
      - [app/notifiers/feishu.py]      ([FeishuNotifier]),
    with the outside world (network, clock, database faults, webhook)
    given by oracles that are indexed by the number of calls made so far. *)

From Stdlib Require Import ZArith String List Lia.
From stdpp Require Import gmap strings list fin_maps pretty.

Local Open Scope Z_scope.

(** Python [bytes]. *)
Abbreviation bytes := (list Byte.byte).

(** Outcome of a Python call: a value or a raised exception. *)
Inductive Res (E A : Type) : Type :=
| Ret (a : A)
| Raise (e : E).
Arguments Ret {E A} a.
Arguments Raise {E A} e.

(** [str.endswith]. *)
Definition endswith (s suffix : string) : bool :=
  let n := String.length s in
  let m := String.length suffix in
  (m <=? n)%nat && String.eqb (String.substring (n - m) m s) suffix.

(* ===================================================================== *)
(** * app/utils/http.py *)
(* ===================================================================== *)

Module Http.

(** What the parser reads of a [requests.Response]. *)
Record Response := {
  status_code : Z;
  content_type : option string;    (* response.headers.get("Content-Type") *)
  content : bytes
}.

(** Exception classes that can leave [requests.request] and
    [raise_for_status]. *)
Inductive Exc :=
| HTTPError (status : Z)           (* requests.exceptions.HTTPError *)
| RequestsConnectionError          (* requests.exceptions.ConnectionError *)
| RequestsTimeout                  (* requests.exceptions.Timeout *)
| OtherRequestException (msg : string)
                                   (* any other subclass of
                                      requests.exceptions.RequestException:
                                      MissingSchema, InvalidURL,
                                      TooManyRedirects, ... *)
| BuiltinConnectionError           (* builtins.ConnectionError *)
| BuiltinTimeoutError              (* builtins.TimeoutError *)
| OtherError (msg : string).       (* anything else *)

(** What [requests.request] does on one call. *)
Inductive Wire :=
| Answer (r : Response)
| Fails (e : Exc).

(** What leaves the decorated [make_request]: a response, the exception
    of an attempt that is not retried, or tenacity's [RetryError] around
    the exception of the last attempt. *)
Inductive Outcome :=
| Returned (r : Response)
| Raised (e : Exc)
| RetryError (last : Exc).

(** The client side of the network: the number of HTTP requests issued
    so far and the seconds tenacity slept between attempts. *)
Record Net := {
  n_req : nat;
  waits : list Z
}.

Definition is_RequestException (e : Exc) : bool :=
  match e with
  | HTTPError _ | RequestsConnectionError | RequestsTimeout
  | OtherRequestException _ => true
  | _ => false
  end.

(** [retry_if_exception_type((RequestException, ConnectionError, TimeoutError))] *)
Definition retry_if_exception_type (e : Exc) : bool :=
  match e with
  | BuiltinConnectionError | BuiltinTimeoutError => true
  | _ => is_RequestException e
  end.

(** [stop_after_attempt(3)] *)
Definition max_attempt_number : nat := 3.
Definition stop_after_attempt (attempt_number : nat) : bool :=
  (max_attempt_number <=? attempt_number)%nat.

(** tenacity's [wait_exponential(multiplier, min, max)]: after attempt
    [n] the wait is [multiplier * 2^(n-1)] clamped to [[min, max]]. *)
Definition wait_exponential (multiplier min max : Z) (attempt_number : nat) : Z :=
  Z.max (Z.max 0 min)
        (Z.min (multiplier * 2 ^ (Z.of_nat attempt_number - 1)) max).

(** [wait_exponential(multiplier=1, min=2, max=10)] *)
Definition wait (attempt_number : nat) : Z := wait_exponential 1 2 10 attempt_number.

(** [Response.raise_for_status] *)
Definition raise_for_status (r : Response) : option Exc :=
  if (400 <=? status_code r) && (status_code r <? 600)
  then Some (HTTPError (status_code r)) else None.

(** The body of [make_request]: one [requests.request] and the status
    check; [except RequestException as e: ...; raise e] re-raises. *)
Definition attempt (w : Wire) : Res Exc Response :=
  match w with
  | Fails e => Raise e
  | Answer r =>
      match raise_for_status r with
      | Some e => Raise e
      | None => Ret r
      end
  end.

(** Whether tenacity goes on after an attempt that met [w]. *)
Definition retried (w : Wire) : bool :=
  match attempt w with
  | Ret _ => false
  | Raise e => retry_if_exception_type e
  end.

Section Network.

(** [net k url]: what the [k]-th HTTP request of the run, sent to
    [url], meets. *)
Variable net : nat -> string -> Wire.

Definition sent (s : Net) : Net :=
  {| n_req := S (n_req s); waits := waits s |}.

Definition slept (secs : Z) (s : Net) : Net :=
  {| n_req := n_req s; waits := waits s ++ [secs] |}.

(** tenacity's loop: call, and on an exception of a retried class
    either stop with [RetryError] or sleep and call again. The loop
    is entered with [attempt_number = 1]. [fuel] only makes the
    recursion structural: [stop_after_attempt] ends the loop first. *)
Fixpoint retrying (fuel attempt_number : nat) (url : string) (s : Net)
  : Outcome * Net :=
  let s1 := sent s in
  match attempt (net (n_req s) url) with
  | Ret r => (Returned r, s1)
  | Raise e =>
      if negb (retry_if_exception_type e) then (Raised e, s1)
      else if stop_after_attempt attempt_number then (RetryError e, s1)
      else
        match fuel with
        | O => (RetryError e, s1)
        | S fuel' =>
            retrying fuel' (S attempt_number) url (slept (wait attempt_number) s1)
        end
  end.

Definition make_request (url : string) (s : Net) : Outcome * Net :=
  retrying max_attempt_number 1 url s.

End Network.

End Http.

(* ===================================================================== *)
(** * app/scrapers/sitemap/parser.py *)
(* ===================================================================== *)

Module Parser.

Import Http.

(** An entry of a leaf sitemap: the dict [{"url": .., "lastmod": ..}]
    built by [parse_sitemap]; the key ["lastmod"] may be absent. *)
Record Entry := {
  url : string;
  lastmod : option string
}.

(** State of one [fetch_and_parse_sitemap] call: the two variables the
    inner function closes over, the network, and the calls of
    [fetch_sitemap] made so far with what each returned (the source
    prints a line per call). *)
Record Walk := {
  processed_sitemaps : gset string;
  all_urls : list Entry;
  net_st : Net;
  fetch_log : list (string * option bytes)
}.

(** The test at line 66 of parser.py. *)
Definition is_gzipped (response : Response) (sitemap_url : string) : bool :=
  bool_decide (content_type response = Some "application/x-gzip"%string)
  || endswith sitemap_url ".gz".

(** Python truthiness of an [Optional[bytes]]: [not content]. *)
Definition falsy (content : option bytes) : bool :=
  match content with
  | None | Some [] => true
  | Some (_ :: _) => false
  end.

Definition init_walk (s : Net) : Walk :=
  {| processed_sitemaps := ∅; all_urls := []; net_st := s; fetch_log := [] |}.

Section SitemapParser.

Variable net : nat -> string -> Wire.

(** [gzip.decompress]; [None] when it raises. *)
Variable gzip_decompress : bytes -> option bytes.

(** [is_sitemap_index], [parse_sitemap_index] and [parse_sitemap] go
    through lxml ([etree.fromstring], [xpath]); each of them catches
    every exception and then returns [False] or [[]], so they are
    total functions of their arguments. *)
Variable is_sitemap_index : bytes -> bool.
Variable parse_sitemap_index : bytes -> string -> list string.
Variable parse_sitemap : bytes -> list Entry.

Definition fetch_sitemap (sitemap_url : string) (s : Net) : option bytes * Net :=
  match make_request net sitemap_url s with
  | (Returned response, s') =>
      if is_gzipped response sitemap_url
      then (gzip_decompress (content response), s')
      else (Some (content response), s')
  | (_, s') => (None, s')         (* except Exception: return None *)
  end.

(** [processed_sitemaps.add(url)] *)
Definition mark (u : string) (w : Walk) : Walk :=
  {| processed_sitemaps := {[u]} ∪ processed_sitemaps w;
     all_urls := all_urls w;
     net_st := net_st w;
     fetch_log := fetch_log w |}.

(** [content = self.fetch_sitemap(url)] *)
Definition fetched (u : string) (r : option bytes * Net) (w : Walk) : Walk :=
  {| processed_sitemaps := processed_sitemaps w;
     all_urls := all_urls w;
     net_st := r.2;
     fetch_log := fetch_log w ++ [(u, r.1)] |}.

(** [all_urls.extend(urls)] *)
Definition extend (urls : list Entry) (w : Walk) : Walk :=
  {| processed_sitemaps := processed_sitemaps w;
     all_urls := all_urls w ++ urls;
     net_st := net_st w;
     fetch_log := fetch_log w |}.

(** The [for] loop over the children of an index. *)
Fixpoint for_each (body : string -> Walk -> option Walk)
    (children : list string) (w : Walk) : option Walk :=
  match children with
  | [] => Some w
  | child :: rest => w' ← body child w; for_each body rest w'
  end.

(** The inner function [process_sitemap]. Python recursion becomes
    recursion on [fuel], the number of nested calls still allowed;
    [None] means that the walk would nest deeper than [fuel]. The code
    has no bound of its own on the nesting; what CPython does at its
    recursion limit (a [RecursionError] inside [fetch_sitemap], which
    the [except Exception] there turns into a fetch that gave nothing)
    is not part of this embedding, and the theorems below are about
    walks that the fuel covers. The argument [level] only indents the
    printed lines and is left out. *)
Fixpoint process_sitemap (fuel : nat) (base_url url : string) (w : Walk)
  : option Walk :=
  match fuel with
  | O => None
  | S fuel' =>
      if decide (url ∈ processed_sitemaps w) then Some w
      else
        let w1 := mark url w in
        let r := fetch_sitemap url (net_st w1) in
        let w2 := fetched url r w1 in
        match r.1 with
        | Some ((_ :: _) as c) =>
            if is_sitemap_index c
            then for_each (process_sitemap fuel' base_url)
                          (parse_sitemap_index c base_url) w2
            else Some (extend (parse_sitemap c) w2)
        | _ => Some w2              (* if not content: return *)
        end
  end.

Definition fetch_and_parse_sitemap (fuel : nat) (sitemap_url base_url : string)
    (s : Net) : option (list Entry * gset string * Walk) :=
  w ← process_sitemap fuel base_url sitemap_url (init_walk s);
  Some (all_urls w, processed_sitemaps w, w).

Definition extract_urls_from_sitemap (fuel : nat) (sitemap_url base_url : string)
    (s : Net) : option (list Entry * Net) :=
  r ← fetch_and_parse_sitemap fuel sitemap_url base_url s;
  Some (r.1.1, net_st r.2).

(** What one logged fetch adds to [all_urls]. *)
Definition contribution (f : string * option bytes) : list Entry :=
  match f.2 with
  | Some (b :: c) =>
      if is_sitemap_index (b :: c) then [] else parse_sitemap (b :: c)
  | _ => []
  end.

(** The child references that one logged fetch makes the walk follow:
    those of a non-empty index, none otherwise. *)
Definition references (base_url : string) (f : string * option bytes) : list string :=
  match f.2 with
  | Some (b :: c) =>
      if is_sitemap_index (b :: c) then parse_sitemap_index (b :: c) base_url else []
  | _ => []
  end.

(** The calls of [fetch_sitemap] for the URLs of [order], made one
    after the other from the network state [s]: what each of them
    returns, and the state of the network after the last. *)
Fixpoint replay (order : list string) (s : Net)
  : list (string * option bytes) * Net :=
  match order with
  | [] => ([], s)
  | u :: rest =>
      let r := fetch_sitemap u s in
      let t := replay rest r.2 in
      ((u, r.1) :: t.1, t.2)
  end.

(** A finite set of sitemap URLs that contains every child reference
    of every index that a URL of the set can serve. *)
Definition closed (base_url : string) (U : gset string) : Prop :=
  forall (s : Net) (u : string) (c : bytes),
    u ∈ U ->
    (fetch_sitemap u s).1 = Some c ->
    falsy (Some c) = false ->
    is_sitemap_index c = true ->
    forall child, child ∈ parse_sitemap_index c base_url -> child ∈ U.

(** [w'] is [w] after some more of the walk: [new] lists the calls
    of [fetch_sitemap] made in between. Each of them was for a URL
    of [U] not processed before, none is repeated, the processed set
    grew by exactly these URLs, [all_urls] by what they contributed,
    and at most three HTTP requests were sent for each. *)
Definition continues (U : gset string) (w w' : Walk)
    (new : list (string * option bytes)) : Prop :=
  fetch_log w' = fetch_log w ++ new /\
  processed_sitemaps w' = processed_sitemaps w ∪ list_to_set (new.*1) /\
  NoDup new.*1 /\
  (forall u, u ∈ new.*1 -> (u ∉ processed_sitemaps w) /\ u ∈ U) /\
  all_urls w' = all_urls w ++ flat_map contribution new /\
  (n_req (net_st w') <= n_req (net_st w) + 3 * length new)%nat.

(** [new] is the log of a walk that went from [w] to [w'], entered at
    the URLs [roots]: its fetches are the calls of [fetch_sitemap] on
    the network as [w] left it, in this order and with these results;
    the URLs fetched are those that became processed; every reference
    of a fetched index is processed when the walk is over; and every
    URL fetched is one of [roots] or a reference of an index fetched
    before it. *)
Definition explores (base_url : string) (roots : list string) (w w' : Walk)
    (new : list (string * option bytes)) : Prop :=
  fetch_log w' = fetch_log w ++ new /\
  replay new.*1 (net_st w) = (new, net_st w') /\
  processed_sitemaps w' = processed_sitemaps w ∪ list_to_set new.*1 /\
  (forall f c, f ∈ new -> c ∈ references base_url f -> c ∈ processed_sitemaps w') /\
  (forall i f, new !! i = Some f ->
     f.1 ∈ roots \/
     exists j g, (j < i)%nat /\ new !! j = Some g /\ f.1 ∈ references base_url g).

End SitemapParser.

End Parser.

(* ===================================================================== *)
(** * app/models/site.py and app/database/connection.py *)
(* ===================================================================== *)

Module Database.

(** Instants ([datetime]) are seconds on the integer line. *)
Abbreviation instant := Z.

(** A row of [insight_monitored_sites]; the columns that only feed the
    request headers ([user_agent], [proxy_config_json]) are left to the
    network oracle. *)
Record MonitoredSite := {
  id : Z;
  name : string;
  base_url : string;
  sitemap_url : string;
  is_notification_enabled : Z;
  last_crawled_at : option instant
}.

(** A row of [insight_discovered_pages]: the columns that the model
    class declares. The three columns that every table inherits from
    [CustomBase] ([id], [created_at], and [updated_at], which the
    database sets again on every update of the row) are written by the
    database, are read by none of the code embedded here, and are left
    out; so are they for the two other tables. *)
Record DiscoveredPage := {
  monitored_site_id : Z;
  url : string;
  page_title : option string;
  first_discovered_at : instant;
  last_seen_at : instant;
  is_processed : Z
}.

(** A row of [insight_crawl_logs]. *)
Record CrawlLog := {
  log_site_id : Z;
  run_id : option string;
  start_time : instant;
  end_time : option instant;
  status : string;
  pages_found_count : nat;
  message : option string
}.

Record DB := {
  sites : gmap Z MonitoredSite;
  pages : list DiscoveredPage;
  logs : list CrawlLog
}.

(** What a session holds until [commit]: objects passed to
    [session.add], new or modified. *)
Inductive Op :=
| InsertPage (p : DiscoveredPage)
| TouchPage (site_id : Z) (u : string) (t : instant)     (* page.last_seen_at = t *)
| TouchSite (site_id : Z) (t : instant)                  (* site.last_crawled_at = t *)
| InsertLog (l : CrawlLog).

Inductive Exn :=
| OperationalError (msg : string)       (* the database call itself failed *)
| IntegrityError (msg : string)         (* a constraint refused the flush *)
| PendingRollbackError (msg : string)   (* the session awaits [rollback()] *)
| InvalidRequestError (msg : string).   (* the session is in its prepared state *)

(** [str(e)] *)
Definition str (e : Exn) : string :=
  match e with
  | OperationalError msg | IntegrityError msg
  | PendingRollbackError msg | InvalidRequestError msg => msg
  end.

(** [DiscoveredPage.monitored_site_id == site_id, DiscoveredPage.url == u] *)
Definition is_page (site_id : Z) (u : string) (p : DiscoveredPage) : bool :=
  bool_decide (monitored_site_id p = site_id) && bool_decide (url p = u).

Definition touch (t : instant) (p : DiscoveredPage) : DiscoveredPage :=
  {| monitored_site_id := monitored_site_id p;
     url := url p;
     page_title := page_title p;
     first_discovered_at := first_discovered_at p;
     last_seen_at := t;
     is_processed := is_processed p |}.

(** The row that [.filter(...).first()] returned gets its new value. *)
Fixpoint touch_first (site_id : Z) (u : string) (t : instant)
    (ps : list DiscoveredPage) : list DiscoveredPage :=
  match ps with
  | [] => []
  | p :: ps' =>
      if is_page site_id u p then touch t p :: ps'
      else p :: touch_first site_id u t ps'
  end.

Definition crawled (t : instant) (s : MonitoredSite) : MonitoredSite :=
  {| id := id s;
     name := name s;
     base_url := base_url s;
     sitemap_url := sitemap_url s;
     is_notification_enabled := is_notification_enabled s;
     last_crawled_at := Some t |}.

(** The database [d] with the site's last-crawled time set to [t]. *)
Definition site_crawled (site_id : Z) (t : instant) (d : DB) : DB :=
  {| sites := alter (crawled t) site_id (sites d);
     pages := pages d;
     logs := logs d |}.

(** The database [d] with one more history record. *)
Definition logged (l : CrawlLog) (d : DB) : DB :=
  {| sites := sites d; pages := pages d; logs := logs d ++ [l] |}.

(** One statement of a flush. [None]: the unique constraint
    [uix_site_url] on [(monitored_site_id, url)] refuses the row. *)
Definition apply_op (d : DB) (o : Op) : option DB :=
  match o with
  | InsertPage p =>
      if existsb (is_page (monitored_site_id p) (url p)) (pages d) then None
      else Some {| sites := sites d; pages := pages d ++ [p]; logs := logs d |}
  | TouchPage site_id u t =>
      Some {| sites := sites d;
              pages := touch_first site_id u t (pages d);
              logs := logs d |}
  | TouchSite site_id t => Some (site_crawled site_id t d)
  | InsertLog l => Some (logged l d)
  end.

Fixpoint flush (ops : list Op) (d : DB) : option DB :=
  match ops with
  | [] => Some d
  | o :: ops' => d' ← apply_op d o; flush ops' d'
  end.

End Database.

(* ===================================================================== *)
(** * app/scrapers/sitemap/crawler.py *)
(* ===================================================================== *)

Module Crawler.

Import Http Database.

(** A message that a method of the notifier built and handed to
    [send_text]. *)
Inductive Notification :=
| NewPages (site_id : Z) (new_pages : list DiscoveredPage)
| ErrorNote (site_id : Z) (error_message : string).

(** Everything a cycle can change or observe: the committed database,
    the number of database calls and of [utc_now()] readings made so
    far, the requests made through [make_request], and the messages
    that reached [send_text] of the notifier. *)
Record World := {
  db : DB;
  db_ops : nat;
  ticks : nat;
  net_w : Net;
  outbox : list Notification
}.

(** A Python computation over a state [S]: it runs out of fuel
    ([None]), returns, or raises, and leaves a state behind. *)
Definition St (S A : Type) : Type := S -> option (Res Exn A * S).

(** The computations that need no more state than the world. *)
Definition M (A : Type) : Type := St World A.

Definition ret {S A} (a : A) : St S A := fun w => Some (Ret a, w).

Definition bind {S A B} (m : St S A) (f : A -> St S B) : St S B :=
  fun w =>
    match m w with
    | None => None
    | Some (Ret a, w') => f a w'
    | Some (Raise e, w') => Some (Raise e, w')
    end.

(** [try: m except Exception as e: handler(e)] *)
Definition try_except {S A} (m : St S A) (handler : Exn -> St S A) : St S A :=
  fun w =>
    match m w with
    | Some (Raise e, w') => handler e w'
    | r => r
    end.

Notation "'let*' x := c1 'in' c2" := (bind c1 (fun x => c2))
  (at level 10, x name, c1 at level 100, c2 at level 200).
Notation "'let*' ' pat := c1 'in' c2" :=
  (bind c1 (fun x => match x with pat => c2 end))
  (at level 10, pat pattern, c1 at level 100, c2 at level 200).

(** [for x in xs: acc = body(acc, x)] *)
Fixpoint for_loop {S A B} (body : B -> A -> St S B) (xs : list A) (acc : B)
  : St S B :=
  match xs with
  | [] => ret acc
  | x :: xs' => let* acc' := body acc x in for_loop body xs' acc'
  end.

Definition set_db (d : DB) (w : World) : World :=
  {| db := d; db_ops := db_ops w; ticks := ticks w; net_w := net_w w; outbox := outbox w |}.
Definition called_db (w : World) : World :=
  {| db := db w; db_ops := S (db_ops w); ticks := ticks w; net_w := net_w w; outbox := outbox w |}.
Definition ticked (w : World) : World :=
  {| db := db w; db_ops := db_ops w; ticks := S (ticks w); net_w := net_w w; outbox := outbox w |}.
Definition set_net (s : Net) (w : World) : World :=
  {| db := db w; db_ops := db_ops w; ticks := ticks w; net_w := s; outbox := outbox w |}.
Definition posted (n : Notification) (w : World) : World :=
  {| db := db w; db_ops := db_ops w; ticks := ticks w; net_w := net_w w; outbox := outbox w ++ [n] |}.

(** The message of the success log, [f"发现 {len(new_pages)} 个新页面"]. *)
Definition found_message (n : nat) : string :=
  "发现 " +:+ pretty n +:+ " 个新页面".
Definition success_message (n : nat) : string :=
  "成功，发现 " +:+ pretty n +:+ " 个新页面".
Definition failed_log_message (e : Exn) : string := "处理失败: " +:+ str e.
Definition failed_message (e : Exn) : string := "失败: " +:+ str e.

(** The constructor call at lines 283-290. *)
Definition new_page (site : MonitoredSite) (u : string) (first last : instant)
  : DiscoveredPage :=
  {| monitored_site_id := id site;
     url := u;
     page_title := None;
     first_discovered_at := first;
     last_seen_at := last;
     is_processed := 0 |}.

(** The rows a list of pending objects would insert, and the URLs of
    the rows it would refresh. *)
Definition inserted (ops : list Op) : list DiscoveredPage :=
  omap (fun o => match o with InsertPage p => Some p | _ => None end) ops.
Definition touched (ops : list Op) : list string :=
  omap (fun o => match o with TouchPage _ u _ => Some u | _ => None end) ops.

(** The table has a row for this site and URL. *)
Definition has_row (site_id : Z) (u : string) (d : DB) : Prop :=
  is_Some (find (is_page site_id u) (pages d)).

(** ** The caller's session

    [process_site] works on the session of its caller and on the
    [site] object that the caller loaded through it. What SQLAlchemy
    keeps for the two decides what the [except] branch can do:
    - [sessionmaker] is called without [expire_on_commit=False]: a
      commit that succeeds expires every object of the session, and
      the next read of an attribute of [site] sends a SELECT;
    - a commit that fails while it flushes rolls the transaction back,
      which expires every object too, and from then on the session
      answers every statement with [PendingRollbackError], until
      [rollback()] is called; [process_site] never calls it;
    - a commit whose flush went through and that fails at COMMIT
      expires nothing: what the flush loaded stays loaded; the
      transaction stays in its prepared state and the session answers
      every statement with [InvalidRequestError]. *)
Record Session := {
  refusal : option Exn;      (* what a statement on the session meets *)
  site_expired : bool        (* the attributes of [site] are to be loaded again *)
}.

(** The session as both callers hand it over: just made, with [site]
    just queried through it. *)
Definition new_session : Session := {| refusal := None; site_expired := false |}.

(** The two refusals, with the first sentence of SQLAlchemy's message
    (the text of the first goes on with the original exception). *)
Definition pending_rollback : Exn :=
  PendingRollbackError "This Session's transaction has been rolled back due to a previous exception during flush.".
Definition prepared_state : Exn :=
  InvalidRequestError "This session is in 'prepared' state; no further SQL can be emitted within this transaction.".

(** The state of one call of [process_site]: the world and the
    caller's session. *)
Record Run := {
  world : World;
  session_state : Session
}.

Definition P (A : Type) : Type := St Run A.

(** [w'] differs from [w] at most in the two counters, which grew. *)
Definition frame (w w' : World) : Prop :=
  db w' = db w /\ net_w w' = net_w w /\ outbox w' = outbox w /\
  (ticks w <= ticks w')%nat /\ (db_ops w <= db_ops w')%nat.

Section SitemapCrawler.

(** The outside world. *)
Variable clock : nat -> instant.              (* the k-th reading of [utc_now()] *)
Variable db_fault : nat -> option string.     (* the k-th database call fails with this text *)
Variable in_flush : nat -> bool.              (* when that call is a commit: the fault
                                                 strikes while it flushes, not at COMMIT *)
Variable deliver : nat -> bool.               (* the k-th notification gets through *)
Variable net : nat -> string -> Wire.
Variable gzip_decompress : bytes -> option bytes.
Variable is_sitemap_index : bytes -> bool.
Variable parse_sitemap_index : bytes -> string -> list string.
Variable parse_sitemap : bytes -> list Parser.Entry.
Variable github_run_id : option string.       (* os.environ.get("GITHUB_RUN_ID") *)
Variable fuel : nat.                          (* recursion allowed to the sitemap walk *)

Definition utc_now : M instant :=
  fun w => Some (Ret (clock (ticks w)), ticked w).

(** A query: the database is called and may fail; it is only read. *)
Definition query {A} (f : DB -> A) : M A :=
  fun w =>
    match db_fault (db_ops w) with
    | Some msg => Some (Raise (OperationalError msg), called_db w)
    | None => Some (Ret (f (db w)), called_db w)
    end.

(** [session.commit()]: the pending objects are flushed and committed
    as one transaction, or the transaction is rolled back and the
    exception raised. The session is empty afterwards. *)
Definition commit (pending : list Op) : M (list Op) :=
  fun w =>
    match db_fault (db_ops w) with
    | Some msg => Some (Raise (OperationalError msg), called_db w)
    | None =>
        match flush pending (db w) with
        | None => Some (Raise (IntegrityError "uix_site_url"), called_db w)
        | Some d => Some (Ret [], set_db d (called_db w))
        end
    end.

(** [send_text]: the message goes to the webhook. [send_message]
    catches what delivery raises and answers [False]. *)
Definition notify (n : Notification) : M bool :=
  fun w => Some (Ret (deliver (length (outbox w))), posted n w).

(** [parser.extract_urls_from_sitemap(site.sitemap_url, site.base_url)] *)
Definition extract_urls (sitemap_url base_url : string) : M (list Parser.Entry) :=
  fun w =>
    match Parser.extract_urls_from_sitemap net gzip_decompress is_sitemap_index
            parse_sitemap_index parse_sitemap fuel sitemap_url base_url (net_w w) with
    | None => None
    | Some (entries, s) => Some (Ret entries, set_net s w)
    end.

Definition get_existing_urls (site_id : Z) : M (gmap string instant) :=
  query (fun d =>
    foldl (fun result page => <[url page := last_seen_at page]> result) ∅
          (filter (fun page => monitored_site_id page = site_id) (pages d))).

Definition create_crawl_log (session : list Op) (site : MonitoredSite)
    (self_start_time : instant) (status : string) (pages_found_count : nat)
    (message : option string) : M (list Op) :=
  let* now := utc_now in
  let log := {| log_site_id := id site;
                run_id := github_run_id;
                start_time := self_start_time;
                end_time := Some now;
                status := status;
                pages_found_count := pages_found_count;
                message := message |} in
  commit (session ++ [InsertLog log]).

Definition update_site_last_crawled (session : list Op) (site : MonitoredSite)
  : M (list Op) :=
  let* now := utc_now in
  commit (session ++ [TouchSite (id site) now]).

(** The body of the loop at lines 257-293, on the pair of the
    session's pending objects and [new_pages]. The parsed [lastmod]
    is computed and never used. *)
Definition diff_entry (site : MonitoredSite) (existing_urls : gmap string instant)
    (acc : list Op * list DiscoveredPage) (entry : Parser.Entry)
  : M (list Op * list DiscoveredPage) :=
  let u := Parser.url entry in
  if decide (u ∈ dom existing_urls) then
    let* page := query (fun d => find (is_page (id site) u) (pages d)) in
    match page with
    | Some _ =>
        let* now := utc_now in
        ret (acc.1 ++ [TouchPage (id site) u now], acc.2)
    | None => ret acc
    end
  else
    let* first := utc_now in
    let* last := utc_now in
    let page := new_page site u first last in
    ret (acc.1 ++ [InsertPage page], acc.2 ++ [page]).

Definition diff_loop (site : MonitoredSite) (existing_urls : gmap string instant)
    (sitemap_entries : list Parser.Entry) (session : list Op)
  : M (list Op * list DiscoveredPage) :=
  for_loop (diff_entry site existing_urls) sitemap_entries (session, []).

(** The row's last-seen time is a clock reading, the [lo]-th or a
    later one. *)
Definition seen_since (lo : nat) (p : DiscoveredPage) : Prop :=
  exists k, (lo <= k)%nat /\ last_seen_at p = clock k.

(** What the loop body leaves pending for one entry: one new row,
    one refresh, or nothing when the row of a known URL is not found;
    the clock readings are taken between the [lo]-th and the [hi]-th. *)
Definition step_of (site : MonitoredSite) (existing_urls : gmap string instant)
    (d : DB) (lo hi : nat) (entry : Parser.Entry) (os : list Op) : Prop :=
  if decide (Parser.url entry ∈ dom existing_urls)
  then match find (is_page (id site) (Parser.url entry)) (pages d) with
       | Some _ =>
           exists k, (lo <= k < hi)%nat /\
             os = [TouchPage (id site) (Parser.url entry) (clock k)]
       | None => os = []
       end
  else exists k, (lo <= k)%nat /\ (S k < hi)%nat /\
         os = [InsertPage (new_page site (Parser.url entry) (clock k) (clock (S k)))].

(** The history record written by the [except] branch. *)
Definition failed_log (site : MonitoredSite) (self_start_time : instant)
    (e : Exn) (now : instant) : CrawlLog :=
  {| log_site_id := id site;
     run_id := github_run_id;
     start_time := self_start_time;
     end_time := Some now;
     status := "failed";
     pages_found_count := 0;
     message := Some (failed_log_message e) |}.

(** Lines 298-310: the commit of the pages and then
    [update_site_last_crawled]. *)
Definition commit_step (session : list Op) (site : MonitoredSite) : M (list Op) :=
  let* session := commit session in
  update_site_last_crawled session site.

(** Lines 242-296: the existing URLs, the walk, and the loop over the
    entries. Nothing is committed yet. *)
Definition diffing (session : list Op) (site : MonitoredSite)
  : M (list Op * list DiscoveredPage) :=
  let* existing_urls := get_existing_urls (id site) in
  let* sitemap_entries := extract_urls (sitemap_url site) (base_url site) in
  diff_loop site existing_urls sitemap_entries session.

(** Lines 334-354, the [with get_db_session() as error_session] block
    of the [except] branch: the history record and the notification.
    [site] is not [None] and is loaded when the block is entered. The
    session is a new one. Its only transaction is the one that
    [create_crawl_log] commits: the commit of [get_db_session] on the
    way out finds none begun and sends nothing, and on an exception
    [get_db_session] rolls back and raises it again. *)
Definition record_failure (site : MonitoredSite) (self_start_time : instant)
    (e : Exn) : M (bool * string * nat) :=
  let* _ :=
    create_crawl_log [] site self_start_time "failed"
      0 (Some (failed_log_message e)) in
  let* _ :=
    if bool_decide (is_notification_enabled site <> 0)
    then notify (ErrorNote (id site) (str e))
    else ret true in
  ret (false, failed_message e, 0%nat).

(** *** What goes through the caller's session *)

(** A computation that does not touch the caller's session: the
    clock, the notifier, another session. *)
Definition lift {A} (m : M A) : P A :=
  fun r =>
    match m (world r) with
    | None => None
    | Some (a, w) => Some (a, {| world := w; session_state := session_state r |})
    end.

(** A computation whose database calls are statements on the caller's
    session, none of them a commit. The session refuses the first of
    them when a commit failed before. *)
Definition on_session {A} (m : M A) : P A :=
  fun r =>
    match refusal (session_state r) with
    | Some x => Some (Raise x, r)
    | None => lift m r
    end.

(** The session that a failed commit leaves, for the exception it
    raised at the [k]-th database call. The constraint refuses a row
    while the flush sends it. *)
Definition after_failed_commit (e : Exn) (k : nat) : Session :=
  if match e with IntegrityError _ => true | _ => in_flush k end
  then {| refusal := Some pending_rollback; site_expired := true |}
  else {| refusal := Some prepared_state; site_expired := false |}.

(** [session.commit()] on the caller's session, alone or at the end of
    [update_site_last_crawled] or [create_crawl_log]: [m] makes one
    database call, the commit. *)
Definition committing (m : M (list Op)) : P (list Op) :=
  fun r =>
    match refusal (session_state r) with
    | Some x => Some (Raise x, r)
    | None =>
        match m (world r) with
        | None => None
        | Some (Ret session, w) =>
            Some (Ret session,
                  {| world := w;
                     session_state := {| refusal := None; site_expired := true |} |})
        | Some (Raise e, w) =>
            Some (Raise e,
                  {| world := w;
                     session_state := after_failed_commit e (db_ops (world r)) |})
        end
    end.

(** Reading a column attribute of [site]: when the object is expired
    the read sends a SELECT on the caller's session and loads the row
    again. The cycle changes nothing of it but [last_crawled_at], and
    no attribute read looks at that one. *)
Definition read_site : P unit :=
  fun r =>
    if site_expired (session_state r)
    then match on_session (query (fun _ => tt)) r with
         | Some (Ret _, r') =>
             Some (Ret tt,
                   {| world := world r';
                      session_state := {| refusal := refusal (session_state r');
                                          site_expired := false |} |})
         | other => other
         end
    else Some (Ret tt, r).

(** Reading [page.page_title] and [page.url] of one of [new_pages]
    for the notification: the rows were inserted by the commit at line
    302 and their objects are expired since, so the first read of each
    sends a SELECT on the caller's session. *)
Definition read_page : P unit := on_session (query (fun _ => tt)).

(** [FeishuNotifier.send_new_pages_notification]: the text names the
    site and lists the first ten pages (feishu.py, lines 159-178), then
    goes to [send_text]. Nothing is sent when reading a page raises. *)
Definition send_new_pages_notification (site : MonitoredSite)
    (new_pages : list DiscoveredPage) : P bool :=
  if bool_decide (new_pages = []) then ret true
  else
    let* _ := read_site in
    let* _ := for_loop (fun _ _ => read_page) (take 10 new_pages) tt in
    lift (notify (NewPages (id site) new_pages)).

(** Lines 321-323: [if new_pages and site.is_notification_enabled]
    reads the site only when there are new pages. *)
Definition notify_new_pages (site : MonitoredSite)
    (new_pages : list DiscoveredPage) : P bool :=
  if bool_decide (new_pages <> [])
  then
    let* _ := read_site in
    if bool_decide (is_notification_enabled site <> 0)
    then send_new_pages_notification site new_pages
    else ret true
  else ret true.

(** Lines 298-325: the two commits of [commit_step], the history
    record, the notification, the result. [site.last_crawled_at = ...]
    at line 187 assigns to the expired object without loading it;
    [site.id] at line 165 loads it. *)
Definition finish (session : list Op) (site : MonitoredSite)
    (self_start_time : instant) (new_pages : list DiscoveredPage)
  : P (bool * string * nat) :=
  let* session := committing (commit session) in
  let* session := committing (update_site_last_crawled session site) in
  let* _ := read_site in
  let* _ :=
    committing
      (create_crawl_log session site self_start_time "success"
         (length new_pages) (Some (found_message (length new_pages)))) in
  let* _ := notify_new_pages site new_pages in
  ret (true, success_message (length new_pages), length new_pages).

(** The [try] block of [process_site]. Up to the commit at line 302
    the site is as the caller loaded it. *)
Definition cycle (session : list Op) (site : MonitoredSite)
    (self_start_time : instant) : P (bool * string * nat) :=
  let* '(session, new_pages) := on_session (diffing session site) in
  finish session site self_start_time new_pages.

(** The [except Exception as e] block of [process_site]. Line 332
    reads [site.name] and [site.id] before anything else. *)
Definition on_exception (site : MonitoredSite) (self_start_time : instant)
    (e : Exn) : P (bool * string * nat) :=
  let* _ := read_site in
  lift (record_failure site self_start_time e).

(** [process_site(session, site)] as its two callers use it: the
    session is new and [site] was just queried through it. What an
    exception leaves pending in the caller's session stays with the
    caller. Lines 211-228 build the parser from [user_agent] and
    [proxy_config_json] of the loaded site; the requests of the parser
    are answered by the network oracle. A [proxy_config_json] that is
    the JSON text of something other than an object makes line 216
    raise [AttributeError] before the [try]; such a site is outside
    this embedding. *)
Definition process_site (session : list Op) (site : MonitoredSite)
  : M (bool * string * nat) :=
  fun w =>
    match (let* self_start_time := lift utc_now in
           try_except (cycle session site self_start_time)
                      (on_exception site self_start_time))
            {| world := w; session_state := new_session |} with
    | None => None
    | Some (r, run) => Some (r, world run)
    end.

End SitemapCrawler.

End Crawler.

(* ===================================================================== *)
(** * Concrete worlds used by the examples below *)
(* ===================================================================== *)

Module Examples.

Import Http.

Definition xml : bytes := [Byte.x3c; Byte.x3f].

Definition ok_response : Response :=
  {| status_code := 200; content_type := Some "text/xml"%string; content := xml |}.
Definition not_found : Response :=
  {| status_code := 404; content_type := None; content := [] |}.
Definition unavailable : Response :=
  {| status_code := 503; content_type := None; content := [] |}.

Definition net0 : Net := {| n_req := 0; waits := [] |}.

(** A server that answers 404 once and 200 from then on. *)
Definition net_404_then_200 (k : nat) (_ : string) : Wire :=
  match k with
  | O => Answer not_found
  | _ => Answer ok_response
  end.

(** A connection error, then a 503, then 200. *)
Definition net_flaky (k : nat) (_ : string) : Wire :=
  match k with
  | O => Fails RequestsConnectionError
  | 1%nat => Answer unavailable
  | _ => Answer ok_response
  end.

(** A site whose index lists itself, a leaf, a leaf behind corrupt
    gzip, a leaf that is gone, and the first leaf once more. *)
Definition root_url : string := "https://example.com/sitemap.xml".
Definition leaf_url : string := "https://example.com/sitemap-1.xml".
Definition gz_url : string := "https://example.com/sitemap-2.xml.gz".
Definition gone_url : string := "https://example.com/sitemap-3.xml".
Definition base : string := "https://example.com".

Definition index_doc : bytes := [Byte.x69].
Definition leaf_doc : bytes := [Byte.x6c].
Definition corrupt_doc : bytes := [Byte.x1f; Byte.x8b].

Definition serve (c : bytes) : Wire :=
  Answer {| status_code := 200; content_type := Some "text/xml"%string; content := c |}.

Definition site_net (_ : nat) (u : string) : Wire :=
  if String.eqb u root_url then serve index_doc
  else if String.eqb u leaf_url then serve leaf_doc
  else if String.eqb u gz_url then serve corrupt_doc
  else Answer not_found.

Definition gunzip (c : bytes) : option bytes :=
  match c with
  | [Byte.x1f; Byte.x8b; Byte.x6c] => Some leaf_doc
  | _ => None
  end.

Definition is_index (c : bytes) : bool :=
  match c with
  | [Byte.x69] => true
  | _ => false
  end.

Definition index_children (c : bytes) (_ : string) : list string :=
  if is_index c then [root_url; leaf_url; gz_url; gone_url; leaf_url] else [].

Definition entry_a : Parser.Entry :=
  {| Parser.url := "https://example.com/a"; Parser.lastmod := Some "2023-01-01"%string |}.
Definition entry_b : Parser.Entry :=
  {| Parser.url := "https://example.com/b"; Parser.lastmod := Some "2023-01-02"%string |}.

Definition leaf_entries (c : bytes) : list Parser.Entry :=
  match c with
  | [Byte.x6c] => [entry_a; entry_b]
  | _ => []
  end.

Definition site_urls : gset string :=
  {[root_url; leaf_url; gz_url; gone_url]}.

(** The monitored site of the examples, a clock that advances by a
    second per reading, and a database that may fail at chosen calls. *)
Import Database Crawler.

Definition site : MonitoredSite :=
  {| id := 1;
     name := "example";
     base_url := base;
     sitemap_url := root_url;
     is_notification_enabled := 1;
     last_crawled_at := None |}.

Definition clock (k : nat) : instant := 1700000000 + Z.of_nat k.

Definition faults_at (ks : list nat) (k : nat) : option string :=
  if bool_decide (k ∈ ks) then Some "connection lost"%string else None.

Definition delivered (_ : nat) : bool := true.

(** Every fault of a commit strikes while it flushes. *)
Definition flushing (_ : nat) : bool := true.

Definition page_a : DiscoveredPage :=
  {| monitored_site_id := 1;
     url := "https://example.com/a";
     page_title := None;
     first_discovered_at := 1690000000;
     last_seen_at := 1690000000;
     is_processed := 0 |}.

Definition db0 : DB := {| sites := {[1 := site]}; pages := []; logs := [] |}.
Definition db1 : DB := {| sites := {[1 := site]}; pages := [page_a]; logs := [] |}.

Definition world_of (d : DB) : World :=
  {| db := d; db_ops := 0; ticks := 0; net_w := net0; outbox := [] |}.

Definition known_a : gmap string instant :=
  {[ "https://example.com/a"%string := 1690000000 ]}.

(** One cycle over the example site, for a database that fails at the
    calls listed in [ks]. *)
Definition run (ks : list nat) (w : World)
  : option (Res Exn (bool * string * nat) * World) :=
  process_site clock (faults_at ks) flushing delivered site_net gunzip is_index
    index_children leaf_entries None 5 [] site w.

(** What is looked at after a run: the outcome, the pages, the site's
    last-crawled time, the history and the notifications. *)
Definition observe (r : option (Res Exn (bool * string * nat) * World))
  : option (Res Exn (bool * string * nat) * list DiscoveredPage
            * option (option instant) * list CrawlLog * list Notification) :=
  (fun x => (x.1, pages (db x.2), last_crawled_at <$> sites (db x.2) !! 1,
             logs (db x.2), outbox x.2)) <$> r.

(** The start times on record, and the two times of each page. *)
Definition times (r : option (Res Exn (bool * string * nat) * World))
  : option (list instant * list instant * list instant) :=
  (fun x => (start_time <$> logs (db x.2),
             first_discovered_at <$> pages (db x.2),
             last_seen_at <$> pages (db x.2))) <$> r.

Definition world_after (r : option (Res Exn (bool * string * nat) * World))
  : World :=
  match r with
  | Some (_, w) => w
  | None => world_of db0
  end.

(** The world that the first cycle over the empty database leaves. *)
Definition world1 : World := world_after (run [] (world_of db0)).

End Examples.

(* ===================================================================== *)
(** * app/utils/http.py, the callers of [make_request] *)
(* ===================================================================== *)

Module HttpTools.

Import Http.

(** What leaves a call of the decorated [make_request] when it does
    not return: the exception of an attempt, or tenacity's
    [RetryError], which is an [Exception] and not a
    [RequestException]. *)
Inductive Thrown :=
| Exception (e : Exc)
| TenacityRetryError (last : Exc).

(** The parameters of [make_request], lines 74-86. *)
Definition make_request_parameters : list string :=
  ["url"; "method"; "params"; "data"; "headers"; "user_agent"; "proxy";
   "timeout"; "verify"; "allow_redirects"; "delay"].

Section Network.

Variable net : nat -> string -> Wire.

(** [check_url_status], lines 209-224: the request is a [HEAD]; the
    only handler is [except RequestException]. *)
Definition check_url_status (url : string) (s : Net) : Res Thrown (bool * Z) * Net :=
  match make_request net url s with
  | (Returned response, s') => (Ret (true, status_code response), s')
  | (Raised e, s') =>
      if is_RequestException e then (Ret (false, 0), s')
      else (Raise (Exception e), s')
  | (RetryError last, s') => (Raise (TenacityRetryError last), s')
  end.

(** A call of [make_request] by keywords. The function takes no
    [**kwargs]: a keyword that is none of its parameters makes the
    call raise [TypeError] in the first attempt, before the body runs
    and before anything is sent; [TypeError] is of no retried class,
    so tenacity raises it as it is. *)
Definition call_make_request (keywords : list string) (url : string) (s : Net)
  : Outcome * Net :=
  if forallb (fun k => bool_decide (k ∈ make_request_parameters)) keywords
  then make_request net url s
  else (Raised (OtherError "TypeError"), s).

(** [download_file], lines 165-206. [written] tells whether opening
    the output file and writing the chunks goes through; everything
    that is raised is caught by [except Exception] and answered with
    [False]. *)
Definition download_file (url output_path : string) (written : bool) (s : Net)
  : bool * Net :=
  match call_make_request
          ["url"; "user_agent"; "proxy"; "timeout"; "allow_redirects"; "stream"]
          url s with
  | (Returned response, s') => (written, s')
  | (_, s') => (false, s')
  end.

End Network.

End HttpTools.

(* ===================================================================== *)
(** * app/notifiers/feishu.py *)
(* ===================================================================== *)

Module Notifier.

Import Database.

(** The notifier after [__init__]: the two settings, each of which
    may be missing or empty. *)
Record FeishuNotifier := {
  webhook_url : option string;
  secret : option string
}.

(** Python truthiness of an optional string. *)
Definition truthy (s : option string) : bool :=
  match s with
  | Some (String _ _) => true
  | _ => false
  end.

(** What one [requests.post] meets. [code_is_0] is the value of
    [data.get("code") == 0], or [None] when [response.json()] or the
    look-up raises. *)
Inductive Reply :=
| Replied (status_code : Z) (code_is_0 : option bool)
| PostFails.

(** What the [try] block of [send_message] can raise. *)
Inductive Caught :=
| PostError
| JsonError.

(** The webhook: the messages posted so far, as type and text, and the
    seconds tenacity slept. *)
Record Hook := {
  posts : list (string * string);
  sleeps : list Z
}.

Definition nl : string := String (Ascii.ascii_of_nat 10) EmptyString.

(** The three pieces of the text built at lines 162-178. *)
Definition new_pages_header (now : string) (site : MonitoredSite) (n : nat) : string :=
  "⚡ 洞察先锋发现新页面" +:+ nl +:+ nl +:+
  "🔍 监控站点: " +:+ name site +:+ nl +:+
  "🌐 网站: " +:+ base_url site +:+ nl +:+
  "⏰ 发现时间: " +:+ now +:+ nl +:+
  "📊 新页面数量: " +:+ pretty n +:+ nl +:+ nl +:+
  "📋 新页面列表:" +:+ nl.

Definition page_line (i : nat) (page : DiscoveredPage) : string :=
  let title := if truthy (page_title page)
               then " - " +:+ default "" (page_title page) else "" in
  pretty i +:+ ". " +:+ url page +:+ title +:+ nl.

Definition more_pages_note (n : nat) : string :=
  nl +:+ "...还有 " +:+ pretty n +:+ " 个页面未显示".

(** The strings of a list, one after the other. *)
Definition join (lines : list string) : string := foldr String.app "" lines.

(** [for i, page in enumerate(pages, i): text_content += ...] *)
Fixpoint add_lines (i : nat) (pages : list DiscoveredPage) (text_content : string)
  : string :=
  match pages with
  | [] => text_content
  | page :: rest => add_lines (S i) rest (text_content +:+ page_line i page)
  end.

Definition new_pages_text (now : string) (site : MonitoredSite)
    (new_pages : list DiscoveredPage) : string :=
  let text_content := new_pages_header now site (length new_pages) in
  let text_content := add_lines 1 (take 10 new_pages) text_content in
  if decide (10 < length new_pages)%nat
  then text_content +:+ more_pages_note (length new_pages - 10)
  else text_content.

Definition error_text (now : string) (site : MonitoredSite) (error_message : string)
  : string :=
  "❌ 洞察先锋监控出错" +:+ nl +:+ nl +:+
  "🔍 监控站点: " +:+ name site +:+ nl +:+
  "🌐 网站: " +:+ base_url site +:+ nl +:+
  "⏰ 时间: " +:+ now +:+ nl +:+ nl +:+
  "📝 错误信息:" +:+ nl +:+ error_message.

Section Webhook.

(** [reply k]: what the [k]-th POST to the webhook meets. *)
Variable reply : nat -> Reply.

(** [datetime.now().strftime("%Y-%m-%d %H:%M:%S")] *)
Variable now : string.

Definition post (msg : string * string) (h : Hook) : Hook :=
  {| posts := posts h ++ [msg]; sleeps := sleeps h |}.

Definition sleep (secs : Z) (h : Hook) : Hook :=
  {| posts := posts h; sleeps := sleeps h ++ [secs] |}.

(** Lines 102-123, the [try] block of [send_message]: [Ret true] is
    [return True]; [Ret false] falls through to the last line. *)
Definition post_and_read (msg_type text : string) (h : Hook) : Res Caught bool * Hook :=
  let h' := post (msg_type, text) h in
  match reply (length (posts h)) with
  | PostFails => (Raise PostError, h')
  | Replied status_code code_is_0 =>
      if status_code =? 200 then
        match code_is_0 with
        | None => (Raise JsonError, h')
        | Some is_0 => (Ret is_0, h')
        end
      else (Ret false, h')
  end.

(** The body of [send_message] for a text message: [except Exception]
    logs and falls through to [return False]. *)
Definition send_message_body (self : FeishuNotifier) (msg_type text : string)
    (h : Hook) : Res Caught bool * Hook :=
  if negb (truthy (webhook_url self)) then (Ret false, h)
  else if negb (truthy (secret self)) then (Ret false, h)
  else
    match post_and_read msg_type text h with
    | (Ret true, h') => (Ret true, h')
    | (Ret false, h') => (Ret false, h')
    | (Raise _, h') => (Ret false, h')
    end.

(** tenacity's loop for
    [@retry(stop=stop_after_attempt(3), wait=wait_exponential(multiplier=1, min=2, max=10))]:
    with no [retry] argument an attempt is retried when it raises. *)
Fixpoint retrying (fuel attempt_number : nat)
    (body : Hook -> Res Caught bool * Hook) (h : Hook) : Res Caught bool * Hook :=
  match body h with
  | (Ret b, h') => (Ret b, h')
  | (Raise e, h') =>
      if Http.stop_after_attempt attempt_number then (Raise e, h')
      else
        match fuel with
        | O => (Raise e, h')
        | S fuel' =>
            retrying fuel' (S attempt_number) body (sleep (Http.wait attempt_number) h')
        end
  end.

(** The decorated [send_message]; [Raise] stands for tenacity's
    [RetryError]. *)
Definition send_message (self : FeishuNotifier) (msg_type text : string)
    (h : Hook) : Res Caught bool * Hook :=
  retrying Http.max_attempt_number 1 (send_message_body self msg_type text) h.

Definition send_text (self : FeishuNotifier) (text : string) (h : Hook)
  : Res Caught bool * Hook :=
  send_message self "text" text h.

Definition send_new_pages_notification (self : FeishuNotifier)
    (site : MonitoredSite) (new_pages : list DiscoveredPage) (h : Hook)
  : Res Caught bool * Hook :=
  match new_pages with
  | [] => (Ret true, h)
  | _ :: _ => send_text self (new_pages_text now site new_pages) h
  end.

Definition send_error_notification (self : FeishuNotifier)
    (site : MonitoredSite) (error_message : string) (h : Hook)
  : Res Caught bool * Hook :=
  send_text self (error_text now site error_message) h.

End Webhook.

End Notifier.

(* ===================================================================== *)
(** * What is said of tables and of pending statements *)
(* ===================================================================== *)

Module Invariants.

Import Database Crawler.

(** The columns of the unique constraint [uix_site_url]. *)
Definition row_key (p : DiscoveredPage) : Z * string :=
  (monitored_site_id p, url p).

(** The constraint holds of the page table. *)
Definition unique_rows (d : DB) : Prop := NoDup (row_key <$> pages d).

(** The columns of a page that the cycle writes once, when it inserts
    the row: all of those that the model class declares but
    [last_seen_at]. *)
Definition fixed_columns (p : DiscoveredPage)
  : Z * string * option string * instant * Z :=
  (monitored_site_id p, url p, page_title p, first_discovered_at p, is_processed p).

(** The history records that a list of pending objects would insert. *)
Definition logged_by (ops : list Op) : list CrawlLog :=
  omap (fun o => match o with InsertLog l => Some l | _ => None end) ops.

(** The statement writes a row of the given site, or a row that
    belongs to it. *)
Definition about (site_id : Z) (o : Op) : Prop :=
  match o with
  | InsertPage p => monitored_site_id p = site_id
  | TouchPage s _ _ => s = site_id
  | TouchSite s _ => s = site_id
  | InsertLog l => log_site_id l = site_id
  end.

(** The statement is one that the diff loop leaves pending over the
    table of [d]: a new row of the site for a URL that has none, or
    the refresh of a row that the site has. *)
Definition diff_op (site_id : Z) (d : DB) (o : Op) : Prop :=
  match o with
  | InsertPage p =>
      monitored_site_id p = site_id /\ ~ has_row site_id (url p) d /\
      page_title p = None /\ is_processed p = 0
  | TouchPage s u _ => s = site_id /\ has_row site_id u d
  | _ => False
  end.

(** The pages and the history of the other sites. *)
Definition other_pages (site_id : Z) (d : DB) : list DiscoveredPage :=
  filter (fun p => monitored_site_id p <> site_id) (pages d).
Definition other_logs (site_id : Z) (d : DB) : list CrawlLog :=
  filter (fun l => log_site_id l <> site_id) (logs d).

(** The history record written at lines 313-319 of crawler.py. *)
Definition success_log (github_run_id : option string) (site : MonitoredSite)
    (self_start_time : instant) (n : nat) (now : instant) : CrawlLog :=
  {| log_site_id := id site;
     run_id := github_run_id;
     start_time := self_start_time;
     end_time := Some now;
     status := "success";
     pages_found_count := n;
     message := Some (found_message n) |}.

(** The messages that the two branches of [process_site] send when
    nothing raises before (lines 322-323 and 351-352 of crawler.py). *)
Definition news_notes (site : MonitoredSite) (new_pages : list DiscoveredPage)
  : list Notification :=
  if bool_decide (new_pages <> []) && bool_decide (is_notification_enabled site <> 0)
  then [NewPages (id site) new_pages] else [].
Definition error_notes (site : MonitoredSite) (e : Exn) : list Notification :=
  if bool_decide (is_notification_enabled site <> 0)
  then [ErrorNote (id site) (str e)] else [].

(** The time is a reading of the clock, the [lo]-th or a later one
    before the [hi]-th. *)
Definition read_between (clock : nat -> instant) (lo hi : nat) (t : instant) : Prop :=
  exists k, (lo <= k < hi)%nat /\ t = clock k.

(** The times that a pending statement writes were read from the
    clock between the [lo]-th and the [hi]-th reading; the two times
    of a new row are successive readings. *)
Definition timed_op (clock : nat -> instant) (lo hi : nat) (o : Op) : Prop :=
  match o with
  | InsertPage p =>
      exists k, (lo <= k)%nat /\ (S k < hi)%nat /\
        first_discovered_at p = clock k /\ last_seen_at p = clock (S k)
  | TouchPage _ _ t => read_between clock lo hi t
  | _ => True
  end.

(** The row [p] is the row [p0], with its last-seen time as it was or
    read from the clock between the [lo]-th and the [hi]-th reading. *)
Definition refreshed (clock : nat -> instant) (lo hi : nat)
    (p0 p : DiscoveredPage) : Prop :=
  fixed_columns p = fixed_columns p0 /\
  (last_seen_at p = last_seen_at p0 \/ read_between clock lo hi (last_seen_at p)).

(** How far the three commits of the [try] block got before an
    exception: none, the pages, the pages and the last-crawled time,
    or these and the success record for [n] new pages. *)
Definition stage (github_run_id : option string) (site : MonitoredSite)
    (self_start_time : instant) (n : nat) (pending : list Op) (done : list Op)
  : Prop :=
  done = [] \/ done = pending \/
  (exists t, done = pending ++ [TouchSite (id site) t]) \/
  (exists t now,
     done = pending ++ [TouchSite (id site) t;
                        InsertLog (success_log github_run_id site self_start_time n now)]).

End Invariants.

(* ===================================================================== *)
(** * More worlds: a sitemap that repeats a URL, a server that is gone *)
(* ===================================================================== *)

Module Scenarios.

Import Http Database Crawler Examples.

(** Every URL serves the same leaf sitemap. *)
Definition leaf_net (_ : nat) (_ : string) : Wire := serve leaf_doc.

(** A leaf sitemap that lists [/a] twice. *)
Definition repeated_entries (c : bytes) : list Parser.Entry :=
  match c with
  | [Byte.x6c] => [entry_a; entry_b; entry_a]
  | _ => []
  end.

(** Every request is answered 404. *)
Definition gone_net (_ : nat) (_ : string) : Wire := Answer not_found.

(** A page of another site. *)
Definition page_other : DiscoveredPage :=
  {| monitored_site_id := 2;
     url := "https://example.org/x";
     page_title := Some "x"%string;
     first_discovered_at := 1680000000;
     last_seen_at := 1680000000;
     is_processed := 1 |}.

Definition db2 : DB :=
  {| sites := {[1 := site]}; pages := [page_other; page_a]; logs := [] |}.

(** An index of two leaves, [/a] in the first and [/b] in the second. *)
Definition leaf2_url : string := "https://example.com/sitemap-2.xml".
Definition leaf2_doc : bytes := [Byte.x6d].
Definition flat_net (_ : nat) (u : string) : Wire :=
  if String.eqb u root_url then serve index_doc
  else if String.eqb u leaf_url then serve leaf_doc
  else serve leaf2_doc.
Definition flat_children (c : bytes) (_ : string) : list string :=
  if is_index c then [leaf_url; leaf2_url] else [].
Definition flat_entries (c : bytes) : list Parser.Entry :=
  match c with
  | [Byte.x6c] => [entry_a]
  | [Byte.x6d] => [entry_b]
  | _ => []
  end.
Definition flat_doc (u : string) : bytes :=
  if String.eqb u leaf_url then leaf_doc else leaf2_doc.

(** A configured notifier and a webhook that has seen nothing yet. *)
Definition feishu : Notifier.FeishuNotifier :=
  {| Notifier.webhook_url := Some "https://open.feishu.cn/hook"%string;
     Notifier.secret := Some "s3cret"%string |}.

Definition hook0 : Notifier.Hook := {| Notifier.posts := []; Notifier.sleeps := [] |}.

(** One cycle over the example site with the given network and leaf
    parser, with a database that does not fail. *)
Definition run_with (net : nat -> string -> Wire)
    (parse_sitemap : bytes -> list Parser.Entry) (w : World)
  : option (Res Exn (bool * string * nat) * World) :=
  process_site clock (faults_at []) flushing delivered net gunzip is_index
    index_children parse_sitemap None 5 [] site w.

End Scenarios.

(* ===================================================================== *)
(** * Properties of [make_request] *)
(* ===================================================================== *)

Module HttpFacts.

Import Http.

Lemma wait_bounds (k : nat) : 2 <= wait k <= 10.
Proof. unfold wait, wait_exponential. lia. Qed.

Lemma attempt_error_status (r : Response) :
  400 <= status_code r < 600 -> attempt (Answer r) = Raise (HTTPError (status_code r)).
Proof.
  intros H. unfold attempt, raise_for_status.
  destruct (400 <=? status_code r) eqn:E1; [|lia].
  destruct (status_code r <? 600) eqn:E2; [|lia].
  reflexivity.
Qed.

Lemma retried_attempt (w : Wire) :
  retried w = true ->
  exists e, attempt w = Raise e /\ retry_if_exception_type e = true.
Proof.
  unfold retried. destruct (attempt w) as [r|e]; [discriminate|]. eauto.
Qed.

Section Retry.

Variable net : nat -> string -> Wire.

Lemma retrying_requests (fuel : nat) :
  forall k url s,
    (n_req (retrying net fuel k url s).2
     <= n_req s + S (Nat.min fuel (max_attempt_number - k)))%nat.
Proof.
  induction fuel as [|fuel IH]; intros k url s; simpl.
  - destruct (attempt _) as [r|e]; simpl; [lia|].
    destruct (retry_if_exception_type e); simpl; [|lia].
    destruct (stop_after_attempt k); simpl; lia.
  - destruct (attempt _) as [r|e]; simpl; [lia|].
    destruct (retry_if_exception_type e); simpl; [|lia].
    unfold stop_after_attempt, max_attempt_number in *.
    destruct (3 <=? k)%nat eqn:E; simpl; [lia|].
    apply Nat.leb_gt in E.
    etransitivity; [apply IH|]. destruct k as [|[|[|k]]]; simpl; lia.
Qed.

End Retry.

(** C4, as the code has it. A [GET] is attempted at most three times.
    An attempt is retried when it raises a [RequestException] (which
    includes the [HTTPError] of every 4xx and 5xx response, connection
    errors and timeouts); an exception of another kind is raised at
    once. Two retried failures followed by a success return the
    successful response; three retried failures raise [RetryError];
    between attempts tenacity sleeps [wait 1] and [wait 2] seconds, each
    between 2 and 10. *)
Theorem make_request_retry_policy (net : nat -> string -> Wire)
    (url : string) (s : Net) :
  let n := n_req s in
  (forall r, 400 <= status_code r < 600 -> retried (Answer r) = true) /\
  retried (Fails RequestsConnectionError) = true /\
  retried (Fails RequestsTimeout) = true /\
  (forall r,
      retried (net n url) = true -> retried (net (S n) url) = true ->
      attempt (net (S (S n)) url) = Ret r ->
      make_request net url s
      = (Returned r, {| n_req := 3 + n; waits := waits s ++ [wait 1; wait 2] |})) /\
  (forall e,
      retried (net n url) = true -> retried (net (S n) url) = true ->
      attempt (net (S (S n)) url) = Raise e -> retry_if_exception_type e = true ->
      make_request net url s
      = (RetryError e, {| n_req := 3 + n; waits := waits s ++ [wait 1; wait 2] |})) /\
  (forall e,
      attempt (net n url) = Raise e -> retry_if_exception_type e = false ->
      make_request net url s = (Raised e, {| n_req := 1 + n; waits := waits s |})) /\
  (n_req (make_request net url s).2 <= 3 + n)%nat /\
  (forall k, 2 <= wait k <= 10).
Proof.
  intros n. repeat split.
  - intros r Hr. unfold retried. rewrite attempt_error_status by exact Hr. reflexivity.
  - intros r H1 H2 H3.
    apply retried_attempt in H1 as (e1 & A1 & R1).
    apply retried_attempt in H2 as (e2 & A2 & R2).
    unfold make_request. simpl. fold n. rewrite A1, R1. simpl. fold n.
    rewrite A2, R2. simpl. fold n. rewrite H3.
    unfold slept, sent. simpl. rewrite <- app_assoc. reflexivity.
  - intros e H1 H2 H3 R3.
    apply retried_attempt in H1 as (e1 & A1 & R1).
    apply retried_attempt in H2 as (e2 & A2 & R2).
    unfold make_request. simpl. fold n. rewrite A1, R1. simpl. fold n.
    rewrite A2, R2. simpl. fold n. rewrite H3, R3.
    unfold slept, sent. simpl. rewrite <- app_assoc. reflexivity.
  - intros e H1 R1. unfold make_request. simpl. fold n. rewrite H1, R1. reflexivity.
  - pose proof (retrying_requests net max_attempt_number 1 url s) as H.
    change (retrying net max_attempt_number 1 url s) with (make_request net url s) in H.
    change (Nat.min max_attempt_number (max_attempt_number - 1)) with 2%nat in H.
    fold n in H. lia.
  - apply wait_bounds.
  - apply wait_bounds.
Qed.

(** The policy at work on a server that fails twice and then answers. *)
Lemma make_request_retry_policy_witness :
  make_request Examples.net_flaky "https://example.com/sitemap.xml" Examples.net0
  = (Returned Examples.ok_response, {| n_req := 3; waits := [wait 1; wait 2] |}).
Proof.
  pose proof (make_request_retry_policy Examples.net_flaky
                "https://example.com/sitemap.xml" Examples.net0) as H.
  simpl in H.
  destruct H as (_ & _ & _ & H & _).
  apply (H Examples.ok_response); reflexivity.
Defined.

(** C4 as stated fails: a 404 is not terminal. The request is sent
    again after the backoff, and here the second attempt succeeds. *)
Lemma make_request_retries_404 :
  status_code Examples.not_found = 404 /\
  Examples.net_404_then_200 0 "https://example.com/sitemap.xml"
    = Answer Examples.not_found /\
  make_request Examples.net_404_then_200 "https://example.com/sitemap.xml" Examples.net0
    = (Returned Examples.ok_response, {| n_req := 2; waits := [wait 1] |}).
Proof. repeat split. Qed.

End HttpFacts.

(* ===================================================================== *)
(** * Properties of the sitemap walk *)
(* ===================================================================== *)

Module ParserFacts.

Import Http Parser.

Section Walk.

Variable net : nat -> string -> Wire.
Variable gzip_decompress : bytes -> option bytes.
Variable is_sitemap_index : bytes -> bool.
Variable parse_sitemap_index : bytes -> string -> list string.
Variable parse_sitemap : bytes -> list Entry.

Local Abbreviation fetch_sitemap := (fetch_sitemap net gzip_decompress).
Local Abbreviation process_sitemap :=
  (process_sitemap net gzip_decompress is_sitemap_index parse_sitemap_index parse_sitemap).
Local Abbreviation contribution := (contribution is_sitemap_index parse_sitemap).
Local Abbreviation continues := (continues is_sitemap_index parse_sitemap).
Local Abbreviation closed :=
  (closed net gzip_decompress is_sitemap_index parse_sitemap_index).

Lemma fetch_sitemap_requests (u : string) (s : Net) :
  (n_req (fetch_sitemap u s).2 <= 3 + n_req s)%nat.
Proof.
  unfold Parser.fetch_sitemap.
  pose proof (HttpFacts.retrying_requests net max_attempt_number 1 u s) as H.
  change (retrying net max_attempt_number 1 u s) with (make_request net u s) in H.
  change (Nat.min max_attempt_number (max_attempt_number - 1)) with 2%nat in H.
  destruct (make_request net u s) as [[r|e|e] s']; simpl in *; try lia.
  destruct (is_gzipped r u); simpl; lia.
Qed.

Lemma continues_refl (U : gset string) (w : Walk) : continues U w w [].
Proof.
  unfold Parser.continues. simpl.
  repeat split; try (rewrite ?app_nil_r; reflexivity).
  - set_solver.
  - constructor.
  - set_solver.
  - set_solver.
  - lia.
Qed.

Lemma continues_trans (U : gset string) (w1 w2 w3 : Walk) new1 new2 :
  continues U w1 w2 new1 -> continues U w2 w3 new2 ->
  continues U w1 w3 (new1 ++ new2).
Proof.
  intros (L1 & P1 & N1 & F1 & A1 & R1) (L2 & P2 & N2 & F2 & A2 & R2).
  unfold Parser.continues. rewrite fmap_app, flat_map_app, length_app.
  repeat split.
  - rewrite L2, L1, app_assoc. reflexivity.
  - rewrite P2, P1, list_to_set_app_L. set_solver.
  - apply NoDup_app. repeat split; [exact N1| |exact N2].
    intros u H1 H2. apply F2 in H2 as [H2 _]. apply H2. rewrite P1.
    apply elem_of_union_r, elem_of_list_to_set. exact H1.
  - rewrite elem_of_app in H. destruct H as [H|H]; [apply F1, H|].
    apply F2 in H as [H _]. rewrite P1 in H. set_solver.
  - rewrite elem_of_app in H. destruct H as [H|H]; [apply F1, H|apply F2, H].
  - rewrite A2, A1, app_assoc. reflexivity.
  - lia.
Qed.

Lemma continues_processed (U : gset string) (w w' : Walk) new :
  continues U w w' new -> processed_sitemaps w ⊆ processed_sitemaps w'.
Proof. intros (_ & P & _). rewrite P. set_solver. Qed.

Lemma remaining_le (U : gset string) (w w' : Walk) :
  processed_sitemaps w ⊆ processed_sitemaps w' ->
  (size (U ∖ processed_sitemaps w') <= size (U ∖ processed_sitemaps w))%nat.
Proof. intros H. apply subseteq_size. set_solver. Qed.

Lemma remaining_lt (U : gset string) (u : string) (w : Walk) :
  u ∈ U -> u ∉ processed_sitemaps w ->
  (size (U ∖ ({[u]} ∪ processed_sitemaps w)) < size (U ∖ processed_sitemaps w))%nat.
Proof.
  intros HU Hn. apply subset_size. apply strict_spec_alt. split; [set_solver|].
  intros Heq. assert (u ∈ U ∖ processed_sitemaps w) as Hin by set_solver.
  rewrite <- Heq in Hin. set_solver.
Qed.

(** One call for an unprocessed URL: the URL is marked, fetched, and
    the step is recorded. *)
Lemma first_step (U : gset string) (u : string) (w : Walk) :
  u ∈ U -> u ∉ processed_sitemaps w ->
  let r := fetch_sitemap u (net_st w) in
  contribution (u, r.1) = [] ->
  continues U w (fetched u r (mark u w)) [(u, r.1)].
Proof.
  intros HU Hn r Hc. unfold Parser.continues. simpl.
  repeat split.
  - set_solver.
  - apply NoDup_singleton.
  - apply list_elem_of_singleton in H. subst. exact Hn.
  - apply list_elem_of_singleton in H. subst. exact HU.
  - fold r. rewrite Hc. rewrite !app_nil_r. reflexivity.
  - pose proof (fetch_sitemap_requests u (net_st w)). fold r in H. lia.
Qed.

Lemma leaf_step (U : gset string) (u : string) (w : Walk) :
  u ∈ U -> u ∉ processed_sitemaps w ->
  let r := fetch_sitemap u (net_st w) in
  continues U w (extend (contribution (u, r.1)) (fetched u r (mark u w))) [(u, r.1)].
Proof.
  intros HU Hn r. unfold Parser.continues. simpl.
  repeat split.
  - set_solver.
  - apply NoDup_singleton.
  - apply list_elem_of_singleton in H. subst. exact Hn.
  - apply list_elem_of_singleton in H. subst. exact HU.
  - fold r. rewrite !app_nil_r. reflexivity.
  - pose proof (fetch_sitemap_requests u (net_st w)). fold r in H. lia.
Qed.

Lemma for_each_cons (body : string -> Walk -> option Walk) child rest w :
  for_each body (child :: rest) w = body child w ≫= for_each body rest.
Proof. reflexivity. Qed.

Lemma process_sitemap_eq (n : nat) (base u : string) (w : Walk) :
  process_sitemap (S n) base u w =
  if decide (u ∈ processed_sitemaps w) then Some w
  else
    let r := fetch_sitemap u (net_st w) in
    let w2 := fetched u r (mark u w) in
    match r.1 with
    | Some ((_ :: _) as c) =>
        if is_sitemap_index c
        then for_each (process_sitemap n base) (parse_sitemap_index c base) w2
        else Some (extend (parse_sitemap c) w2)
    | _ => Some w2
    end.
Proof. reflexivity. Qed.

(** A URL that is already processed is left alone: nothing is fetched. *)
Lemma process_sitemap_again (n : nat) (base u : string) (w : Walk) :
  u ∈ processed_sitemaps w -> process_sitemap (S n) base u w = Some w.
Proof. intros H. rewrite process_sitemap_eq, decide_True by exact H. reflexivity. Qed.

(** A URL whose fetch gives nothing is marked and logged, and that is all. *)
Lemma process_sitemap_failed (n : nat) (base u : string) (w : Walk) :
  u ∉ processed_sitemaps w ->
  falsy (fetch_sitemap u (net_st w)).1 = true ->
  process_sitemap (S n) base u w
  = Some (fetched u (fetch_sitemap u (net_st w)) (mark u w)).
Proof.
  intros H F. rewrite process_sitemap_eq, decide_False by exact H. simpl.
  destruct (fetch_sitemap u (net_st w)).1 as [[|b c]|]; try reflexivity.
  discriminate.
Qed.

Lemma for_each_mono (f g : string -> Walk -> option Walk) :
  (forall u w w', f u w = Some w' -> g u w = Some w') ->
  forall cs w w', for_each f cs w = Some w' -> for_each g cs w = Some w'.
Proof.
  intros H. induction cs as [|c cs IH]; intros w w'; [auto|].
  rewrite !for_each_cons. destruct (f c w) as [w1|] eqn:E; simpl; [|discriminate].
  rewrite (H _ _ _ E). simpl. apply IH.
Qed.

(** More fuel does not change what a call returns. *)
Lemma process_sitemap_more_fuel (base : string) (n : nat) :
  forall u w w',
    process_sitemap n base u w = Some w' -> process_sitemap (S n) base u w = Some w'.
Proof.
  induction n as [|n IH]; intros u w w'; [discriminate|].
  rewrite !process_sitemap_eq. destruct (decide _); [auto|]. simpl.
  destruct (fetch_sitemap u (net_st w)).1 as [[|b c]|]; auto.
  destruct (is_sitemap_index (b :: c)); auto.
  apply for_each_mono. exact IH.
Qed.

Lemma process_sitemap_fuel_le (base : string) (n m : nat) u w w' :
  (n <= m)%nat ->
  process_sitemap n base u w = Some w' -> process_sitemap m base u w = Some w'.
Proof.
  induction 1 as [|m _ IH]; [auto|].
  intros H. apply process_sitemap_more_fuel, IH, H.
Qed.

Section Closed.

Variable U : gset string.
Variable base : string.
Hypothesis HU : closed base U.

Lemma for_each_continues (n : nat)
    (IH : forall u w, u ∈ U -> (size (U ∖ processed_sitemaps w) <= n)%nat ->
          exists w' new, process_sitemap (S n) base u w = Some w' /\
                         continues U w w' new /\ u ∈ processed_sitemaps w') :
  forall children w,
    (forall c, c ∈ children -> c ∈ U) ->
    (size (U ∖ processed_sitemaps w) <= n)%nat ->
    exists w' new, for_each (process_sitemap (S n) base) children w = Some w' /\
                   continues U w w' new.
Proof.
  induction children as [|c cs IHc]; intros w Hc Hsz.
  - exists w, []. split; [reflexivity|apply continues_refl].
  - destruct (IH c w) as (w1 & new1 & E1 & C1 & _);
      [apply Hc; left|exact Hsz|].
    destruct (IHc w1) as (w2 & new2 & E2 & C2).
    + intros c' Hc'. apply Hc. right. exact Hc'.
    + etransitivity; [|exact Hsz].
      apply remaining_le. eapply continues_processed. exact C1.
    + exists w2, (new1 ++ new2). split.
      * rewrite for_each_cons, E1. exact E2.
      * eapply continues_trans; eassumption.
Qed.

(** The walk from any state: with as much fuel as there are URLs of
    [U] left to process (and one more), the call returns, and the state
    it returns continues the one it started from. *)
Lemma process_sitemap_continues (n : nat) :
  forall u w, u ∈ U -> (size (U ∖ processed_sitemaps w) <= n)%nat ->
    exists w' new, process_sitemap (S n) base u w = Some w' /\
                   continues U w w' new /\ u ∈ processed_sitemaps w'.
Proof.
  induction n as [|n IH]; intros u w Hu Hsz;
    (destruct (decide (u ∈ processed_sitemaps w)) as [Hin|Hnot];
     [exists w, []; split; [apply process_sitemap_again, Hin|];
      split; [apply continues_refl|exact Hin] |]);
    pose proof (remaining_lt U u w Hu Hnot) as Hlt; [lia|].
  rewrite process_sitemap_eq, decide_False by exact Hnot. simpl.
  set (r := fetch_sitemap u (net_st w)).
  set (w2 := fetched u r (mark u w)).
  assert (u ∈ processed_sitemaps w2) as Hu2 by (simpl; set_solver).
  destruct r.1 as [[|b c]|] eqn:E.
  - exists w2, [(u, r.1)]. split; [reflexivity|]. split; [|exact Hu2].
    apply first_step; [exact Hu|exact Hnot|].
    unfold Parser.contribution. simpl. fold r. rewrite E. reflexivity.
  - destruct (is_sitemap_index (b :: c)) eqn:EI.
    + destruct (for_each_continues n IH (parse_sitemap_index (b :: c) base) w2)
        as (w3 & new & E3 & C3).
      * intros child Hchild. eapply (HU (net_st w) u (b :: c)); eauto.
      * simpl. lia.
      * exists w3, ([(u, r.1)] ++ new). split; [exact E3|]. split.
        -- eapply continues_trans; [|exact C3].
           apply first_step; [exact Hu|exact Hnot|].
           unfold Parser.contribution. simpl. fold r. rewrite E, EI. reflexivity.
        -- eapply continues_processed; [exact C3|exact Hu2].
    + exists (extend (parse_sitemap (b :: c)) w2), [(u, r.1)].
      split; [reflexivity|]. split; [|exact Hu2].
      pose proof (leaf_step U u w Hu Hnot) as L. simpl in L. fold r in L.
      unfold Parser.contribution in L at 1. simpl in L. rewrite E, EI in L.
      rewrite E. exact L.
  - exists w2, [(u, r.1)]. split; [reflexivity|]. split; [|exact Hu2].
    apply first_step; [exact Hu|exact Hnot|].
    unfold Parser.contribution. simpl. fold r. rewrite E. reflexivity.
Qed.

End Closed.

Lemma fetch_log_bound (U : gset string) (l : list string) :
  NoDup l -> (forall u, u ∈ l -> u ∈ U) -> (length l <= size U)%nat.
Proof.
  intros N H. rewrite <- (size_list_to_set (C:=gset string) l N).
  apply subseteq_size. intros u Hu. apply elem_of_list_to_set in Hu. auto.
Qed.

(** ** The fetch log against the network *)

Local Abbreviation references := (references is_sitemap_index parse_sitemap_index).
Local Abbreviation replay := (replay net gzip_decompress).
Local Abbreviation explores :=
  (explores net gzip_decompress is_sitemap_index parse_sitemap_index).

Lemma replay_app (a b : list string) (s : Net) :
  replay (a ++ b) s
  = ((replay a s).1 ++ (replay b (replay a s).2).1, (replay b (replay a s).2).2).
Proof.
  revert s. induction a as [|u a IH]; intros s; simpl.
  - destruct (replay b s). reflexivity.
  - rewrite IH. reflexivity.
Qed.

Lemma explores_nil (base : string) (roots : list string) (w : Walk) :
  explores base roots w w [].
Proof.
  unfold Parser.explores. rewrite app_nil_r. repeat split; try reflexivity.
  - set_solver.
  - intros f c Hf. inversion Hf.
  - intros i f Hf. rewrite lookup_nil in Hf. discriminate.
Qed.

Lemma explores_processed (base : string) (roots : list string) (w w' : Walk) new :
  explores base roots w w' new -> processed_sitemaps w ⊆ processed_sitemaps w'.
Proof. intros (_ & _ & P & _). rewrite P. set_solver. Qed.

Lemma explores_app (base : string) (r1 r2 : list string) (w w1 w2 : Walk) n1 n2 :
  explores base r1 w w1 n1 -> explores base r2 w1 w2 n2 ->
  explores base (r1 ++ r2) w w2 (n1 ++ n2).
Proof.
  intros (L1 & R1 & S1 & C1 & H1) X2.
  pose proof (explores_processed _ _ _ _ _ X2) as Sub.
  destruct X2 as (L2 & R2 & S2 & C2 & H2).
  unfold Parser.explores. split; [|split; [|split; [|split]]].
  - rewrite L2, L1, app_assoc. reflexivity.
  - rewrite fmap_app, replay_app, R1. simpl. rewrite R2. reflexivity.
  - rewrite S2, S1, fmap_app, list_to_set_app_L. set_solver.
  - intros f c Hf Hc. apply elem_of_app in Hf as [Hf|Hf].
    + apply Sub. eapply C1; eassumption.
    + eapply C2; eassumption.
  - intros i f Hi. apply lookup_app_Some in Hi as [Hi|[Hlen Hi]].
    + destruct (H1 i f Hi) as [Hr|(j & g & Hj & Hg & Hc)].
      * left. apply elem_of_app. left. exact Hr.
      * right. exists j, g. split; [exact Hj|]. split; [|exact Hc].
        apply lookup_app_l_Some. exact Hg.
    + destruct (H2 _ f Hi) as [Hr|(j & g & Hj & Hg & Hc)].
      * left. apply elem_of_app. right. exact Hr.
      * right. exists (length n1 + j)%nat, g. split; [lia|]. split; [|exact Hc].
        rewrite lookup_app_r by lia.
        replace (length n1 + j - length n1)%nat with j by lia. exact Hg.
Qed.

Lemma explores_first (base u : string) (w w' : Walk) :
  let r := fetch_sitemap u (net_st w) in
  fetch_log w' = fetch_log w ++ [(u, r.1)] ->
  net_st w' = r.2 ->
  processed_sitemaps w' = {[u]} ∪ processed_sitemaps w ->
  (forall c, c ∈ references base (u, r.1) -> c ∈ processed_sitemaps w') ->
  explores base [u] w w' [(u, r.1)].
Proof.
  intros r L N S C. unfold Parser.explores. split; [exact L|].
  split; [simpl; fold r; rewrite N; reflexivity|].
  split; [rewrite S; simpl; set_solver|]. split.
  - intros f c Hf. apply list_elem_of_singleton in Hf. subst f. apply C.
  - intros [|i] f Hi; [|discriminate]. injection Hi as <-. left. left.
Qed.

Lemma for_each_explores (n : nat) (base : string)
    (IH : forall u w w', process_sitemap n base u w = Some w' ->
          exists new, explores base [u] w w' new /\ u ∈ processed_sitemaps w') :
  forall children w w',
    for_each (process_sitemap n base) children w = Some w' ->
    exists new, explores base children w w' new /\
      forall c, c ∈ children -> c ∈ processed_sitemaps w'.
Proof.
  induction children as [|c cs IHc]; intros w w'.
  - intros [= <-]. exists []. split; [apply explores_nil|]. intros c Hc. inversion Hc.
  - rewrite for_each_cons.
    destruct (process_sitemap n base c w) as [w1|] eqn:E1; [|discriminate].
    cbn [mbind option_bind]. intros E2.
    destruct (IH _ _ _ E1) as (n1 & X1 & Hc1).
    destruct (IHc _ _ E2) as (n2 & X2 & Hc2).
    exists (n1 ++ n2). split.
    + change (c :: cs) with ([c] ++ cs). eapply explores_app; eassumption.
    + intros c' Hc'. apply elem_of_cons in Hc' as [->|Hc']; [|apply Hc2, Hc'].
      eapply explores_processed; [exact X2|exact Hc1].
Qed.

(** A call that returns, whatever the fuel and whatever the web: its
    stretch of the log is what the network gives, it is closed under
    the references of the indexes in it, and nothing in it is fetched
    without a reference to it. *)
Lemma process_sitemap_explores (base : string) (n : nat) :
  forall u w w', process_sitemap n base u w = Some w' ->
    exists new, explores base [u] w w' new /\ u ∈ processed_sitemaps w'.
Proof.
  induction n as [|n IH]; intros u w w'; [discriminate|].
  rewrite process_sitemap_eq.
  destruct (decide (u ∈ processed_sitemaps w)) as [Hin|Hnot].
  { intros [= <-]. exists []. split; [apply explores_nil|exact Hin]. }
  cbn zeta.
  set (r := fetch_sitemap u (net_st w)).
  set (w2 := fetched u r (mark u w)).
  assert (u ∈ processed_sitemaps w2) as Hu2 by (simpl; set_solver).
  destruct r.1 as [[|b c]|] eqn:E.
  - intros [= <-]. exists [(u, r.1)]. split; [|exact Hu2].
    apply explores_first; [reflexivity|reflexivity|reflexivity|].
    fold r. unfold Parser.references. simpl. rewrite E. intros c Hc. inversion Hc.
  - destruct (is_sitemap_index (b :: c)) eqn:EI.
    + intros H.
      destruct (for_each_explores n base IH _ _ _ H) as (new & X & Hall).
      pose proof (explores_processed _ _ _ _ _ X) as Sub.
      destruct X as (L & R & Sb & C & Hr).
      exists ([(u, r.1)] ++ new). split; [|apply Sub, Hu2].
      unfold Parser.explores. split; [|split; [|split; [|split]]].
      * rewrite L. simpl. rewrite <- app_assoc. reflexivity.
      * change (([(u, r.1)] ++ new).*1) with (u :: new.*1).
        change (net_st w2) with r.2 in R.
        cbn [Parser.replay]. fold r. rewrite R. reflexivity.
      * rewrite Sb. simpl. set_solver.
      * intros f c0 Hf Hc0. apply elem_of_cons in Hf as [->|Hf]; [|eapply C; eassumption].
        apply Hall. unfold Parser.references in Hc0. simpl in Hc0.
        rewrite E, EI in Hc0. exact Hc0.
      * intros [|i] f Hi.
        -- injection Hi as <-. left. left.
        -- right. simpl in Hi. destruct (Hr i f Hi) as [Hc|(j & g & Hj & Hg & Hc)].
           ++ exists 0%nat, (u, r.1). split; [lia|]. split; [reflexivity|].
              unfold Parser.references. simpl. rewrite E, EI. exact Hc.
           ++ exists (S j), g. split; [lia|]. split; [exact Hg|exact Hc].
    + intros [= <-]. exists [(u, r.1)]. split; [|exact Hu2].
      apply explores_first; [reflexivity|reflexivity|reflexivity|].
      fold r. unfold Parser.references. simpl. rewrite E, EI. intros c0 Hc. inversion Hc.
  - intros [= <-]. exists [(u, r.1)]. split; [|exact Hu2].
    apply explores_first; [reflexivity|reflexivity|reflexivity|].
    fold r. unfold Parser.references. simpl. rewrite E. intros c Hc. inversion Hc.
Qed.

(** The same for the whole walk, from the root and the empty set. *)
Lemma returned_walk_explores (fuel : nat) (root base : string) (s : Net)
    (entries : list Entry) (visited : gset string) (w : Walk) :
  fetch_and_parse_sitemap net gzip_decompress is_sitemap_index parse_sitemap_index
    parse_sitemap fuel root base s = Some (entries, visited, w) ->
  replay (fetch_log w).*1 s = (fetch_log w, net_st w) /\
  (exists rest, (fetch_log w).*1 = root :: rest) /\
  (forall f c, f ∈ fetch_log w -> c ∈ references base f -> c ∈ visited) /\
  (forall i f, fetch_log w !! i = Some f ->
     f.1 = root \/
     exists j g, (j < i)%nat /\ fetch_log w !! j = Some g /\ f.1 ∈ references base g).
Proof.
  unfold Parser.fetch_and_parse_sitemap.
  destruct (process_sitemap fuel base root (init_walk s)) as [w0|] eqn:E; [|discriminate].
  intros [= <- <- <-].
  apply process_sitemap_explores in E as (new & (L & R & P & C & H) & Hroot).
  simpl in L, R, P. subst new.
  split; [exact R|]. split; [|split; [exact C|]].
  - destruct (fetch_log w0) as [|f l] eqn:EL.
    + rewrite P in Hroot. simpl in Hroot. set_solver.
    + destruct (H 0%nat f eq_refl) as [Hf|(j & g & Hj & _)]; [|lia].
      apply list_elem_of_singleton in Hf. exists (l.*1). simpl. rewrite Hf. reflexivity.
  - intros i f Hi. destruct (H i f Hi) as [Hf|Hf]; [|right; exact Hf].
    left. apply list_elem_of_singleton in Hf. exact Hf.
Qed.

(** C2. Over a finite set [U] of sitemap URLs that is closed under
    child references (self references and cycles included), the walk
    from a URL of [U] returns with any fuel above [size U]; no URL is
    fetched twice, only URLs of [U] are fetched, so at most [size U]
    fetches and three times as many HTTP requests are made; more fuel
    gives the same result. *)
Theorem walk_terminates (U : gset string) (base root : string) (s : Net)
    (fuel : nat) :
  closed base U -> root ∈ U -> (size U < fuel)%nat ->
  exists entries visited w,
    fetch_and_parse_sitemap net gzip_decompress is_sitemap_index
      parse_sitemap_index parse_sitemap fuel root base s
    = Some (entries, visited, w) /\
    NoDup (fetch_log w).*1 /\
    (forall u, u ∈ (fetch_log w).*1 -> u ∈ U) /\
    (length (fetch_log w) <= size U)%nat /\
    (n_req (net_st w) <= n_req s + 3 * size U)%nat /\
    (forall fuel', (fuel <= fuel')%nat ->
       fetch_and_parse_sitemap net gzip_decompress is_sitemap_index
         parse_sitemap_index parse_sitemap fuel' root base s
       = Some (entries, visited, w)).
Proof.
  intros HU Hr Hf. destruct fuel as [|n]; [lia|].
  destruct (process_sitemap_continues U base HU n root (init_walk s) Hr)
    as (w & new & E & (L & _ & N & F & _ & R) & _).
  - etransitivity; [apply subseteq_size|]; [|apply Nat.lt_succ_r, Hf]. set_solver.
  - simpl in L. subst new.
    assert (length (fetch_log w) <= size U)%nat as B.
    { rewrite <- (length_fmap fst). apply fetch_log_bound; [exact N|].
      intros u Hu. apply F, Hu. }
    exists (all_urls w), (processed_sitemaps w), w.
    unfold fetch_and_parse_sitemap. rewrite E. simpl.
    split; [reflexivity|]. split; [exact N|]. split; [intros u Hu; apply F, Hu|].
    split; [exact B|]. split; [simpl in R; lia|].
    intros fuel' Hle. rewrite (process_sitemap_fuel_le base (S n) fuel' _ _ _ Hle E).
    reflexivity.
Qed.

(** C5. On such a walk the result is what the fetched leaves held, in
    the order of the fetches: a fetch that gave nothing (failed after
    the retries, failed to decompress, or empty) and an index add no
    entry. The fetches are the calls of [fetch_sitemap] on the network
    as the walk found it, each URL once and the root first; every
    child reference of a fetched index is among them, whatever became
    of its siblings, and nothing is fetched that no fetched index
    refers to. A node whose fetch gives nothing is skipped and the loop
    goes on with its siblings. *)
Theorem failed_node_is_skipped (U : gset string) (base root : string)
    (s : Net) (fuel : nat) :
  closed base U -> root ∈ U -> (size U < fuel)%nat ->
  (exists entries visited w,
      fetch_and_parse_sitemap net gzip_decompress is_sitemap_index
        parse_sitemap_index parse_sitemap fuel root base s
      = Some (entries, visited, w) /\
      entries = flat_map contribution (fetch_log w) /\
      replay (fetch_log w).*1 s = (fetch_log w, net_st w) /\
      NoDup (fetch_log w).*1 /\
      visited = list_to_set (fetch_log w).*1 /\
      (exists rest, (fetch_log w).*1 = root :: rest) /\
      (forall f c, f ∈ fetch_log w -> c ∈ references base f -> c ∈ visited) /\
      (forall i f, fetch_log w !! i = Some f ->
         f.1 = root \/
         exists j g, (j < i)%nat /\ fetch_log w !! j = Some g /\
                     f.1 ∈ references base g)) /\
  (forall u content, falsy content = true -> contribution (u, content) = []) /\
  (forall n u rest w0,
      u ∉ processed_sitemaps w0 ->
      falsy (fetch_sitemap u (net_st w0)).1 = true ->
      for_each (process_sitemap (S n) base) (u :: rest) w0
      = for_each (process_sitemap (S n) base) rest
          (fetched u (fetch_sitemap u (net_st w0)) (mark u w0)) /\
      all_urls (fetched u (fetch_sitemap u (net_st w0)) (mark u w0)) = all_urls w0).
Proof.
  intros HU Hr Hf. split; [|split].
  - destruct fuel as [|n]; [lia|].
    destruct (process_sitemap_continues U base HU n root (init_walk s) Hr)
      as (w & new & E & (L & P & N & _ & A & _) & _).
    + etransitivity; [apply subseteq_size|]; [|apply Nat.lt_succ_r, Hf]. set_solver.
    + simpl in L, P, A. subst new.
      assert (fetch_and_parse_sitemap net gzip_decompress is_sitemap_index
                parse_sitemap_index parse_sitemap (S n) root base s
              = Some (all_urls w, processed_sitemaps w, w)) as EW
        by (unfold fetch_and_parse_sitemap; rewrite E; reflexivity).
      destruct (returned_walk_explores _ _ _ _ _ _ _ EW) as (R & H0 & C & H).
      exists (all_urls w), (processed_sitemaps w), w.
      split; [exact EW|]. split; [exact A|]. split; [exact R|]. split; [exact N|].
      split; [rewrite P; set_solver|]. split; [exact H0|]. split; [exact C|exact H].
  - intros u [[|b c]|] F; try reflexivity. discriminate.
  - intros n u rest w0 Hn F. split; [|reflexivity].
    rewrite for_each_cons, process_sitemap_failed by assumption. reflexivity.
Qed.

(** C9. When the response is flagged as gzip, by its content type or
    by a URL that ends in [.gz], what [fetch_sitemap] hands on is the
    decompressed body, and the walk classifies and parses that. When
    decompression fails the node is marked and logged, adds no entry,
    and the call returns normally. *)
Theorem gzip_is_decompressed_before_parsing (n : nat) (base u : string)
    (w : Walk) (r : Response) (s' : Net) :
  u ∉ processed_sitemaps w ->
  make_request net u (net_st w) = (Returned r, s') ->
  endswith u ".gz" = true \/ content_type r = Some "application/x-gzip"%string ->
  let w2 := fetched u (gzip_decompress (content r), s') (mark u w) in
  fetch_sitemap u (net_st w) = (gzip_decompress (content r), s') /\
  (gzip_decompress (content r) = None ->
     process_sitemap (S n) base u w = Some w2 /\ all_urls w2 = all_urls w) /\
  (forall b c, gzip_decompress (content r) = Some (b :: c) ->
     process_sitemap (S n) base u w
     = if is_sitemap_index (b :: c)
       then for_each (process_sitemap n base) (parse_sitemap_index (b :: c) base) w2
       else Some (extend (parse_sitemap (b :: c)) w2)).
Proof.
  intros Hn Hreq Hgz w2.
  assert (fetch_sitemap u (net_st w) = (gzip_decompress (content r), s')) as F.
  { unfold Parser.fetch_sitemap. rewrite Hreq.
    assert (is_gzipped r u = true) as ->; [|reflexivity].
    unfold is_gzipped. destruct Hgz as [H|H].
    - rewrite H. apply orb_true_r.
    - rewrite bool_decide_true by exact H. reflexivity. }
  split; [exact F|]. split.
  - intros Hz. split; [|reflexivity].
    rewrite process_sitemap_failed; [rewrite F; reflexivity|exact Hn|].
    rewrite F. simpl. rewrite Hz. reflexivity.
  - intros b c Hz. rewrite process_sitemap_eq, decide_False by exact Hn.
    simpl. rewrite F. simpl. rewrite Hz. unfold w2. rewrite Hz. reflexivity.
Qed.

(** C10. On such a walk the set returned is exactly the set of URLs
    that [fetch_sitemap] was called for, whatever the call returned,
    and its size is the number of calls. A URL is in the set from the
    moment its fetch is made: when the fetch gives nothing the URL
    stays processed, and a later reference to a processed URL returns
    at once without a fetch. *)
Theorem failed_nodes_count_as_processed (U : gset string) (base root : string)
    (s : Net) (fuel : nat) :
  closed base U -> root ∈ U -> (size U < fuel)%nat ->
  (exists entries visited w,
      fetch_and_parse_sitemap net gzip_decompress is_sitemap_index
        parse_sitemap_index parse_sitemap fuel root base s
      = Some (entries, visited, w) /\
      visited = list_to_set (fetch_log w).*1 /\
      NoDup (fetch_log w).*1 /\
      size visited = length (fetch_log w) /\
      root ∈ visited) /\
  (forall n u w0,
      u ∈ processed_sitemaps w0 -> process_sitemap (S n) base u w0 = Some w0) /\
  (forall n u w0,
      u ∉ processed_sitemaps w0 ->
      falsy (fetch_sitemap u (net_st w0)).1 = true ->
      exists w1,
        process_sitemap (S n) base u w0 = Some w1 /\
        processed_sitemaps w1 = {[u]} ∪ processed_sitemaps w0 /\
        fetch_log w1 = fetch_log w0 ++ [(u, (fetch_sitemap u (net_st w0)).1)] /\
        forall m, process_sitemap (S m) base u w1 = Some w1).
Proof.
  intros HU Hr Hf. split; [|split].
  - destruct fuel as [|n]; [lia|].
    destruct (process_sitemap_continues U base HU n root (init_walk s) Hr)
      as (w & new & E & (L & P & N & _) & Hin).
    + etransitivity; [apply subseteq_size|]; [|apply Nat.lt_succ_r, Hf]. set_solver.
    + simpl in L, P. subst new.
      exists (all_urls w), (processed_sitemaps w), w.
      unfold fetch_and_parse_sitemap. rewrite E. simpl.
      assert (processed_sitemaps w = list_to_set (fetch_log w).*1) as P'
        by (rewrite P; set_solver).
      repeat split; [exact P'|exact N| |exact Hin].
      rewrite P', size_list_to_set by exact N. apply length_fmap.
  - intros n u w0. apply process_sitemap_again.
  - intros n u w0 Hn F.
    exists (fetched u (fetch_sitemap u (net_st w0)) (mark u w0)).
    split; [apply process_sitemap_failed; assumption|].
    split; [reflexivity|]. split; [reflexivity|].
    intros m. apply process_sitemap_again. simpl. set_solver.
Qed.

End Walk.

(** ** The example site *)

Import Examples.

Example endswith_gz : endswith gz_url ".gz" = true /\ endswith leaf_url ".gz" = false
                      /\ endswith "gz" ".gz" = false.
Proof. repeat split. Qed.

Lemma site_closed : closed site_net gunzip is_index index_children base site_urls.
Proof.
  intros s u c _ _ _ Hidx child Hc. unfold index_children in Hc. rewrite Hidx in Hc.
  unfold site_urls. set_unfold. naive_solver.
Qed.

Lemma site_root : root_url ∈ site_urls.
Proof. unfold site_urls. set_solver. Qed.

Lemma site_size : (size site_urls < 5)%nat.
Proof. apply Nat.ltb_lt. vm_compute. reflexivity. Qed.

(** The walk over the example site: the index is fetched once although
    it lists itself, the leaf once although it is listed twice; the
    corrupt and the missing child add nothing and are counted. *)
Example site_walk :
  (fun r => (r.1.1, size r.1.2, fetch_log r.2, net_st r.2))
    <$> fetch_and_parse_sitemap site_net gunzip is_index index_children leaf_entries
          5 root_url base net0
  = Some ([entry_a; entry_b], 4%nat,
          [(root_url, Some index_doc); (leaf_url, Some leaf_doc);
           (gz_url, None); (gone_url, None)],
          {| n_req := 6; waits := [2; 2] |}).
Proof. vm_compute. reflexivity. Qed.

Lemma walk_terminates_witness :
  exists entries visited w,
    fetch_and_parse_sitemap site_net gunzip is_index index_children leaf_entries
      5 root_url base net0
    = Some (entries, visited, w) /\
    NoDup (fetch_log w).*1 /\
    (forall u, u ∈ (fetch_log w).*1 -> u ∈ site_urls) /\
    (length (fetch_log w) <= size site_urls)%nat /\
    (n_req (net_st w) <= n_req net0 + 3 * size site_urls)%nat /\
    (forall fuel', (5 <= fuel')%nat ->
       fetch_and_parse_sitemap site_net gunzip is_index index_children leaf_entries
         fuel' root_url base net0
       = Some (entries, visited, w)).
Proof.
  exact (walk_terminates site_net gunzip is_index index_children leaf_entries
           site_urls base root_url net0 5 site_closed site_root site_size).
Defined.

Lemma failed_node_is_skipped_witness :
  exists entries visited w,
    fetch_and_parse_sitemap site_net gunzip is_index index_children leaf_entries
      5 root_url base net0
    = Some (entries, visited, w) /\
    entries = flat_map (contribution is_index leaf_entries) (fetch_log w) /\
    replay site_net gunzip (fetch_log w).*1 net0 = (fetch_log w, net_st w) /\
    NoDup (fetch_log w).*1 /\
    visited = list_to_set (fetch_log w).*1 /\
    (exists rest, (fetch_log w).*1 = root_url :: rest) /\
    (forall f c, f ∈ fetch_log w -> c ∈ references is_index index_children base f ->
                 c ∈ visited) /\
    (forall i f, fetch_log w !! i = Some f ->
       f.1 = root_url \/
       exists j g, (j < i)%nat /\ fetch_log w !! j = Some g /\
                   f.1 ∈ references is_index index_children base g).
Proof.
  exact (proj1 (failed_node_is_skipped site_net gunzip is_index index_children leaf_entries
                  site_urls base root_url net0 5 site_closed site_root site_size)).
Defined.

Lemma failed_nodes_count_as_processed_witness :
  exists entries visited w,
    fetch_and_parse_sitemap site_net gunzip is_index index_children leaf_entries
      5 root_url base net0
    = Some (entries, visited, w) /\
    visited = list_to_set (fetch_log w).*1 /\
    NoDup (fetch_log w).*1 /\
    size visited = length (fetch_log w) /\
    root_url ∈ visited.
Proof.
  exact (proj1 (failed_nodes_count_as_processed site_net gunzip is_index index_children
                  leaf_entries site_urls base root_url net0 5
                  site_closed site_root site_size)).
Defined.

Lemma gz_unprocessed : gz_url ∉ processed_sitemaps (init_walk net0).
Proof. simpl. set_solver. Qed.

Lemma gzip_is_decompressed_before_parsing_witness :
  process_sitemap site_net gunzip is_index index_children leaf_entries 1 base gz_url
    (init_walk net0)
  = Some (fetched gz_url (None, {| n_req := 1; waits := [] |})
            (mark gz_url (init_walk net0))).
Proof.
  refine (proj1 (proj1 (proj2 (gzip_is_decompressed_before_parsing
            site_net gunzip is_index index_children leaf_entries 0 base gz_url (init_walk net0)
            {| status_code := 200; content_type := Some "text/xml"%string;
               content := corrupt_doc |}
            {| n_req := 1; waits := [] |} gz_unprocessed _ _)) _)).
  - reflexivity.
  - left. reflexivity.
  - reflexivity.
Defined.

End ParserFacts.


(* ===================================================================== *)
(** * Properties of the crawl cycle *)
(* ===================================================================== *)

Module CrawlerFacts.

Import Http Database Crawler Invariants.

Lemma bind_Ret_inv {A B} (m : M A) (f : A -> M B) (w w' : World) (b : B) :
  bind m f w = Some (Ret b, w') ->
  exists a w1, m w = Some (Ret a, w1) /\ f a w1 = Some (Ret b, w').
Proof.
  unfold bind. destruct (m w) as [[[a|e] w1]|]; try discriminate. eauto.
Qed.

Lemma frame_refl (w : World) : frame w w.
Proof. unfold frame. repeat split; lia. Qed.

Lemma frame_trans (w1 w2 w3 : World) : frame w1 w2 -> frame w2 w3 -> frame w1 w3.
Proof.
  unfold frame. intros (D1 & N1 & O1 & T1 & C1) (D2 & N2 & O2 & T2 & C2).
  repeat split; try congruence; lia.
Qed.

Lemma inserted_app (a b : list Op) : inserted (a ++ b) = inserted a ++ inserted b.
Proof. apply omap_app. Qed.

Lemma touched_app (a b : list Op) : touched (a ++ b) = touched a ++ touched b.
Proof. apply omap_app. Qed.

(** ** Rows of the page table *)

Lemma is_page_spec (s : Z) (u : string) (p : DiscoveredPage) :
  is_page s u p = true <-> monitored_site_id p = s /\ url p = u.
Proof.
  unfold is_page. rewrite andb_true_iff, !bool_decide_eq_true. tauto.
Qed.

Lemma find_is_Some {A} (f : A -> bool) (l : list A) :
  is_Some (find f l) <-> exists x, x ∈ l /\ f x = true.
Proof.
  induction l as [|a l IH]; simpl.
  - split; [intros [x Hx]; discriminate|intros (x & Hx & _); inversion Hx].
  - destruct (f a) eqn:E.
    + split; [intros _; exists a; split; [left|exact E]|intros _; eauto].
    + rewrite IH. split.
      * intros (x & Hx & Hf). exists x. split; [right; exact Hx|exact Hf].
      * intros (x & Hx & Hf). apply elem_of_cons in Hx as [->|Hx]; [congruence|eauto].
Qed.

Lemma find_app_Some {A} (f : A -> bool) (l l' : list A) :
  is_Some (find f l) -> find f (l ++ l') = find f l.
Proof.
  induction l as [|a l IH]; simpl; [intros [x Hx]; discriminate|].
  destruct (f a); [reflexivity|exact IH].
Qed.

Lemma find_touch_first (s : Z) (u : string) (t : instant) (s' : Z) (u' : string)
    (ps : list DiscoveredPage) :
  find (is_page s' u') (touch_first s u t ps)
  = if decide (s' = s /\ u' = u)
    then touch t <$> find (is_page s u) ps
    else find (is_page s' u') ps.
Proof.
  induction ps as [|p ps IH]; simpl; [destruct (decide _); reflexivity|].
  destruct (is_page s u p) eqn:E; simpl.
  - change (is_page s' u' (touch t p)) with (is_page s' u' p).
    destruct (decide (s' = s /\ u' = u)) as [[-> ->]|Hne].
    + rewrite E. reflexivity.
    + destruct (is_page s' u' p) eqn:E'; [|reflexivity].
      apply is_page_spec in E as [<- <-]. apply is_page_spec in E' as [<- <-].
      exfalso. apply Hne. split; reflexivity.
  - rewrite IH. destruct (decide (s' = s /\ u' = u)) as [[-> ->]|Hne].
    + rewrite E. reflexivity.
    + reflexivity.
Qed.

Lemma touch_first_urls (s : Z) (u : string) (t : instant) (ps : list DiscoveredPage) :
  url <$> touch_first s u t ps = url <$> ps.
Proof.
  induction ps as [|p ps IH]; [reflexivity|]. simpl.
  destruct (is_page s u p); rewrite !fmap_cons; [reflexivity|].
  rewrite IH. reflexivity.
Qed.

Lemma apply_op_rows (d d' : DB) (o : Op) (s : Z) (u : string) :
  apply_op d o = Some d' -> has_row s u d -> has_row s u d'.
Proof.
  unfold has_row. destruct o as [p|s0 u0 t|s0 t|l]; simpl.
  - destruct (existsb _ _); [discriminate|]. intros [= <-] H. simpl.
    rewrite find_app_Some by exact H. exact H.
  - intros [= <-] H. simpl. rewrite find_touch_first.
    destruct (decide _) as [[-> ->]|_]; [|exact H].
    destruct H as [p ->]. simpl. eauto.
  - intros [= <-] H. exact H.
  - intros [= <-] H. exact H.
Qed.

Lemma flush_rows (ops : list Op) :
  forall (d d' : DB) (s : Z) (u : string),
    flush ops d = Some d' -> has_row s u d -> has_row s u d'.
Proof.
  induction ops as [|o ops IH]; intros d d' s u; simpl.
  - intros [= <-] H. exact H.
  - destruct (apply_op d o) as [d1|] eqn:E; simpl; [|discriminate].
    intros Hf H. eapply IH; [exact Hf|]. eapply apply_op_rows; eassumption.
Qed.

Lemma flush_inserted_rows (ops : list Op) :
  forall (d d' : DB) (p : DiscoveredPage),
    flush ops d = Some d' -> p ∈ inserted ops ->
    has_row (monitored_site_id p) (url p) d'.
Proof.
  induction ops as [|o ops IH]; intros d d' p; simpl.
  - intros _ H. inversion H.
  - destruct (apply_op d o) as [d1|] eqn:E; simpl; [|discriminate].
    intros Hf H.
    assert (p ∈ inserted ops \/ o = InsertPage p) as [Hin | ->].
    { unfold inserted in H. simpl in H. destruct o; simpl in H; auto.
      apply elem_of_cons in H as [->|H]; auto. }
    + eapply IH; eassumption.
    + eapply flush_rows; [exact Hf|]. unfold has_row. simpl in E.
      destruct (existsb _ _); [discriminate|]. injection E as <-. simpl.
      apply find_is_Some. exists p. split.
      * apply elem_of_app. right. left.
      * apply is_page_spec. split; reflexivity.
Qed.

(** The keys of the map built by [get_existing_urls] are the URLs that
    have a row for the site. *)
Lemma existing_urls_dom (s : Z) (ps : list DiscoveredPage) (u : string) :
  u ∈ dom (foldl (fun result page => <[url page := last_seen_at page]> result)
                 (∅ : gmap string instant)
                 (filter (fun page => monitored_site_id page = s) ps))
  <-> is_Some (find (is_page s u) ps).
Proof.
  assert (forall (l : list DiscoveredPage) (m : gmap string instant),
            u ∈ dom (foldl (fun result page => <[url page := last_seen_at page]> result) m l)
            <-> u ∈ dom m \/ exists p, p ∈ l /\ url p = u) as G.
  { induction l as [|p l IH]; intros m; simpl.
    - split; [auto|intros [H|(p & Hp & _)]; [exact H|inversion Hp]].
    - rewrite IH, dom_insert, elem_of_union, elem_of_singleton. split.
      + intros [[->|H]|(q & Hq & Hu)]; eauto.
        * right. exists p. split; [left|reflexivity].
        * right. exists q. split; [right; exact Hq|exact Hu].
      + intros [H|(q & Hq & Hu)]; [auto|].
        apply elem_of_cons in Hq as [->|Hq]; eauto. }
  rewrite G, find_is_Some. split.
  - intros [H|(p & Hp & Hu)]; [set_solver|].
    apply list_elem_of_filter in Hp as [Hs Hp]. exists p. split; [exact Hp|].
    apply is_page_spec. split; assumption.
  - intros (p & Hp & Hf). apply is_page_spec in Hf as [Hs Hu]. right.
    exists p. split; [|exact Hu]. apply list_elem_of_filter. split; assumption.
Qed.

Section Cycle.

Variable clock : nat -> instant.
Variable db_fault : nat -> option string.
Variable in_flush : nat -> bool.
Variable deliver : nat -> bool.
Variable net : nat -> string -> Wire.
Variable gzip_decompress : bytes -> option bytes.
Variable is_sitemap_index : bytes -> bool.
Variable parse_sitemap_index : bytes -> string -> list string.
Variable parse_sitemap : bytes -> list Parser.Entry.
Variable github_run_id : option string.
Variable fuel : nat.

Local Abbreviation diff_entry := (diff_entry clock db_fault).
Local Abbreviation diff_loop := (diff_loop clock db_fault).
Local Abbreviation step_of := (step_of clock).

Variable site : MonitoredSite.
Variable existing_urls : gmap string instant.

Lemma step_of_weaken (d : DB) (lo lo' hi hi' : nat) e os :
  (lo' <= lo)%nat -> (hi <= hi')%nat ->
  step_of site existing_urls d lo hi e os -> step_of site existing_urls d lo' hi' e os.
Proof.
  intros Hlo Hhi. unfold Crawler.step_of. destruct (decide _).
  - destruct (find _ _); [|auto].
    intros (k & Hk & ->). exists k. split; [lia|reflexivity].
  - intros (k & Hk1 & Hk2 & ->). exists k. repeat split; lia.
Qed.

(** One turn of the loop: what it leaves pending, or the query for a
    known URL failed. A known URL costs one database call, a new one
    none. *)
Lemma diff_entry_cases (acc : list Op * list DiscoveredPage) (e : Parser.Entry)
    (w : World) :
  (exists os w',
      diff_entry site existing_urls acc e w
      = Some (Ret (acc.1 ++ os, acc.2 ++ inserted os), w') /\
      step_of site existing_urls (db w) (ticks w) (ticks w') e os /\
      frame w w' /\
      db_ops w' = if decide (Parser.url e ∈ dom existing_urls)
                  then S (db_ops w) else db_ops w) \/
  (exists msg w',
      diff_entry site existing_urls acc e w = Some (Raise (OperationalError msg), w') /\
      db_fault (db_ops w) = Some msg).
Proof.
  unfold Crawler.diff_entry, Crawler.step_of.
  destruct (decide (Parser.url e ∈ dom existing_urls)) as [Hin|Hnot].
  - unfold bind, query. destruct (db_fault (db_ops w)) as [msg|] eqn:Ef.
    + right. eauto.
    + left. destruct (find _ _) as [p|]; simpl.
      * exists [TouchPage (id site) (Parser.url e) (clock (ticks w))],
               (ticked (called_db w)).
        split; [simpl; rewrite app_nil_r; reflexivity|]. simpl. split; [|split].
        -- exists (ticks w). split; [lia|reflexivity].
        -- unfold frame. simpl. repeat split; lia.
        -- reflexivity.
      * exists [], (called_db w). destruct acc as [a1 a2]. simpl.
        rewrite !app_nil_r. split; [reflexivity|]. split; [reflexivity|].
        split; [|reflexivity]. unfold frame. simpl. repeat split; lia.
  - left. simpl.
    exists [InsertPage (new_page site (Parser.url e) (clock (ticks w))
                          (clock (S (ticks w))))],
           (ticked (ticked w)).
    split; [reflexivity|]. simpl. split; [|split].
    + exists (ticks w). repeat split; lia.
    + unfold frame. simpl. repeat split; lia.
    + reflexivity.
Qed.

Lemma for_loop_cons {A B} (body : B -> A -> M B) x xs acc :
  for_loop body (x :: xs) acc = bind (body acc x) (for_loop body xs).
Proof. reflexivity. Qed.

(** The loop: what each entry leaves pending, in order, or a query
    failed. *)
Lemma diff_loop_cases (entries : list Parser.Entry) :
  forall (acc : list Op * list DiscoveredPage) (w : World),
    (exists oss w',
        for_loop (diff_entry site existing_urls) entries acc w
        = Some (Ret (acc.1 ++ concat oss, acc.2 ++ inserted (concat oss)), w') /\
        Forall2 (step_of site existing_urls (db w) (ticks w) (ticks w')) entries oss /\
        frame w w' /\
        db_ops w'
        = (db_ops w
           + length (filter (fun e => Parser.url e ∈ dom existing_urls) entries))%nat) \/
    (exists msg w' k,
        for_loop (diff_entry site existing_urls) entries acc w
        = Some (Raise (OperationalError msg), w') /\
        (db_ops w <= k)%nat /\ db_fault k = Some msg).
Proof.
  induction entries as [|e entries IH]; intros acc w.
  - left. exists [], w. simpl. rewrite !app_nil_r. destruct acc.
    split; [reflexivity|]. split; [constructor|]. split; [apply frame_refl|].
    simpl. lia.
  - rewrite for_loop_cons. unfold bind.
    destruct (diff_entry_cases acc e w)
      as [(os & w1 & E1 & S1 & F1 & C1)|(msg & w1 & E1 & Hf)].
    + rewrite E1.
      destruct (IH (acc.1 ++ os, acc.2 ++ inserted os) w1)
        as [(oss & w2 & E2 & S2 & F2 & C2)|(msg & w2 & k & E2 & Hk & Hf)].
      * left. exists (os :: oss), w2. split.
        { rewrite E2. cbn [fst snd concat].
          rewrite inserted_app, !app_assoc. reflexivity. }
        pose proof F1 as (D1 & _ & _ & T1 & _).
        pose proof F2 as (_ & _ & _ & T2 & _).
        split; [|split].
        -- constructor.
           ++ eapply step_of_weaken; [| |exact S1]; lia.
           ++ rewrite D1 in S2. eapply Forall2_impl; [exact S2|].
              intros e' o' H'. eapply step_of_weaken; [| |exact H']; lia.
        -- eapply frame_trans; eassumption.
        -- rewrite C2, C1, filter_cons.
           destruct (decide (Parser.url e ∈ dom existing_urls)); simpl; lia.
      * right. exists msg, w2, k. split; [exact E2|]. split; [|exact Hf].
        destruct F1 as (_ & _ & _ & _ & C1'). lia.
    + right. rewrite E1. exists msg, w1, (db_ops w). repeat split; [lia|exact Hf].
Qed.

Lemma step_of_inserted (d : DB) (lo hi : nat) (entries : list Parser.Entry)
    (oss : list (list Op)) :
  Forall2 (step_of site existing_urls d lo hi) entries oss ->
  Forall2 (fun e p => exists k, (lo <= k)%nat /\ (S k < hi)%nat /\
                      p = new_page site (Parser.url e) (clock k) (clock (S k)))
          (filter (fun e => Parser.url e ∉ dom existing_urls) entries)
          (inserted (concat oss)).
Proof using clock site existing_urls.
  induction 1 as [|e os entries oss H _ IH]; [constructor|].
  unfold Crawler.step_of in H. rewrite filter_cons.
  cbn [concat]. rewrite inserted_app.
  destruct (decide (Parser.url e ∈ dom existing_urls)) as [Hin|Hnot].
  - rewrite decide_False by (intros Hn; exact (Hn Hin)).
    destruct (find _ _); [destruct H as (k & _ & ->)|subst os]; exact IH.
  - destruct H as (k & Hk1 & Hk2 & ->). rewrite decide_True by exact Hnot.
    constructor; [|exact IH]. eauto.
Qed.

Lemma step_of_touched (d : DB) (lo hi : nat) (entries : list Parser.Entry)
    (oss : list (list Op)) :
  (forall e, e ∈ entries -> Parser.url e ∈ dom existing_urls ->
             has_row (id site) (Parser.url e) d) ->
  Forall2 (step_of site existing_urls d lo hi) entries oss ->
  touched (concat oss)
  = Parser.url <$> filter (fun e => Parser.url e ∈ dom existing_urls) entries.
Proof using clock site existing_urls.
  intros Hrows H. induction H as [|e os entries oss H _ IH]; [reflexivity|].
  unfold Crawler.step_of in H. rewrite filter_cons.
  cbn [concat]. rewrite touched_app, IH
    by (intros e' He'; apply Hrows; right; exact He').
  destruct (decide (Parser.url e ∈ dom existing_urls)) as [Hin|Hnot].
  - destruct (Hrows e (list_elem_of_here _ _) Hin) as [p Hp]. rewrite Hp in H.
    destruct H as (k & _ & ->). reflexivity.
  - destruct H as (k & _ & _ & ->). reflexivity.
Qed.

Lemma new_pages_urls (lo hi : nat) (entries : list Parser.Entry)
    (ps : list DiscoveredPage) :
  Forall2 (fun e p => exists k, (lo <= k)%nat /\ (S k < hi)%nat /\
                      p = new_page site (Parser.url e) (clock k) (clock (S k)))
          entries ps ->
  url <$> ps = Parser.url <$> entries.
Proof.
  induction 1 as [|e p entries ps (k & _ & _ & ->) _ IH]; [reflexivity|].
  rewrite !fmap_cons, IH. reflexivity.
Qed.

(** C1. The loop over the sitemap entries treats an entry as new
    exactly when its URL is not a key of the existing map, and as
    reseen exactly when it is. The new pages are, in order, those of
    the entries that are not keys. For each entry that is a key, and
    for no other, the row is looked up (one database call) and, the
    rows being there, refreshed. No entry is in both classes and every
    entry is in one of them. Keys are compared as strings. *)
Theorem diff_partitions_entries (entries : list Parser.Entry)
    (session : list Op) (w : World) :
  (forall k, (db_ops w <= k)%nat -> db_fault k = None) ->
  let new := filter (fun e => Parser.url e ∉ dom existing_urls) entries in
  let reseen := filter (fun e => Parser.url e ∈ dom existing_urls) entries in
  exists ops new_pages w',
    diff_loop site existing_urls entries session w
    = Some (Ret (session ++ ops, new_pages), w') /\
    new_pages = inserted ops /\
    url <$> new_pages = Parser.url <$> new /\
    db_ops w' = (db_ops w + length reseen)%nat /\
    ((forall e, e ∈ entries -> Parser.url e ∈ dom existing_urls ->
                has_row (id site) (Parser.url e) (db w)) ->
     touched ops = Parser.url <$> reseen) /\
    (forall e, e ∈ new -> e ∉ reseen) /\
    (forall e, e ∈ entries <-> e ∈ new \/ e ∈ reseen) /\
    reseen ++ new ≡ₚ entries.
Proof using clock db_fault site existing_urls.
  intros Hok new reseen.
  destruct (diff_loop_cases entries (session, []) w)
    as [(oss & w' & E & St & F & C)|(msg & w' & k & _ & Hk & Hf)].
  - exists (concat oss), (inserted (concat oss)), w'.
    split; [exact E|]. split; [reflexivity|].
    split; [|split; [|split; [|split; [|split]]]].
    + eapply new_pages_urls, step_of_inserted, St.
    + exact C.
    + intros Hrows. eapply step_of_touched; [exact Hrows|exact St].
    + intros e H1 H2. apply list_elem_of_filter in H1 as [H1 _].
      apply list_elem_of_filter in H2 as [H2 _]. contradiction.
    + intros e. unfold new, reseen. rewrite !list_elem_of_filter.
      destruct (decide (Parser.url e ∈ dom existing_urls)) as [Hd|Hd]; split;
        try (intros [[? ?]|[? ?]]; assumption);
        intros He; [right|left]; split; assumption.
    + apply filter_app_complement.
  - rewrite Hok in Hf by exact Hk. discriminate.
Qed.

(** C7, as the code has it. For every entry whose URL is not a key of
    the existing map the loop creates a page for that URL and site
    with no title and the processed flag at 0; its first-discovered
    and last-seen times are two successive readings of the clock,
    taken when the entry is handled. With a clock that does not go
    back they are not before any earlier reading, such as the start
    time of the cycle. *)
Theorem new_pages_take_the_current_time (entries : list Parser.Entry)
    (session : list Op) (w : World) :
  (forall k, (db_ops w <= k)%nat -> db_fault k = None) ->
  exists ops new_pages w',
    diff_loop site existing_urls entries session w
    = Some (Ret (session ++ ops, new_pages), w') /\
    new_pages = inserted ops /\
    Forall2 (fun e p =>
               monitored_site_id p = id site /\
               url p = Parser.url e /\
               page_title p = None /\
               is_processed p = 0 /\
               exists k, (ticks w <= k)%nat /\ (S k < ticks w')%nat /\
                 first_discovered_at p = clock k /\
                 last_seen_at p = clock (S k) /\
                 ((forall i j, (i <= j)%nat -> clock i <= clock j) ->
                  forall t0, (t0 <= ticks w)%nat ->
                    clock t0 <= first_discovered_at p <= last_seen_at p))
            (filter (fun e => Parser.url e ∉ dom existing_urls) entries)
            new_pages.
Proof using clock db_fault site existing_urls.
  intros Hok.
  destruct (diff_loop_cases entries (session, []) w)
    as [(oss & w' & E & St & F & _)|(msg & w' & k & _ & Hk & Hf)].
  - exists (concat oss), (inserted (concat oss)), w'.
    split; [exact E|]. split; [reflexivity|].
    eapply Forall2_impl; [eapply step_of_inserted, St|].
    intros e p (k & Hk1 & Hk2 & ->). simpl.
    do 4 (split; [reflexivity|]).
    exists k. split; [exact Hk1|]. split; [exact Hk2|].
    do 2 (split; [reflexivity|]).
    intros Hmono t0 Ht0. split.
    + etransitivity; [apply Hmono; exact Ht0|]. apply Hmono. exact Hk1.
    + apply Hmono. lia.
  - rewrite Hok in Hf by exact Hk. discriminate.
Qed.

Local Abbreviation commit_step := (commit_step clock db_fault).
Local Abbreviation diffing :=
  (diffing clock db_fault net gzip_decompress is_sitemap_index parse_sitemap_index
     parse_sitemap fuel).
Local Abbreviation record_failure := (record_failure clock db_fault deliver github_run_id).
Local Abbreviation finish := (finish clock db_fault in_flush deliver github_run_id).
Local Abbreviation on_exception := (on_exception clock db_fault deliver github_run_id).
Local Abbreviation read_site := (read_site db_fault).
Local Abbreviation cycle :=
  (cycle clock db_fault in_flush deliver net gzip_decompress is_sitemap_index
     parse_sitemap_index parse_sitemap github_run_id fuel).
Local Abbreviation process_site :=
  (process_site clock db_fault in_flush deliver net gzip_decompress is_sitemap_index
     parse_sitemap_index parse_sitemap github_run_id fuel).

(** C3, as the code has it. The commit step is two transactions. The
    first holds the new rows and the last-seen refreshes: it applies
    all of them or, when it fails, none, and then the last-crawled time
    is not written either. The last-crawled time is written by a
    second commit, after the first: when that one fails the rows and
    refreshes stay committed. *)
Theorem commit_step_outcomes (session : list Op) (w : World) :
  let k := db_ops w in
  (forall msg, db_fault k = Some msg ->
     exists w', commit_step session site w = Some (Raise (OperationalError msg), w') /\
                db w' = db w) /\
  (db_fault k = None -> flush session (db w) = None ->
     exists e w', commit_step session site w = Some (Raise e, w') /\ db w' = db w) /\
  (forall d1, db_fault k = None -> flush session (db w) = Some d1 ->
     (forall msg, db_fault (S k) = Some msg ->
        exists w', commit_step session site w = Some (Raise (OperationalError msg), w') /\
                   db w' = d1) /\
     (db_fault (S k) = None ->
        exists w', commit_step session site w = Some (Ret [], w') /\
                   db w' = site_crawled (id site) (clock (ticks w)) d1)).
Proof.
  intros k. unfold Crawler.commit_step, Crawler.update_site_last_crawled,
    bind, commit, utc_now. fold k. split; [|split].
  - intros msg ->. eauto.
  - intros -> ->. eauto.
  - intros d1 -> ->. simpl. fold k. split.
    + intros msg ->. eauto.
    + intros ->. simpl. eauto.
Qed.

(** [process_site], stage by stage: an exception of the stretch
    before the first commit finds the site as the caller loaded it,
    and the [except] branch is then the block that records the
    failure; an exception of the rest finds the session as that rest
    left it. *)
Lemma process_site_eq (session : list Op) (w : World) :
  process_site session site w
  = match diffing session site (ticked w) with
    | None => None
    | Some (Raise e, w1) => record_failure site (clock (ticks w)) e w1
    | Some (Ret (pending, new_pages), w1) =>
        match finish pending site (clock (ticks w)) new_pages
                {| world := w1; session_state := new_session |} with
        | None => None
        | Some (Ret a, r2) => Some (Ret a, world r2)
        | Some (Raise e, r2) =>
            match on_exception site (clock (ticks w)) e r2 with
            | None => None
            | Some (res, r3) => Some (res, world r3)
            end
        end
    end.
Proof.
  unfold Crawler.process_site, bind at 1, lift at 1, utc_now, try_except,
    Crawler.cycle, bind at 1, on_session, lift at 1. simpl.
  destruct (diffing session site (ticked w)) as [[[[pending new_pages]|e] w1]|];
    [| |reflexivity].
  - destruct (finish pending site (clock (ticks w)) new_pages _) as [[[a|e] r2]|];
      reflexivity.
  - unfold Crawler.on_exception, bind, read_site, lift. simpl.
    destruct (record_failure site (clock (ticks w)) e w1) as [[res w2]|]; reflexivity.
Qed.

(** The block that records a failure makes one database call, the
    commit of the history record. *)
Lemma record_failure_cases (start : instant) (e : Exn) (w : World) :
  match db_fault (db_ops w) with
  | Some msg =>
      record_failure site start e w
      = Some (Raise (OperationalError msg), called_db (ticked w))
  | None =>
      exists w',
        record_failure site start e w = Some (Ret (false, failed_message e, 0%nat), w') /\
        db w' = logged (failed_log github_run_id site start e (clock (ticks w))) (db w) /\
        outbox w' = outbox w ++ error_notes site e /\
        net_w w' = net_w w
  end.
Proof.
  unfold Crawler.record_failure, Crawler.create_crawl_log, bind, commit, utc_now,
    notify, ret, Invariants.error_notes. simpl.
  destruct (db_fault (db_ops w)); [reflexivity|]. simpl.
  destruct (bool_decide (is_notification_enabled site <> 0)); simpl;
    eexists; (split; [reflexivity|]); simpl; rewrite ?app_nil_r; repeat split.
Qed.

(** C6, as the code has it. An exception raised in the [try] block
    reaches the [except] branch, which first reads the site: the site
    is still loaded, or it is expired and is loaded again. When that
    read gives the site, the branch writes the history: if the write
    succeeds, a record with status "failed" and the error text is
    committed, an error notification is attempted when the site has
    notifications enabled, whatever becomes of its delivery, and the
    failure outcome is returned; if the write itself fails, its
    exception leaves [process_site], nothing is recorded and no
    notification is attempted. (A session that a failed commit has
    left waiting for a rollback refuses the read; nothing is said of
    that case here.) *)
Theorem failure_is_logged_and_notified (session : list Op) (w0 : World) (e : Exn)
    (r1 r2 : Run) :
  let self_start_time := clock (ticks w0) in
  cycle session site self_start_time
    {| world := ticked w0; session_state := new_session |}
  = Some (Raise e, r1) ->
  read_site r1 = Some (Ret tt, r2) ->
  let w := world r2 in
  let k := db_ops w in
  let log := failed_log github_run_id site self_start_time e (clock (ticks w)) in
  let notes := if bool_decide (is_notification_enabled site <> 0)
               then [ErrorNote (id site) (str e)] else [] in
  (db_fault k = None ->
     exists w', process_site session site w0
                = Some (Ret (false, failed_message e, 0%nat), w') /\
                db w' = logged log (db w) /\
                outbox w' = outbox w ++ notes) /\
  (forall msg, db_fault k = Some msg ->
     exists w', process_site session site w0
                = Some (Raise (OperationalError msg), w') /\
                db w' = db w /\
                outbox w' = outbox w).
Proof.
  intros start HC HR w k log notes.
  assert (process_site session site w0
          = match record_failure site start e w with
            | None => None
            | Some (res, w') => Some (res, w')
            end) as EQ.
  { unfold Crawler.process_site, bind at 1, lift at 1, utc_now, try_except. simpl.
    fold start. rewrite HC.
    unfold Crawler.on_exception, bind. rewrite HR. unfold lift. fold w.
    destruct (record_failure site start e w) as [[res w']|]; reflexivity. }
  pose proof (record_failure_cases start e w) as H. fold k in H.
  split.
  - intros H1. rewrite H1 in H. destruct H as (w' & E & D & O & _).
    exists w'. rewrite EQ, E. split; [reflexivity|]. split; [exact D|exact O].
  - intros msg H1. rewrite H1 in H. rewrite EQ, H.
    eexists. split; [reflexivity|]. split; reflexivity.
Qed.

End Cycle.

Section Session.

Variable clock : nat -> instant.
Variable db_fault : nat -> option string.
Variable in_flush : nat -> bool.
Variable deliver : nat -> bool.
Variable net : nat -> string -> Wire.
Variable gzip_decompress : bytes -> option bytes.
Variable is_sitemap_index : bytes -> bool.
Variable parse_sitemap_index : bytes -> string -> list string.
Variable parse_sitemap : bytes -> list Parser.Entry.
Variable github_run_id : option string.
Variable fuel : nat.
Variable site : MonitoredSite.

Local Abbreviation step_of := (step_of clock).
Local Abbreviation diff_entry := (diff_entry clock db_fault).
Local Abbreviation read_site := (read_site db_fault).
Local Abbreviation read_page := (read_page db_fault).
Local Abbreviation notify_new_pages := (notify_new_pages db_fault deliver).
Local Abbreviation finish := (finish clock db_fault in_flush deliver github_run_id).
Local Abbreviation on_exception := (on_exception clock db_fault deliver github_run_id).
Local Abbreviation record_failure := (record_failure clock db_fault deliver github_run_id).
Local Abbreviation walk :=
  (Parser.extract_urls_from_sitemap net gzip_decompress is_sitemap_index
     parse_sitemap_index parse_sitemap fuel).
Local Abbreviation diffing :=
  (diffing clock db_fault net gzip_decompress is_sitemap_index parse_sitemap_index
     parse_sitemap fuel).
Local Abbreviation success_log := (success_log github_run_id site).
Local Abbreviation failed_log := (failed_log github_run_id site).
Local Abbreviation news_notes := (news_notes site).
Local Abbreviation error_notes := (error_notes site).

(** The map that [get_existing_urls] builds from a database. *)
Local Abbreviation existing_of d :=
  (foldl (fun result page => <[url page := last_seen_at page]> result)
         (∅ : gmap string instant)
         (filter (fun page => monitored_site_id page = id site) (pages d))).

Lemma bind_Ret {S A B} (m : St S A) (f : A -> St S B) (w w1 : S) (a : A) :
  m w = Some (Ret a, w1) -> bind m f w = f a w1.
Proof. intros H. unfold bind. rewrite H. reflexivity. Qed.

Lemma diff_entry_frame (S : gmap string instant)
    (acc : list Op * list DiscoveredPage) (e : Parser.Entry) (w : World) r w' :
  diff_entry site S acc e w = Some (r, w') -> frame w w'.
Proof.
  unfold Crawler.diff_entry, bind, query, utc_now, ret, frame.
  destruct (decide _).
  - destruct (db_fault (db_ops w)).
    + intros [= _ <-]. simpl. repeat split; lia.
    + destruct (find _ _); intros [= _ <-]; simpl; repeat split; lia.
  - intros [= _ <-]. simpl. repeat split; lia.
Qed.

Lemma diff_loop_frame (S : gmap string instant) (entries : list Parser.Entry) :
  forall acc w r w',
    for_loop (diff_entry site S) entries acc w = Some (r, w') -> frame w w'.
Proof.
  induction entries as [|e entries IH]; intros acc w r w'.
  - intros [= _ <-]. apply frame_refl.
  - rewrite for_loop_cons. unfold bind.
    destruct (diff_entry site S acc e w) as [[[a|x] w1]|] eqn:E; [| |discriminate].
    + intros H. eapply frame_trans; [eapply diff_entry_frame, E|].
      eapply IH, H.
    + intros [= _ <-]. eapply diff_entry_frame, E.
Qed.

Lemma diffing_eq (session : list Op) (w : World) :
  diffing session site w
  = match db_fault (db_ops w) with
    | Some msg => Some (Raise (OperationalError msg), called_db w)
    | None =>
        match walk (sitemap_url site) (base_url site) (net_w w) with
        | None => None
        | Some (entries, s) =>
            diff_loop clock db_fault site (existing_of (db w)) entries session
              (set_net s (called_db w))
        end
    end.
Proof.
  unfold Crawler.diffing, bind at 1, get_existing_urls, query.
  destruct (db_fault (db_ops w)); [reflexivity|].
  unfold bind at 1, extract_urls. simpl.
  destruct (walk (sitemap_url site) (base_url site) (net_w w)) as [[entries s]|];
    reflexivity.
Qed.

(** The stretch before the first commit: the first query fails, the
    walk nests too deep, the loop leaves its statements pending, or a
    row lookup of the loop fails. Only the counters and the network
    have changed. *)
Lemma diffing_cases (session : list Op) (w : World) :
  (exists msg, db_fault (db_ops w) = Some msg /\
     diffing session site w = Some (Raise (OperationalError msg), called_db w)) \/
  (db_fault (db_ops w) = None /\
   walk (sitemap_url site) (base_url site) (net_w w) = None /\
   diffing session site w = None) \/
  (exists entries s,
     db_fault (db_ops w) = None /\
     walk (sitemap_url site) (base_url site) (net_w w) = Some (entries, s) /\
     ((exists oss wc,
         diffing session site w
         = Some (Ret (session ++ concat oss, inserted (concat oss)), wc) /\
         Forall2 (step_of site (existing_of (db w)) (db w) (ticks w) (ticks wc))
                 entries oss /\
         frame (set_net s (called_db w)) wc /\
         db_ops wc
         = (S (db_ops w)
            + length (filter (fun e => Parser.url e ∈ dom (existing_of (db w)))
                             entries))%nat) \/
      (exists msg wc k,
         diffing session site w = Some (Raise (OperationalError msg), wc) /\
         frame (set_net s (called_db w)) wc /\
         (db_ops w < k)%nat /\ db_fault k = Some msg))).
Proof.
  rewrite !diffing_eq.
  destruct (db_fault (db_ops w)) as [msg|] eqn:Ef; [left; eauto|].
  destruct (walk (sitemap_url site) (base_url site) (net_w w)) as [[entries s]|];
    [|right; left; auto].
  right. right. exists entries, s. split; [reflexivity|]. split; [reflexivity|].
  set (wb := set_net s (called_db w)). unfold Crawler.diff_loop.
  destruct (diff_loop_cases clock db_fault site (existing_of (db w)) entries
              (session, []) wb)
    as [(oss & wc & E & F & Fr & C)|(msg & wc & k & E & Hk & Hf)].
  - left. exists oss, wc. split; [exact E|]. split; [exact F|]. split; [exact Fr|exact C].
  - right. exists msg, wc, k. split; [exact E|].
    split; [eapply diff_loop_frame, E|]. split; [simpl in Hk; lia|exact Hf].
Qed.

(** ** Reads of expired objects *)

Lemma read_site_cases (r : Run) res r' :
  read_site r = Some (res, r') ->
  frame (world r) (world r') /\
  match res with
  | Ret _ => refusal (session_state r') = refusal (session_state r) /\
             site_expired (session_state r') = false
  | Raise _ => session_state r' = session_state r
  end.
Proof.
  unfold Crawler.read_site, on_session, lift, query. destruct r as [w [x b]]. simpl.
  destruct b.
  - destruct x as [x|].
    + intros [= <- <-]. split; [apply frame_refl|reflexivity].
    + destruct (db_fault (db_ops w)); intros [= <- <-]; simpl;
        (split; [unfold frame; simpl; repeat split; lia|]); auto.
  - intros [= <- <-]. split; [apply frame_refl|]. auto.
Qed.

Lemma read_site_ok (r : Run) :
  refusal (session_state r) = None ->
  (forall k, (db_ops (world r) <= k)%nat -> db_fault k = None) ->
  exists w', read_site r
             = Some (Ret tt, {| world := w';
                                session_state := {| refusal := None;
                                                    site_expired := false |} |}) /\
             frame (world r) w' /\ ticks w' = ticks (world r) /\
             (db_ops w' <= S (db_ops (world r)))%nat.
Proof.
  unfold Crawler.read_site, on_session, lift, query. destruct r as [w [x b]]. simpl.
  intros -> Hok. destruct b.
  - rewrite (Hok (db_ops w)) by lia. eexists. split; [reflexivity|]. simpl.
    split; [unfold frame; simpl; repeat split; lia|]. split; [reflexivity|lia].
  - exists w. split; [reflexivity|]. split; [apply frame_refl|]. split; [reflexivity|lia].
Qed.

Lemma read_pages_frame (l : list DiscoveredPage) :
  forall (r : Run) res r',
    for_loop (fun (_ : unit) (_ : DiscoveredPage) => read_page) l tt r = Some (res, r') ->
    session_state r' = session_state r /\ frame (world r) (world r').
Proof.
  induction l as [|p l IH]; intros r res r'.
  - intros [= _ <-]. split; [reflexivity|apply frame_refl].
  - cbn [for_loop]. unfold bind at 1, Crawler.read_page, on_session, lift, query.
    destruct r as [w [x b]]. simpl. destruct x as [x|].
    + intros [= _ <-]. split; [reflexivity|apply frame_refl].
    + destruct (db_fault (db_ops w)).
      * intros [= _ <-]. split; [reflexivity|]. unfold frame. simpl. repeat split; lia.
      * intros H. apply IH in H as (Hs & Hf). split; [exact Hs|].
        eapply frame_trans; [|exact Hf]. unfold frame. simpl. repeat split; lia.
Qed.

Lemma read_pages_ok (l : list DiscoveredPage) :
  forall (r : Run),
    refusal (session_state r) = None ->
    (forall k, (db_ops (world r) <= k)%nat -> db_fault k = None) ->
    exists w',
      for_loop (fun (_ : unit) (_ : DiscoveredPage) => read_page) l tt r
      = Some (Ret tt, {| world := w'; session_state := session_state r |}) /\
      frame (world r) w' /\ ticks w' = ticks (world r).
Proof.
  induction l as [|p l IH]; intros r Hx Hok.
  - exists (world r). destruct r. split; [reflexivity|]. split; [apply frame_refl|reflexivity].
  - cbn [for_loop]. unfold bind at 1, Crawler.read_page, on_session, lift, query.
    destruct r as [w [x b]]. simpl in *. subst x.
    rewrite (Hok (db_ops w)) by lia.
    destruct (IH {| world := called_db w;
                    session_state := {| refusal := None; site_expired := b |} |})
      as (w' & E & F & T); [reflexivity|intros k Hk; apply Hok; simpl in Hk; lia|].
    exists w'. split; [exact E|]. split; [|exact T].
    eapply frame_trans; [|exact F]. unfold frame. simpl. repeat split; lia.
Qed.

(** ** The notification of new pages *)

Lemma notify_new_pages_cases (news : list DiscoveredPage) (r : Run) res r' :
  notify_new_pages site news r = Some (res, r') ->
  db (world r') = db (world r) /\ net_w (world r') = net_w (world r) /\
  ((exists b, res = Ret b /\ outbox (world r') = outbox (world r) ++ news_notes news) \/
   (exists x, res = Raise x /\ outbox (world r') = outbox (world r))).
Proof.
  unfold Crawler.notify_new_pages, Invariants.news_notes.
  destruct (bool_decide (news <> [])) eqn:E1; cbn [andb].
  2:{ intros [= <- <-]. split; [reflexivity|]. split; [reflexivity|].
      left. exists true. rewrite app_nil_r. auto. }
  unfold bind at 1.
  destruct (Crawler.read_site db_fault r) as [[[u|x] r1]|] eqn:ER; [| |discriminate].
  2:{ intros [= <- <-]. apply read_site_cases in ER as ((D & N & O & _) & _).
      split; [exact D|]. split; [exact N|]. right. eauto. }
  apply read_site_cases in ER as ((D1 & N1 & O1 & _) & _).
  destruct (bool_decide (is_notification_enabled site <> 0)).
  2:{ intros [= <- <-]. split; [exact D1|]. split; [exact N1|].
      left. exists true. rewrite app_nil_r. auto. }
  unfold send_new_pages_notification.
  apply bool_decide_eq_true in E1. rewrite bool_decide_false by exact E1.
  unfold bind at 1.
  destruct (Crawler.read_site db_fault r1) as [[[u2|x] r2]|] eqn:ER2; [| |discriminate].
  2:{ intros [= <- <-]. apply read_site_cases in ER2 as ((D & N & O & _) & _).
      split; [congruence|]. split; [congruence|]. right. exists x. split; congruence. }
  apply read_site_cases in ER2 as ((D2 & N2 & O2 & _) & _).
  unfold bind at 1.
  destruct (for_loop _ (take 10 news) tt r2) as [[[u3|x] r3]|] eqn:EL; [| |discriminate].
  2:{ intros [= <- <-]. apply read_pages_frame in EL as (_ & D & N & O & _).
      split; [congruence|]. split; [congruence|]. right. exists x. split; congruence. }
  apply read_pages_frame in EL as (_ & D3 & N3 & O3 & _).
  unfold lift, notify. simpl. intros [= <- <-]. simpl.
  split; [congruence|]. split; [congruence|]. left. eexists. split; [reflexivity|].
  congruence.
Qed.

Lemma notify_new_pages_ok (news : list DiscoveredPage) (r : Run) :
  refusal (session_state r) = None ->
  (forall k, (db_ops (world r) <= k)%nat -> db_fault k = None) ->
  exists b r',
    notify_new_pages site news r = Some (Ret b, r') /\
    db (world r') = db (world r) /\ net_w (world r') = net_w (world r) /\
    ticks (world r') = ticks (world r) /\
    outbox (world r') = outbox (world r) ++ news_notes news.
Proof.
  intros Hx Hok. unfold Crawler.notify_new_pages, Invariants.news_notes.
  destruct (bool_decide (news <> [])) eqn:E1; cbn [andb].
  2:{ exists true, r. rewrite app_nil_r. repeat split. }
  destruct (read_site_ok r Hx Hok) as (w1 & ER & (D1 & N1 & O1 & _ & C1) & T1 & _).
  rewrite (bind_Ret _ _ _ _ _ ER).
  destruct (bool_decide (is_notification_enabled site <> 0)).
  2:{ eexists true, _. split; [reflexivity|]. simpl. rewrite app_nil_r. auto. }
  unfold send_new_pages_notification.
  apply bool_decide_eq_true in E1. rewrite bool_decide_false by exact E1.
  set (r1 := {| world := w1;
                session_state := {| refusal := None; site_expired := false |} |}).
  assert (forall k, (db_ops (world r1) <= k)%nat -> db_fault k = None) as Hok1
    by (intros k Hk; apply Hok; simpl in Hk; lia).
  destruct (read_site_ok r1 eq_refl Hok1) as (w2 & ER2 & (D2 & N2 & O2 & _ & C2) & T2 & _).
  rewrite (bind_Ret _ _ _ _ _ ER2).
  set (r2 := {| world := w2;
                session_state := {| refusal := None; site_expired := false |} |}).
  assert (forall k, (db_ops (world r2) <= k)%nat -> db_fault k = None) as Hok2
    by (intros k Hk; apply Hok1; simpl in *; lia).
  destruct (read_pages_ok (take 10 news) r2 eq_refl Hok2)
    as (w3 & EL & (D3 & N3 & O3 & _) & T3).
  rewrite (bind_Ret _ _ _ _ _ EL).
  unfold lift, notify. simpl. eexists _, _. split; [reflexivity|]. simpl in *.
  split; [congruence|]. split; [congruence|]. split; [congruence|]. congruence.
Qed.

(** ** The handler *)

Lemma on_exception_cases (start : instant) (e : Exn) (r : Run) res r' :
  on_exception site start e r = Some (res, r') ->
  net_w (world r') = net_w (world r) /\
  ((exists x, res = Raise x /\ db (world r') = db (world r) /\
              outbox (world r') = outbox (world r)) \/
   (exists now, res = Ret (false, failed_message e, 0%nat) /\
      db (world r') = logged (failed_log start e now) (db (world r)) /\
      outbox (world r') = outbox (world r) ++ error_notes e)).
Proof.
  unfold Crawler.on_exception, bind at 1.
  destruct (Crawler.read_site db_fault r) as [[[u|x] r1]|] eqn:ER; [| |discriminate].
  2:{ intros [= <- <-]. apply read_site_cases in ER as ((D & N & O & _) & _).
      split; [exact N|]. left. eauto. }
  apply read_site_cases in ER as ((D & N & O & _) & _).
  unfold lift.
  pose proof (record_failure_cases clock db_fault deliver github_run_id site
                start e (world r1)) as H.
  destruct (db_fault (db_ops (world r1))).
  - rewrite H. intros [= <- <-]. simpl. split; [exact N|]. left. eauto.
  - destruct H as (w' & E & D' & O' & N'). rewrite E. intros [= <- <-]. simpl.
    split; [congruence|]. right. exists (clock (ticks (world r1))).
    split; [reflexivity|]. split; congruence.
Qed.

(** After a flush that failed and a rollback that nobody asked for,
    the handler raises at its first line. *)
Lemma on_exception_refused (start : instant) (e : Exn) (w : World) (x : Exn) :
  on_exception site start e
    {| world := w; session_state := {| refusal := Some x; site_expired := true |} |}
  = Some (Raise x,
          {| world := w; session_state := {| refusal := Some x; site_expired := true |} |}).
Proof. reflexivity. Qed.

(** ** Lines 298-325 *)

Local Ltac raised :=
  intros [= <- <-]; split; [reflexivity|]; left; eexists;
  split; [reflexivity|]; split; [reflexivity|].

(** How [finish] ends after pending statements that can be flushed:
    what is committed by then, and what was sent. *)
Lemma finish_cases (pending : list Op) (start : instant)
    (news : list DiscoveredPage) (w : World) res r' :
  finish pending site start news {| world := w; session_state := new_session |}
  = Some (res, r') ->
  net_w (world r') = net_w w /\
  ((exists e, res = Raise e /\ outbox (world r') = outbox w /\
      (db (world r') = db w \/
       exists d1, flush pending (db w) = Some d1 /\
         (db (world r') = d1 \/
          db (world r') = site_crawled (id site) (clock (ticks w)) d1 \/
          db (world r')
          = logged (success_log start (length news) (clock (S (ticks w))))
              (site_crawled (id site) (clock (ticks w)) d1)))) \/
   (exists d1,
      res = Ret (true, success_message (length news), length news) /\
      flush pending (db w) = Some d1 /\
      db (world r')
      = logged (success_log start (length news) (clock (S (ticks w))))
          (site_crawled (id site) (clock (ticks w)) d1) /\
      outbox (world r') = outbox w ++ news_notes news)).
Proof.
  unfold Crawler.finish, bind at 1, committing at 1, commit. simpl.
  destruct (db_fault (db_ops w)).
  { raised. left. reflexivity. }
  destruct (flush pending (db w)) as [d1|] eqn:Hf.
  2:{ raised. left. reflexivity. }
  unfold bind at 1, committing at 1, Crawler.update_site_last_crawled, bind at 1,
    utc_now, commit. simpl.
  destruct (db_fault (S (db_ops w))).
  { raised. right. exists d1. split; [reflexivity|]. left. reflexivity. }
  unfold bind at 1, Crawler.read_site at 1, on_session, lift, query. simpl.
  destruct (db_fault (S (S (db_ops w)))).
  { raised. right. exists d1. split; [reflexivity|]. right. left. reflexivity. }
  unfold bind at 1, committing at 1, Crawler.create_crawl_log, bind at 1,
    utc_now, commit. simpl.
  destruct (db_fault (S (S (S (db_ops w))))).
  { raised. right. exists d1. split; [reflexivity|]. right. left. reflexivity. }
  unfold bind at 1.
  match goal with
  | |- context [Crawler.notify_new_pages _ _ _ _ ?r] =>
      destruct (Crawler.notify_new_pages db_fault deliver site news r)
        as [[[b|x] r5]|] eqn:EN; [| |discriminate]
  end.
  - apply notify_new_pages_cases in EN as (D & N & [(b' & _ & O)|(x & [=] & _)]).
    intros [= <- <-]. simpl in *. split; [exact N|]. right. exists d1.
    split; [reflexivity|]. split; [reflexivity|]. split; [exact D|exact O].
  - apply notify_new_pages_cases in EN as (D & N & [(b' & [=] & _)|(x' & _ & O)]).
    intros [= <- <-]. simpl in *. split; [exact N|]. left. exists x.
    split; [reflexivity|]. split; [exact O|]. right. exists d1.
    split; [reflexivity|]. right. right. exact D.
Qed.

Lemma finish_ok (pending : list Op) (start : instant) (news : list DiscoveredPage)
    (w : World) (d1 : DB) :
  (forall k, (db_ops w <= k)%nat -> db_fault k = None) ->
  flush pending (db w) = Some d1 ->
  exists r',
    finish pending site start news {| world := w; session_state := new_session |}
    = Some (Ret (true, success_message (length news), length news), r') /\
    db (world r')
    = logged (success_log start (length news) (clock (S (ticks w))))
        (site_crawled (id site) (clock (ticks w)) d1) /\
    outbox (world r') = outbox w ++ news_notes news /\
    net_w (world r') = net_w w.
Proof.
  intros Hok Hf.
  unfold Crawler.finish, bind at 1, committing at 1, commit. simpl.
  rewrite (Hok (db_ops w)) by lia. rewrite Hf.
  unfold bind at 1, committing at 1, Crawler.update_site_last_crawled, bind at 1,
    utc_now, commit. simpl.
  rewrite (Hok (S (db_ops w))) by lia.
  unfold bind at 1, Crawler.read_site at 1, on_session, lift, query. simpl.
  rewrite (Hok (S (S (db_ops w)))) by lia.
  unfold bind at 1, committing at 1, Crawler.create_crawl_log, bind at 1,
    utc_now, commit. simpl.
  rewrite (Hok (S (S (S (db_ops w))))) by lia.
  match goal with
  | |- context [bind _ _ ?r] =>
      destruct (notify_new_pages_ok news r) as (b & r5 & EN & D & N & _ & O);
        [reflexivity|intros k Hk; apply Hok; simpl in Hk; lia|]
  end.
  rewrite (bind_Ret _ _ _ _ _ EN). exists r5. split; [reflexivity|].
  simpl in *. split; [exact D|]. split; [exact O|exact N].
Qed.

End Session.

Section TwoRuns.

Variable clock : nat -> instant.
Variable db_fault : nat -> option string.
Variable in_flush : nat -> bool.
Variable deliver : nat -> bool.
Variable net : nat -> string -> Wire.
Variable gzip_decompress : bytes -> option bytes.
Variable is_sitemap_index : bytes -> bool.
Variable parse_sitemap_index : bytes -> string -> list string.
Variable parse_sitemap : bytes -> list Parser.Entry.
Variable github_run_id : option string.
Variable fuel : nat.
Variable site : MonitoredSite.

Local Abbreviation step_of := (step_of clock).
Local Abbreviation seen_since := (seen_since clock).
Local Abbreviation finish := (finish clock db_fault in_flush deliver github_run_id).
Local Abbreviation on_exception := (on_exception clock db_fault deliver github_run_id).
Local Abbreviation record_failure := (record_failure clock db_fault deliver github_run_id).
Local Abbreviation walk :=
  (Parser.extract_urls_from_sitemap net gzip_decompress is_sitemap_index
     parse_sitemap_index parse_sitemap fuel).
Local Abbreviation diffing :=
  (diffing clock db_fault net gzip_decompress is_sitemap_index parse_sitemap_index
     parse_sitemap fuel).
Local Abbreviation process_site :=
  (process_site clock db_fault in_flush deliver net gzip_decompress is_sitemap_index
     parse_sitemap_index parse_sitemap github_run_id fuel).
Local Abbreviation success_log := (success_log github_run_id site).
Local Abbreviation news_notes := (news_notes site).

(** The map that [get_existing_urls] builds from a database. *)
Local Abbreviation existing_of d :=
  (foldl (fun result page => <[url page := last_seen_at page]> result)
         (∅ : gmap string instant)
         (filter (fun page => monitored_site_id page = id site) (pages d))).

Lemma flush_touches (lo hi : nat) (ops : list Op) :
  forall d,
    Forall (fun o => exists u k, (lo <= k < hi)%nat /\
                       o = TouchPage (id site) u (clock k)) ops ->
    exists d', flush ops d = Some d' /\
      url <$> pages d' = url <$> pages d /\
      forall u, has_row (id site) u d ->
        (u ∈ touched ops \/
         exists p, find (is_page (id site) u) (pages d) = Some p /\ seen_since lo p) ->
        exists p', find (is_page (id site) u) (pages d') = Some p' /\ seen_since lo p'.
Proof.
  induction ops as [|o ops IH]; intros d HF.
  - exists d. split; [reflexivity|]. split; [reflexivity|].
    intros u _ [Hin|H]; [inversion Hin|exact H].
  - apply Forall_cons in HF as [(u0 & k & Hk & ->) HF].
    set (d1 := {| sites := sites d;
                  pages := touch_first (id site) u0 (clock k) (pages d);
                  logs := logs d |}).
    destruct (IH d1 HF) as (d' & Ef & Eu & Hr).
    exists d'. split; [exact Ef|]. split.
    { rewrite Eu. apply touch_first_urls. }
    intros u Hrow Hcase. apply Hr.
    + unfold has_row. simpl. rewrite find_touch_first.
      destruct (decide _) as [[_ ->]|_]; [|exact Hrow].
      destruct Hrow as [p ->]. simpl. eauto.
    + destruct (decide (u = u0)) as [->|Hne].
      * right. destruct Hrow as [p Hp]. exists (touch (clock k) p). split.
        -- simpl. rewrite find_touch_first, decide_True by (split; reflexivity).
           rewrite Hp. reflexivity.
        -- exists k. split; [lia|reflexivity].
      * destruct Hcase as [Hin|(p & Hp & Hs)].
        -- left. unfold touched in Hin. simpl in Hin.
           apply elem_of_cons in Hin as [Hin|Hin]; [contradiction|exact Hin].
        -- right. exists p. split; [|exact Hs].
           simpl. rewrite find_touch_first, decide_False by (intros [_ ?]; contradiction).
           exact Hp.
Qed.

Lemma step_of_all_known (existing_urls : gmap string instant) (d : DB)
    (lo hi : nat) (entries : list Parser.Entry) (oss : list (list Op)) :
  (forall e, e ∈ entries -> Parser.url e ∈ dom existing_urls) ->
  (forall e, e ∈ entries -> has_row (id site) (Parser.url e) d) ->
  Forall2 (step_of site existing_urls d lo hi) entries oss ->
  Forall (fun o => exists u k, (lo <= k < hi)%nat /\
                     o = TouchPage (id site) u (clock k)) (concat oss) /\
  touched (concat oss) = Parser.url <$> entries /\
  inserted (concat oss) = [].
Proof.
  intros Hall Hrows H. induction H as [|e os entries oss H _ IH].
  - repeat split. constructor.
  - destruct IH as (F & T & I);
      [intros e' He'; apply Hall; right; exact He'
      |intros e' He'; apply Hrows; right; exact He'|].
    unfold Crawler.step_of in H. rewrite decide_True in H by (apply Hall; left).
    destruct (Hrows e (list_elem_of_here _ _)) as [p Hp]. rewrite Hp in H.
    destruct H as (k & Hk & ->). cbn [concat]. split; [|split].
    + constructor; [eauto|exact F].
    + change (touched ([TouchPage (id site) (Parser.url e) (clock k)] ++ concat oss))
        with (Parser.url e :: touched (concat oss)).
      rewrite T, fmap_cons. reflexivity.
    + exact I.
Qed.

Lemma record_failure_not_success (start : instant) (e : Exn) (w w' : World)
    (m : string) (n : nat) :
  record_failure site start e w = Some (Ret (true, m, n), w') -> False.
Proof.
  pose proof (record_failure_cases clock db_fault deliver github_run_id site
                start e w) as H.
  destruct (db_fault (db_ops w)).
  - rewrite H. discriminate.
  - destruct H as (w2 & E & _). rewrite E. discriminate.
Qed.

Lemma on_exception_not_success (start : instant) (e : Exn) (r r' : Run)
    (m : string) (n : nat) :
  on_exception site start e r = Some (Ret (true, m, n), r') -> False.
Proof.
  intros H.
  apply (on_exception_cases clock db_fault deliver github_run_id site) in H
    as (_ & [(x & [=] & _)|(now & [=] & _)]).
Qed.

(** What a cycle that returned success has done. *)
Lemma process_site_success (session : list Op) (w : World) (m : string) (n : nat)
    (w' : World) :
  process_site session site w = Some (Ret (true, m, n), w') ->
  exists entries s oss hi d1,
    walk (sitemap_url site) (base_url site) (net_w w) = Some (entries, s) /\
    Forall2 (step_of site (existing_of (db w)) (db w) (S (ticks w)) hi) entries oss /\
    (S (ticks w) <= hi)%nat /\
    flush (session ++ concat oss) (db w) = Some d1 /\
    n = length (inserted (concat oss)) /\
    m = success_message n /\
    db w' = logged (success_log (clock (ticks w)) n (clock (S hi)))
              (site_crawled (id site) (clock hi) d1) /\
    outbox w' = outbox w ++ news_notes (inserted (concat oss)) /\
    net_w w' = s.
Proof.
  rewrite process_site_eq.
  destruct (diffing_cases clock db_fault net gzip_decompress is_sitemap_index
              parse_sitemap_index parse_sitemap fuel site session (ticked w))
    as [(msg & _ & E)|[(_ & _ & E)|(entries & s & _ & HW & [H|H])]].
  - rewrite E. intros H. apply record_failure_not_success in H. contradiction.
  - rewrite E. discriminate.
  - destruct H as (oss & wc & E & F & (D & N & O & T & _) & _). rewrite E.
    destruct (finish _ site _ _ _) as [[[a|e] r2]|] eqn:EF; [| |discriminate].
    + intros [= -> <-].
      apply (finish_cases clock db_fault in_flush deliver github_run_id site) in EF
        as (Nf & [(e & [=] & _)|(d1 & [= -> ->] & Hf & Hdb & Ho)]).
      simpl in *. exists entries, s, oss, (ticks wc), d1.
      split; [exact HW|]. split; [exact F|]. split; [exact T|].
      split; [rewrite <- D; exact Hf|]. split; [reflexivity|]. split; [reflexivity|].
      split; [exact Hdb|]. split; [rewrite Ho, O; reflexivity|].
      rewrite Nf, N. reflexivity.
    + destruct (on_exception site (clock (ticks w)) e r2) as [[res r3]|] eqn:EH;
        [|discriminate].
      intros [= -> <-]. apply on_exception_not_success in EH. contradiction.
  - destruct H as (msg & wc & k & E & _). rewrite E.
    intros H. apply record_failure_not_success in H. contradiction.
Qed.

(** A cycle over entries that all have a row, with a database that
    does not fail: nothing is inserted and every row is refreshed. *)
Lemma process_site_again (w : World) (entries : list Parser.Entry) (s : Net) :
  (forall k, (db_ops w <= k)%nat -> db_fault k = None) ->
  walk (sitemap_url site) (base_url site) (net_w w) = Some (entries, s) ->
  (forall e, e ∈ entries -> has_row (id site) (Parser.url e) (db w)) ->
  exists w',
    process_site [] site w = Some (Ret (true, success_message 0, 0%nat), w') /\
    url <$> pages (db w') = url <$> pages (db w) /\
    forall e, e ∈ entries ->
      exists p, find (is_page (id site) (Parser.url e)) (pages (db w')) = Some p /\
                seen_since (S (ticks w)) p.
Proof.
  intros Hok HW Hrows. rewrite process_site_eq.
  destruct (diffing_cases clock db_fault net gzip_decompress is_sitemap_index
              parse_sitemap_index parse_sitemap fuel site [] (ticked w))
    as [(msg & Hf & _)|[(_ & HN & _)|(entries' & s' & _ & HW' & [H|H])]].
  - simpl in Hf. rewrite Hok in Hf by lia. discriminate.
  - simpl in HN. rewrite HW in HN. discriminate.
  - simpl in HW'. rewrite HW in HW'. injection HW' as <- <-.
    destruct H as (oss & wc & E & F & (D & N & O & T & Cn) & C). rewrite E.
    simpl in *.
    assert (forall e, e ∈ entries -> Parser.url e ∈ dom (existing_of (db w))) as Hknown.
    { intros e He. apply existing_urls_dom. apply Hrows, He. }
    destruct (step_of_all_known _ _ _ _ _ _ Hknown Hrows F) as (HT & Htouched & Hins).
    destruct (flush_touches (S (ticks w)) (ticks wc) (concat oss) (db wc) HT)
      as (d2 & Hflush & Hurls & Hseen).
    destruct (finish_ok clock db_fault in_flush deliver github_run_id site
                (concat oss) (clock (ticks w)) [] wc d2) as (r' & Hfin & Hdb & _).
    { intros k Hk. apply Hok. lia. }
    { exact Hflush. }
    rewrite Hins. rewrite Hfin. exists (world r'). split; [reflexivity|].
    rewrite Hdb. simpl. split.
    + rewrite Hurls, D. reflexivity.
    + intros e He. apply Hseen.
      * unfold has_row. rewrite D. apply Hrows, He.
      * left. rewrite Htouched. apply list_elem_of_fmap_2, He.
  - simpl in HW'. destruct H as (msg & wc & k & _ & _ & Hk & Hf).
    simpl in Hk. rewrite Hok in Hf by lia. discriminate.
Qed.


End TwoRuns.

(** ** The example site *)

Import Examples.

(** First cycle, nothing recorded before: two new pages, a success
    record that counts 2, one notification. *)
Example first_cycle :
  observe (run [] (world_of db0))
  = Some (Ret (true, success_message 2, 2%nat),
          [new_page site "https://example.com/a" (clock 1) (clock 2);
           new_page site "https://example.com/b" (clock 3) (clock 4)],
          Some (Some (clock 5)),
          [{| log_site_id := 1; run_id := None; start_time := clock 0;
              end_time := Some (clock 6); status := "success";
              pages_found_count := 2; message := Some (found_message 2) |}],
          [NewPages 1 [new_page site "https://example.com/a" (clock 1) (clock 2);
                       new_page site "https://example.com/b" (clock 3) (clock 4)]]).
Proof. vm_compute. reflexivity. Qed.

(** A cycle over a database that already holds [/a]: one new page. *)
Example cycle_with_known_page :
  observe (run [] (world_of db1))
  = Some (Ret (true, success_message 1, 1%nat),
          [touch (clock 1) page_a;
           new_page site "https://example.com/b" (clock 2) (clock 3)],
          Some (Some (clock 4)),
          [{| log_site_id := 1; run_id := None; start_time := clock 0;
              end_time := Some (clock 5); status := "success";
              pages_found_count := 1; message := Some (found_message 1) |}],
          [NewPages 1 [new_page site "https://example.com/b" (clock 2) (clock 3)]]).
Proof. vm_compute. reflexivity. Qed.

(** The database calls of that cycle: the existing URLs, the row of
    [/a], the three commits, and the reads of the expired site (twice)
    and of the new page for the notification. *)
Example cycle_with_known_page_calls :
  db_ops (world_after (run [] (world_of db1))) = 8%nat.
Proof. vm_compute. reflexivity. Qed.

Lemma no_fault_ok (n k : nat) : (n <= k)%nat -> faults_at [] k = None.
Proof. reflexivity. Qed.

Lemma diff_partitions_entries_witness :
  exists ops new_pages w',
    diff_loop clock (faults_at []) site known_a [entry_a; entry_b] [] (world_of db1)
    = Some (Ret ([] ++ ops, new_pages), w') /\
    new_pages = inserted ops /\
    url <$> new_pages
    = Parser.url <$> filter (fun e => Parser.url e ∉ dom known_a) [entry_a; entry_b] /\
    db_ops w'
    = (db_ops (world_of db1)
       + length (filter (fun e => Parser.url e ∈ dom known_a) [entry_a; entry_b]))%nat /\
    ((forall e, e ∈ [entry_a; entry_b] -> Parser.url e ∈ dom known_a ->
                has_row (id site) (Parser.url e) (db (world_of db1))) ->
     touched ops
     = Parser.url <$> filter (fun e => Parser.url e ∈ dom known_a) [entry_a; entry_b]) /\
    (forall e, e ∈ filter (fun e => Parser.url e ∉ dom known_a) [entry_a; entry_b] ->
               e ∉ filter (fun e => Parser.url e ∈ dom known_a) [entry_a; entry_b]) /\
    (forall e, e ∈ [entry_a; entry_b] <->
               e ∈ filter (fun e => Parser.url e ∉ dom known_a) [entry_a; entry_b] \/
               e ∈ filter (fun e => Parser.url e ∈ dom known_a) [entry_a; entry_b]) /\
    filter (fun e => Parser.url e ∈ dom known_a) [entry_a; entry_b]
      ++ filter (fun e => Parser.url e ∉ dom known_a) [entry_a; entry_b]
    ≡ₚ [entry_a; entry_b].
Proof.
  exact (diff_partitions_entries clock (faults_at []) site known_a
           [entry_a; entry_b] [] (world_of db1) (no_fault_ok 0)).
Defined.

Lemma new_pages_take_the_current_time_witness :
  exists ops new_pages w',
    diff_loop clock (faults_at []) site known_a [entry_a; entry_b] [] (world_of db1)
    = Some (Ret ([] ++ ops, new_pages), w') /\
    new_pages = inserted ops /\
    Forall2 (fun e p =>
               monitored_site_id p = id site /\
               url p = Parser.url e /\
               page_title p = None /\
               is_processed p = 0 /\
               exists k, (ticks (world_of db1) <= k)%nat /\ (S k < ticks w')%nat /\
                 first_discovered_at p = clock k /\
                 last_seen_at p = clock (S k) /\
                 ((forall i j, (i <= j)%nat -> clock i <= clock j) ->
                  forall t0, (t0 <= ticks (world_of db1))%nat ->
                    clock t0 <= first_discovered_at p <= last_seen_at p))
            (filter (fun e => Parser.url e ∉ dom known_a) [entry_a; entry_b])
            new_pages.
Proof.
  exact (new_pages_take_the_current_time clock (faults_at []) site known_a
           [entry_a; entry_b] [] (world_of db1) (no_fault_ok 0)).
Defined.

(** C7 as stated fails: the start time of the cycle is the reading
    [clock 0]; the two pages found get the later readings 1 and 2, and
    3 and 4, so neither time of a page is the start time and the two
    times of one page differ. *)
Lemma new_page_times_are_not_the_start_time :
  times (run [] (world_of db0))
  = Some ([clock 0], [clock 1; clock 3], [clock 2; clock 4]) /\
  clock 0 < clock 1 < clock 2.
Proof. split; [vm_compute; reflexivity|]. unfold clock. lia. Qed.

(** C3 as stated fails. The session holds two new rows; the first
    database call of the commit step, the commit of the rows, goes
    through and the second, the commit inside
    [update_site_last_crawled], fails. The step raises; the two rows
    are committed by then and stay, and the last-crawled time is not
    written. *)
Lemma commit_is_two_transactions :
  (fun r => (r.1, pages (db r.2), last_crawled_at <$> sites (db r.2) !! 1))
    <$> commit_step clock (faults_at [1%nat])
          [InsertPage (new_page site "https://example.com/a" (clock 1) (clock 2));
           InsertPage (new_page site "https://example.com/b" (clock 3) (clock 4))]
          site (world_of db0)
  = Some (Raise (OperationalError "connection lost"),
          [new_page site "https://example.com/a" (clock 1) (clock 2);
           new_page site "https://example.com/b" (clock 3) (clock 4)],
          Some None).
Proof. vm_compute. reflexivity. Qed.

Lemma commit_step_outcomes_witness :
  exists w',
    commit_step clock (faults_at [1%nat])
      [InsertPage (new_page site "https://example.com/a" (clock 1) (clock 2))]
      site (world_of db0)
    = Some (Raise (OperationalError "connection lost"), w') /\
    db w' = {| sites := sites db0;
               pages := [new_page site "https://example.com/a" (clock 1) (clock 2)];
               logs := [] |}.
Proof.
  refine (proj1 (proj2 (proj2 (commit_step_outcomes clock (faults_at [1%nat]) site
            [InsertPage (new_page site "https://example.com/a" (clock 1) (clock 2))]
            (world_of db0))) _ _ _) "connection lost"%string _); reflexivity.
Defined.

(** C6 as stated fails: the database fails at its first call, the
    query for the existing URLs, and again at its second, the commit
    of the history record. The second exception leaves
    [process_site]; no record is written and no notification is
    attempted, although the site has them enabled. *)
Lemma history_write_failure_is_raised :
  is_notification_enabled site = 1 /\
  observe (run [0%nat; 1%nat] (world_of db0))
  = Some (Raise (OperationalError "connection lost"), [], Some None, [], []).
Proof. split; [reflexivity|]. vm_compute. reflexivity. Qed.

(** The query for the existing URLs fails and the database works
    again: the failure is on record and the notifier has the error. *)
Example cycle_failing_at_once :
  observe (run [0%nat] (world_of db0))
  = Some (Ret (false, failed_message (OperationalError "connection lost"), 0%nat),
          [], Some None,
          [failed_log None site (clock 0) (OperationalError "connection lost") (clock 1)],
          [ErrorNote 1 "connection lost"]).
Proof. vm_compute. reflexivity. Qed.

Lemma failure_is_logged_and_notified_witness :
  exists w',
    run [0%nat] (world_of db0)
    = Some (Ret (false, failed_message (OperationalError "connection lost"), 0%nat), w') /\
    db w' = logged (failed_log None site (clock 0)
                      (OperationalError "connection lost") (clock 1)) db0 /\
    outbox w' = [] ++ [ErrorNote 1 "connection lost"].
Proof.
  refine (proj1 (failure_is_logged_and_notified clock (faults_at [0%nat]) flushing
            delivered site_net gunzip is_index index_children leaf_entries None 5 site
            [] (world_of db0) (OperationalError "connection lost")
            {| world := called_db (ticked (world_of db0)); session_state := new_session |}
            {| world := called_db (ticked (world_of db0)); session_state := new_session |}
            _ _) _); vm_compute; reflexivity.
Defined.


End CrawlerFacts.


(* ===================================================================== *)
(** * Every outcome of [make_request], and [check_url_status] *)
(* ===================================================================== *)

Module RequestFacts.

Import Http HttpTools.

Section Requests.

Variable net : nat -> string -> Wire.

Lemma attempt_Ret (w : Wire) (r : Response) :
  attempt w = Ret r -> w = Answer r /\ ~ (400 <= status_code r < 600).
Proof.
  destruct w as [r0|e0]; simpl; [|discriminate]. unfold raise_for_status.
  destruct (400 <=? status_code r0) eqn:E1; destruct (status_code r0 <? 600) eqn:E2;
    simpl; try discriminate; intros [= ->]; (split; [reflexivity|]); lia.
Qed.

(** The loop entered at attempt [k] with enough fuel to reach the
    third attempt. *)
Lemma retrying_outcome (url : string) (fuel : nat) :
  forall (k : nat) (s : Net),
    (1 <= k <= max_attempt_number)%nat -> (max_attempt_number - k <= fuel)%nat ->
    exists n : nat,
      (1 <= n)%nat /\ (k + n <= S max_attempt_number)%nat /\
      n_req (retrying net fuel k url s).2 = (n_req s + n)%nat /\
      waits (retrying net fuel k url s).2 = waits s ++ (wait <$> seq k (n - 1)) /\
      (forall j, (S j < n)%nat -> retried (net (n_req s + j) url) = true) /\
      match (retrying net fuel k url s).1 with
      | Returned r =>
          net (n_req s + n - 1) url = Answer r /\ ~ (400 <= status_code r < 600)
      | Raised e =>
          attempt (net (n_req s + n - 1) url) = Raise e /\
          retry_if_exception_type e = false
      | RetryError e =>
          (k + n = S max_attempt_number)%nat /\
          attempt (net (n_req s + n - 1) url) = Raise e /\
          retry_if_exception_type e = true
      end.
Proof.
  unfold max_attempt_number.
  assert (forall (s : Net) (o : Outcome) (k : nat),
            match o with
            | Returned r => net (n_req s) url = Answer r /\ ~ (400 <= status_code r < 600)
            | Raised e => attempt (net (n_req s) url) = Raise e /\
                          retry_if_exception_type e = false
            | RetryError e => k = 3%nat /\ attempt (net (n_req s) url) = Raise e /\
                              retry_if_exception_type e = true
            end ->
            (1 <= k <= 3)%nat ->
            exists n : nat,
              (1 <= n)%nat /\ (k + n <= 4)%nat /\
              n_req (o, sent s).2 = (n_req s + n)%nat /\
              waits (o, sent s).2 = waits s ++ (wait <$> seq k (n - 1)) /\
              (forall j, (S j < n)%nat -> retried (net (n_req s + j) url) = true) /\
              match (o, sent s).1 with
              | Returned r =>
                  net (n_req s + n - 1) url = Answer r /\ ~ (400 <= status_code r < 600)
              | Raised e =>
                  attempt (net (n_req s + n - 1) url) = Raise e /\
                  retry_if_exception_type e = false
              | RetryError e =>
                  (k + n = 4)%nat /\
                  attempt (net (n_req s + n - 1) url) = Raise e /\
                  retry_if_exception_type e = true
              end) as Hone.
  { intros s o k H Hk. exists 1%nat. cbn [fst snd sent n_req waits Nat.sub seq fmap list_fmap].
    rewrite app_nil_r. replace (n_req s + 1 - 1)%nat with (n_req s) by lia.
    split; [lia|]. split; [lia|]. split; [lia|]. split; [reflexivity|].
    split; [intros j Hj; lia|].
    destruct o as [r|e|e]; [exact H|exact H|].
    destruct H as (-> & H). split; [reflexivity|exact H]. }
  induction fuel as [|fuel IH]; intros k s Hk Hfuel; cbn [retrying].
  - destruct (attempt (net (n_req s) url)) as [r|e] eqn:A.
    + apply Hone; [apply attempt_Ret, A|exact Hk].
    + destruct (retry_if_exception_type e) eqn:R; cbn [negb].
      * assert (k = 3)%nat as -> by lia. cbn [stop_after_attempt max_attempt_number Nat.leb].
        apply Hone; [auto|lia].
      * apply Hone; [auto|exact Hk].
  - destruct (attempt (net (n_req s) url)) as [r|e] eqn:A.
    + apply Hone; [apply attempt_Ret, A|exact Hk].
    + destruct (retry_if_exception_type e) eqn:R; cbn [negb];
        [|apply Hone; [auto|exact Hk]].
      unfold stop_after_attempt, max_attempt_number.
      destruct (3 <=? k)%nat eqn:Estop.
      * apply Nat.leb_le in Estop. assert (k = 3)%nat as -> by lia.
        apply Hone; [auto|lia].
      * apply Nat.leb_gt in Estop.
        destruct (IH (S k) (slept (wait k) (sent s))) as (n & H1 & H2 & Hreq & Hw & Hj & Ho);
          [lia|lia|].
        exists (S n). cbn [slept sent n_req waits] in Hreq, Hw, Hj, Ho.
        split; [lia|]. split; [lia|]. split; [rewrite Hreq; lia|]. split.
        { rewrite Hw, <- app_assoc. f_equal.
          replace (S n - 1)%nat with (S (n - 1)) by lia. reflexivity. }
        split.
        { intros [|j] Hlt.
          - rewrite Nat.add_0_r. unfold retried. rewrite A. exact R.
          - replace (n_req s + S j)%nat with (S (n_req s) + j)%nat by lia.
            apply Hj. lia. }
        replace (n_req s + S n - 1)%nat with (S (n_req s) + n - 1)%nat by lia.
        destruct (retrying net fuel (S k) url (slept (wait k) (sent s))).1 as [r'|e'|e'];
          [exact Ho|exact Ho|].
        destruct Ho as (Hkn & Ho). split; [lia|exact Ho].
Qed.

Lemma make_request_cases (url : string) (s : Net) :
  exists n : nat,
    (1 <= n <= 3)%nat /\
    n_req (make_request net url s).2 = (n_req s + n)%nat /\
    waits (make_request net url s).2 = waits s ++ (wait <$> seq 1 (n - 1)) /\
    (forall j, (S j < n)%nat -> retried (net (n_req s + j) url) = true) /\
    match (make_request net url s).1 with
    | Returned r =>
        net (n_req s + n - 1) url = Answer r /\ ~ (400 <= status_code r < 600)
    | Raised e =>
        attempt (net (n_req s + n - 1) url) = Raise e /\
        retry_if_exception_type e = false
    | RetryError e =>
        n = 3%nat /\
        attempt (net (n_req s + n - 1) url) = Raise e /\
        retry_if_exception_type e = true
    end.
Proof.
  unfold make_request.
  destruct (retrying_outcome url max_attempt_number 1 s)
    as (n & H1 & H2 & Hreq & Hw & Hj & Ho);
    [unfold max_attempt_number; lia|unfold max_attempt_number; lia|].
  unfold max_attempt_number in H2.
  exists n. split; [lia|]. split; [exact Hreq|]. split; [exact Hw|]. split; [exact Hj|].
  destruct (retrying net max_attempt_number 1 url s).1 as [r|e|e]; [exact Ho|exact Ho|].
  destruct Ho as (Hn & Ho). unfold max_attempt_number in Hn. split; [lia|exact Ho].
Qed.

(** X1. Every outcome of [make_request] is explained by what the requests
    met. It sent [n] requests, one to three, and slept before each
    but the first, [wait 1] and then [wait 2] seconds; every request
    but the last met a failure of a retried class. A response that is
    returned is the answer to the last request and has no status from
    400 to 599; an exception that is raised as it is was met by the
    last request and is of no retried class; [RetryError] is raised
    only after three requests and holds the retried failure of the
    third. *)
Theorem make_request_outcome (url : string) (s : Net) :
  exists n : nat,
    (1 <= n <= 3)%nat /\
    n_req (make_request net url s).2 = (n_req s + n)%nat /\
    waits (make_request net url s).2 = waits s ++ (wait <$> seq 1 (n - 1)) /\
    (forall j, (S j < n)%nat -> retried (net (n_req s + j) url) = true) /\
    match (make_request net url s).1 with
    | Returned r =>
        net (n_req s + n - 1) url = Answer r /\ ~ (400 <= status_code r < 600)
    | Raised e =>
        attempt (net (n_req s + n - 1) url) = Raise e /\
        retry_if_exception_type e = false
    | RetryError e =>
        n = 3%nat /\
        attempt (net (n_req s + n - 1) url) = Raise e /\
        retry_if_exception_type e = true
    end.
Proof.
  unfold make_request.
  destruct (retrying_outcome url max_attempt_number 1 s)
    as (n & H1 & H2 & Hreq & Hw & Hj & Ho);
    [unfold max_attempt_number; lia|unfold max_attempt_number; lia|].
  unfold max_attempt_number in H2.
  exists n. split; [lia|]. split; [exact Hreq|]. split; [exact Hw|]. split; [exact Hj|].
  destruct (retrying net max_attempt_number 1 url s).1 as [r|e|e]; [exact Ho|exact Ho|].
  destruct Ho as (Hn & Ho). unfold max_attempt_number in Hn. split; [lia|exact Ho].
Qed.

(** A URL that answers every request with a status from 400 to 599:
    [check_url_status] sends three requests and raises [RetryError]. *)
Lemma check_url_status_of_error_page (url : string) (s : Net) (r : Response) :
  400 <= status_code r < 600 ->
  (forall k, net k url = Answer r) ->
  check_url_status net url s
  = (Raise (TenacityRetryError (HTTPError (status_code r))),
     {| n_req := 3 + n_req s; waits := waits s ++ [wait 1; wait 2] |}).
Proof.
  intros Hr Hnet. unfold check_url_status, make_request.
  cbn [retrying max_attempt_number].
  rewrite !Hnet, !(HttpFacts.attempt_error_status r Hr). simpl.
  unfold slept, sent. simpl. rewrite <- app_assoc. reflexivity.
Qed.

(** X2. [check_url_status] never returns [(False, 0)]. Every
    [RequestException] is of a retried class, so [make_request] raises
    none as it is: after the third failure it raises tenacity's
    [RetryError], which the handler [except RequestException] does not
    catch. The call either returns [True] with a status that is not
    from 400 to 599, or raises; [RetryError] comes after exactly three
    requests. So a URL that answers every request with a status from
    400 to 599 makes the call raise [RetryError] around the
    [HTTPError] of that status. *)
Theorem check_url_status_never_answers_false (url : string) (s : Net) :
  match check_url_status net url s with
  | (Ret (b, code), s') =>
      b = true /\ ~ (400 <= code < 600) /\ (n_req s < n_req s' <= n_req s + 3)%nat
  | (Raise (Exception e), s') =>
      is_RequestException e = false /\ retry_if_exception_type e = false
  | (Raise (TenacityRetryError e), s') =>
      retry_if_exception_type e = true /\ n_req s' = (n_req s + 3)%nat
  end /\
  (forall r, 400 <= status_code r < 600 -> (forall k, net k url = Answer r) ->
     check_url_status net url s
     = (Raise (TenacityRetryError (HTTPError (status_code r))),
        {| n_req := 3 + n_req s; waits := waits s ++ [wait 1; wait 2] |})).
Proof.
  split; [|intros r; apply check_url_status_of_error_page].
  unfold check_url_status.
  destruct (make_request_cases url s) as (n & Hn & Hreq & _ & _ & H).
  destruct (make_request net url s) as [[r|e|e] s']; cbn [fst snd] in *.
  - split; [reflexivity|]. split; [apply H|lia].
  - destruct H as (_ & R).
    assert (is_RequestException e = false) as E
      by (destruct e; simpl in *; congruence).
    rewrite E. split; [exact E|exact R].
  - destruct H as (-> & _ & R). split; [exact R|exact Hreq].
Qed.

(** X3. [download_file] never downloads anything. It calls
    [make_request] with the keyword [stream], which is none of its
    parameters: the call raises [TypeError] before a request is sent,
    the handler catches it, and the answer is [False] for every URL,
    whatever the server would have answered and whether or not the
    file could be written. *)
Theorem download_file_always_fails (url output_path : string) (written : bool)
    (s : Net) :
  ("stream"%string ∉ make_request_parameters) /\
  download_file net url output_path written s = (false, s).
Proof.
  split.
  - refine (bool_decide_unpack _ _). vm_compute. exact I.
  - unfold download_file, call_make_request.
    replace (forallb _ _) with false by (vm_compute; reflexivity). reflexivity.
Qed.

End Requests.

Lemma check_url_status_never_answers_false_witness :
  check_url_status Scenarios.gone_net "https://example.com/missing" Examples.net0
  = (Raise (TenacityRetryError (HTTPError 404)), {| n_req := 3; waits := [wait 1; wait 2] |}).
Proof.
  refine (proj2 (check_url_status_never_answers_false Scenarios.gone_net
                   "https://example.com/missing" Examples.net0)
                Examples.not_found _ _).
  - simpl. lia.
  - reflexivity.
Defined.

End RequestFacts.

(* ===================================================================== *)
(** * More on the sitemap walk *)
(* ===================================================================== *)

Module WalkFacts.

Import Http Parser.

Section Walk.

Variable net : nat -> string -> Wire.
Variable gzip_decompress : bytes -> option bytes.
Variable is_sitemap_index : bytes -> bool.
Variable parse_sitemap_index : bytes -> string -> list string.
Variable parse_sitemap : bytes -> list Entry.

Local Abbreviation fetch_sitemap := (fetch_sitemap net gzip_decompress).
Local Abbreviation process_sitemap :=
  (process_sitemap net gzip_decompress is_sitemap_index parse_sitemap_index parse_sitemap).
Local Abbreviation fetch_and_parse_sitemap :=
  (fetch_and_parse_sitemap net gzip_decompress is_sitemap_index parse_sitemap_index
     parse_sitemap).
Local Abbreviation contribution := (contribution is_sitemap_index parse_sitemap).
Local Abbreviation continues := (continues is_sitemap_index parse_sitemap).
Local Abbreviation references := (references is_sitemap_index parse_sitemap_index).
Local Abbreviation replay := (replay net gzip_decompress).

(** X4. What [fetch_sitemap] hands on is the body of a response that one
    of at most three requests for this URL received, or that body
    decompressed when the response is flagged as gzip; and the status
    of that response is not from 400 to 599. The body of an error page
    is never handed on as a sitemap. *)
Theorem fetch_sitemap_content (u : string) (s : Net) (c : bytes) :
  (fetch_sitemap u s).1 = Some c ->
  exists (r : Response) (j : nat),
    (n_req s <= j < n_req s + 3)%nat /\
    net j u = Answer r /\
    ~ (400 <= status_code r < 600) /\
    (if is_gzipped r u then gzip_decompress (content r) = Some c
     else c = content r).
Proof.
  unfold Parser.fetch_sitemap.
  destruct (RequestFacts.make_request_cases net u s) as (n & Hn & _ & _ & _ & H).
  destruct (make_request net u s) as [[r|e|e] s']; cbn [fst snd] in *;
    [|discriminate..].
  destruct H as (Hnet & Hst). intros Hc.
  exists r, (n_req s + n - 1)%nat. split; [lia|]. split; [exact Hnet|].
  split; [exact Hst|].
  destruct (is_gzipped r u); simpl in Hc; [exact Hc|congruence].
Qed.

Lemma continues_weaken (U U' : gset string) (w w' : Walk) new :
  U ⊆ U' -> continues U w w' new -> continues U' w w' new.
Proof.
  intros HU (L & P & N & F & A & R). unfold Parser.continues.
  split; [exact L|]. split; [exact P|]. split; [exact N|].
  split; [|split; [exact A|exact R]].
  intros x Hx. destruct (F x Hx) as [H1 H2]. split; [exact H1|]. apply HU, H2.
Qed.

Lemma for_each_returned (n : nat) (base : string)
    (IH : forall u w w', process_sitemap n base u w = Some w' ->
          exists new, continues (processed_sitemaps w') w w' new) :
  forall children w w',
    for_each (process_sitemap n base) children w = Some w' ->
    exists new, continues (processed_sitemaps w') w w' new.
Proof.
  induction children as [|c cs IHc]; intros w w'.
  - intros [= <-]. exists []. apply ParserFacts.continues_refl.
  - rewrite ParserFacts.for_each_cons.
    destruct (process_sitemap n base c w) as [w1|] eqn:E1; [|discriminate].
    cbn [mbind option_bind]. intros E2.
    destruct (IH _ _ _ E1) as (new1 & C1). destruct (IHc _ _ E2) as (new2 & C2).
    exists (new1 ++ new2). eapply ParserFacts.continues_trans; [|exact C2].
    eapply continues_weaken; [|exact C1].
    eapply ParserFacts.continues_processed, C2.
Qed.

(** A call that returns, whatever the fuel and whatever the web. *)
Lemma process_sitemap_returned (base : string) (n : nat) :
  forall u w w', process_sitemap n base u w = Some w' ->
    exists new, continues (processed_sitemaps w') w w' new.
Proof.
  induction n as [|n IH]; intros u w w'; [discriminate|].
  rewrite ParserFacts.process_sitemap_eq.
  destruct (decide (u ∈ processed_sitemaps w)) as [Hin|Hnot].
  { intros [= <-]. exists []. apply ParserFacts.continues_refl. }
  cbn zeta.
  set (r := fetch_sitemap u (net_st w)).
  set (w2 := fetched u r (mark u w)).
  assert (u ∈ processed_sitemaps w2) as Hu2 by (simpl; set_solver).
  destruct r.1 as [[|b c]|] eqn:E.
  - intros [= <-]. exists [(u, r.1)].
    apply ParserFacts.first_step; [exact Hu2|exact Hnot|].
    unfold Parser.contribution. simpl. fold r. rewrite E. reflexivity.
  - destruct (is_sitemap_index (b :: c)) eqn:EI.
    + intros H. destruct (for_each_returned n base IH _ _ _ H) as (new & C).
      exists ([(u, r.1)] ++ new). eapply ParserFacts.continues_trans; [|exact C].
      apply ParserFacts.first_step; [|exact Hnot|].
      * eapply ParserFacts.continues_processed; [exact C|exact Hu2].
      * unfold Parser.contribution. simpl. fold r. rewrite E, EI. reflexivity.
    + intros [= <-]. exists [(u, r.1)].
      pose proof (ParserFacts.leaf_step net gzip_decompress is_sitemap_index parse_sitemap
                    (processed_sitemaps w2) u w Hu2 Hnot) as L.
      simpl in L. fold r in L.
      unfold Parser.contribution in L at 1. simpl in L. rewrite E, EI in L.
      rewrite E. exact L.
  - intros [= <-]. exists [(u, r.1)].
    apply ParserFacts.first_step; [exact Hu2|exact Hnot|].
    unfold Parser.contribution. simpl. fold r. rewrite E. reflexivity.
Qed.

Lemma returned_walk_bound (fuel : nat) (root base : string) (s : Net)
    (entries : list Entry) (visited : gset string) (w : Walk) :
  fetch_and_parse_sitemap fuel root base s = Some (entries, visited, w) ->
  (n_req (net_st w) <= n_req s + 3 * size visited)%nat.
Proof.
  unfold Parser.fetch_and_parse_sitemap.
  destruct (process_sitemap fuel base root (init_walk s)) as [w0|] eqn:E; [|discriminate].
  intros [= <- <- <-].
  apply process_sitemap_returned in E as (new & L & P & N & _ & _ & R).
  simpl in L, P, R. subst new.
  assert (processed_sitemaps w0 = list_to_set (fetch_log w0).*1) as ->
    by (rewrite P; set_solver).
  rewrite size_list_to_set, length_fmap by exact N. exact R.
Qed.

(** X5. Whenever the walk of [fetch_and_parse_sitemap] is over within
    the nesting that the fuel allows, on whatever web, finite or not,
    its result is what the network gave to the fetches it made: the
    fetches are the calls of [fetch_sitemap] for
    their URLs, in their order, from the network state at the start;
    the root is fetched first and no URL twice; the set returned is the
    set of the URLs fetched; it holds every child reference of every
    index fetched, and every URL fetched but the root is such a
    reference of an index fetched before it; the entries are what the
    fetched leaves held, in the order of the fetches; and at most
    three HTTP requests were sent per fetch. *)
Theorem returned_walk_is_consistent (fuel : nat) (root base : string) (s : Net)
    (entries : list Entry) (visited : gset string) (w : Walk) :
  fetch_and_parse_sitemap fuel root base s = Some (entries, visited, w) ->
  replay (fetch_log w).*1 s = (fetch_log w, net_st w) /\
  (exists rest, (fetch_log w).*1 = root :: rest) /\
  NoDup (fetch_log w).*1 /\
  visited = list_to_set (fetch_log w).*1 /\
  size visited = length (fetch_log w) /\
  (forall f c, f ∈ fetch_log w -> c ∈ references base f -> c ∈ visited) /\
  (forall i f, fetch_log w !! i = Some f ->
     f.1 = root \/
     exists j g, (j < i)%nat /\ fetch_log w !! j = Some g /\ f.1 ∈ references base g) /\
  entries = flat_map contribution (fetch_log w) /\
  (n_req (net_st w) <= n_req s + 3 * length (fetch_log w))%nat.
Proof.
  intros EW.
  destruct (ParserFacts.returned_walk_explores _ _ _ _ _ _ _ _ _ _ _ _ EW)
    as (R & H0 & C & H).
  unfold Parser.fetch_and_parse_sitemap in EW.
  destruct (process_sitemap fuel base root (init_walk s)) as [w0|] eqn:E; [|discriminate].
  injection EW as <- <- <-.
  apply process_sitemap_returned in E as (new & L & P & N & _ & A & B).
  simpl in L, P, A, B. subst new.
  assert (processed_sitemaps w0 = list_to_set (fetch_log w0).*1) as P'
    by (rewrite P; set_solver).
  split; [exact R|]. split; [exact H0|]. split; [exact N|]. split; [exact P'|].
  split; [rewrite P', size_list_to_set by exact N; apply length_fmap|].
  split; [exact C|]. split; [exact H|]. split; [exact A|exact B].
Qed.

Lemma for_each_leaves (n : nat) (base : string) (doc : string -> bytes) :
  forall children w,
    NoDup children ->
    (forall c, c ∈ children -> c ∉ processed_sitemaps w) ->
    (forall c s, c ∈ children ->
       (fetch_sitemap c s).1 = Some (doc c) /\ falsy (Some (doc c)) = false /\
       is_sitemap_index (doc c) = false) ->
    exists w',
      for_each (process_sitemap (S n) base) children w = Some w' /\
      all_urls w' = all_urls w ++ flat_map (fun c => parse_sitemap (doc c)) children /\
      processed_sitemaps w' = processed_sitemaps w ∪ list_to_set children /\
      fetch_log w' = fetch_log w ++ ((fun c => (c, Some (doc c))) <$> children).
Proof.
  induction children as [|c cs IH]; intros w N Hnew Hleaf.
  - exists w. simpl. rewrite !app_nil_r. split; [reflexivity|]. split; [reflexivity|].
    split; [set_solver|reflexivity].
  - apply NoDup_cons in N as [Hc N].
    destruct (Hleaf c (net_st w) (list_elem_of_here _ _)) as (Ef & Hf & Hi).
    rewrite ParserFacts.for_each_cons, ParserFacts.process_sitemap_eq,
      decide_False by (apply Hnew; left).
    cbn zeta. rewrite Ef. destruct (doc c) as [|b d] eqn:Ed; [discriminate|].
    rewrite Hi. cbn [mbind option_bind].
    set (w1 := extend _ _).
    destruct (IH w1 N) as (w' & E & A & P & L).
    + intros c' Hc'. simpl. intros Hin. apply elem_of_union in Hin as [Hin|Hin].
      * apply elem_of_singleton in Hin. subst c'. contradiction.
      * revert Hin. apply Hnew. right. exact Hc'.
    + intros c' s' Hc'. apply Hleaf. right. exact Hc'.
    + exists w'. split; [exact E|]. split; [|split].
      * rewrite A. simpl. rewrite Ed, app_assoc. reflexivity.
      * rewrite P. simpl. set_solver.
      * rewrite L. simpl. rewrite Ef, Ed, <- app_assoc. reflexivity.
Qed.

(** X7. An index of leaves. When the root is an index whose children are
    distinct leaf sitemaps other than the root, the walk returns, with
    two levels of nesting, the entries of the children concatenated in
    the order the index lists them; the set returned holds the root
    and the children, and each was fetched once, the root first. *)
Theorem flat_index_concatenates_leaves (fuel : nat) (root base : string) (s : Net)
    (idx : bytes) (doc : string -> bytes) :
  (2 <= fuel)%nat ->
  (fetch_sitemap root s).1 = Some idx ->
  falsy (Some idx) = false ->
  is_sitemap_index idx = true ->
  NoDup (parse_sitemap_index idx base) ->
  root ∉ parse_sitemap_index idx base ->
  (forall c s', c ∈ parse_sitemap_index idx base ->
     (fetch_sitemap c s').1 = Some (doc c) /\ falsy (Some (doc c)) = false /\
     is_sitemap_index (doc c) = false) ->
  exists w,
    fetch_and_parse_sitemap fuel root base s
    = Some (flat_map (fun c => parse_sitemap (doc c)) (parse_sitemap_index idx base),
            {[root]} ∪ list_to_set (parse_sitemap_index idx base), w) /\
    fetch_log w
    = (root, Some idx) :: ((fun c => (c, Some (doc c))) <$> parse_sitemap_index idx base).
Proof.
  intros Hfuel Ef Hf Hi N Hroot Hleaf.
  destruct fuel as [|[|n]]; [lia|lia|].
  unfold Parser.fetch_and_parse_sitemap.
  rewrite ParserFacts.process_sitemap_eq, decide_False by (simpl; set_solver).
  cbn zeta. change (net_st (init_walk s)) with s. rewrite Ef.
  destruct idx as [|b d]; [discriminate|]. rewrite Hi.
  set (w2 := fetched root _ _).
  destruct (for_each_leaves n base doc (parse_sitemap_index (b :: d) base) w2 N)
    as (w' & E & A & P & L).
  - intros c Hc. simpl. intros Hin. apply Hroot.
    assert (c = root) as -> by set_solver. exact Hc.
  - exact Hleaf.
  - exists w'. rewrite E. cbn [mbind option_bind]. split.
    + rewrite A, P. simpl. rewrite union_empty_r_L. reflexivity.
    + rewrite L. simpl. rewrite Ef. reflexivity.
Qed.

End Walk.

(** ** Examples *)

Import Examples Scenarios.

Lemma fetch_sitemap_content_witness :
  exists (r : Response) (j : nat),
    (0 <= j < 0 + 3)%nat /\
    net_flaky j root_url = Answer r /\
    ~ (400 <= status_code r < 600) /\
    (if is_gzipped r root_url then gunzip (content r) = Some xml
     else xml = content r).
Proof.
  refine (fetch_sitemap_content net_flaky gunzip root_url net0 xml _).
  reflexivity.
Defined.

Lemma returned_walk_is_consistent_witness :
  let w := {| processed_sitemaps := {[gone_url; gz_url; leaf_url; root_url]};
              all_urls := [entry_a; entry_b];
              net_st := {| n_req := 6; waits := [2; 2] |};
              fetch_log := [(root_url, Some index_doc); (leaf_url, Some leaf_doc);
                            (gz_url, None); (gone_url, None)] |} in
  replay site_net gunzip (fetch_log w).*1 net0 = (fetch_log w, net_st w) /\
  (exists rest, (fetch_log w).*1 = root_url :: rest) /\
  NoDup (fetch_log w).*1 /\
  processed_sitemaps w = list_to_set (fetch_log w).*1 /\
  size (processed_sitemaps w) = length (fetch_log w) /\
  (forall f c, f ∈ fetch_log w -> c ∈ references is_index index_children base f ->
               c ∈ processed_sitemaps w) /\
  (forall i f, fetch_log w !! i = Some f ->
     f.1 = root_url \/
     exists j g, (j < i)%nat /\ fetch_log w !! j = Some g /\
                 f.1 ∈ references is_index index_children base g) /\
  all_urls w = flat_map (contribution is_index leaf_entries) (fetch_log w) /\
  (n_req (net_st w) <= n_req net0 + 3 * length (fetch_log w))%nat.
Proof.
  refine (returned_walk_is_consistent site_net gunzip is_index index_children leaf_entries
            5 root_url base net0 _ _ _ _).
  vm_compute. reflexivity.
Defined.

Lemma flat_leaf (c : string) (s' : Net) :
  c ∈ flat_children index_doc base ->
  (fetch_sitemap flat_net gunzip c s').1 = Some (flat_doc c) /\
  falsy (Some (flat_doc c)) = false /\
  is_index (flat_doc c) = false.
Proof.
  intros Hc. assert (c = leaf_url \/ c = leaf2_url) as [-> | ->].
  { unfold flat_children in Hc. simpl in Hc. set_unfold. naive_solver. }
  - repeat split.
  - repeat split.
Qed.

Lemma flat_children_distinct :
  NoDup (flat_children index_doc base) /\ root_url ∉ flat_children index_doc base.
Proof.
  split; refine (bool_decide_unpack _ _); vm_compute; exact I.
Qed.

Lemma flat_index_concatenates_leaves_witness :
  exists w,
    fetch_and_parse_sitemap flat_net gunzip is_index flat_children flat_entries
      2 root_url base net0
    = Some ([entry_a; entry_b], {[root_url]} ∪ list_to_set [leaf_url; leaf2_url], w) /\
    fetch_log w
    = [(root_url, Some index_doc); (leaf_url, Some leaf_doc); (leaf2_url, Some leaf2_doc)].
Proof.
  refine (flat_index_concatenates_leaves flat_net gunzip is_index flat_children flat_entries
            2 root_url base net0 index_doc flat_doc _ _ _ _
            (proj1 flat_children_distinct) (proj2 flat_children_distinct) flat_leaf).
  - lia.
  - reflexivity.
  - reflexivity.
  - reflexivity.
Defined.

End WalkFacts.

(* ===================================================================== *)
(** * Properties of the flush *)
(* ===================================================================== *)

Module TableFacts.

Import Database Crawler Invariants.

Lemma flush_app (a b : list Op) (d : DB) :
  flush (a ++ b) d = flush a d ≫= flush b.
Proof.
  revert d. induction a as [|o a IH]; intros d; simpl; [reflexivity|].
  destruct (apply_op d o); simpl; [apply IH|reflexivity].
Qed.

Lemma logged_by_app (a b : list Op) : logged_by (a ++ b) = logged_by a ++ logged_by b.
Proof. apply omap_app. Qed.

Lemma existsb_is_page (s : Z) (u : string) (ps : list DiscoveredPage) :
  existsb (is_page s u) ps = true <-> (s, u) ∈ row_key <$> ps.
Proof.
  rewrite existsb_exists, list_elem_of_fmap. split.
  - intros (p & Hp & E). apply CrawlerFacts.is_page_spec in E as [<- <-].
    exists p. split; [reflexivity|]. apply list_elem_of_In, Hp.
  - intros (p & E & Hp). exists p. split; [apply list_elem_of_In, Hp|].
    apply CrawlerFacts.is_page_spec. unfold row_key in E. injection E as -> ->.
    split; reflexivity.
Qed.

Lemma touch_first_keys (s : Z) (u : string) (t : instant) (ps : list DiscoveredPage) :
  row_key <$> touch_first s u t ps = row_key <$> ps.
Proof.
  induction ps as [|p ps IH]; [reflexivity|]. simpl.
  destruct (is_page s u p); rewrite !fmap_cons; [reflexivity|].
  rewrite IH. reflexivity.
Qed.

Lemma touch_first_fixed (s : Z) (u : string) (t : instant) (ps : list DiscoveredPage) :
  fixed_columns <$> touch_first s u t ps = fixed_columns <$> ps.
Proof.
  induction ps as [|p ps IH]; [reflexivity|]. simpl.
  destruct (is_page s u p); rewrite !fmap_cons; [reflexivity|].
  rewrite IH. reflexivity.
Qed.

Lemma touch_first_app (s : Z) (u : string) (t : instant) (ps qs : list DiscoveredPage) :
  is_Some (find (is_page s u) ps) ->
  touch_first s u t (ps ++ qs) = touch_first s u t ps ++ qs.
Proof.
  induction ps as [|p ps IH]; simpl; [intros [x Hx]; discriminate|].
  destruct (is_page s u p); [reflexivity|]. intros H. rewrite IH by exact H. reflexivity.
Qed.

Lemma touch_first_other (s s' : Z) (u : string) (t : instant) (ps : list DiscoveredPage) :
  filter (fun p => monitored_site_id p <> s') (touch_first s u t ps)
  = if decide (s = s') then filter (fun p => monitored_site_id p <> s') ps
    else filter (fun p => monitored_site_id p <> s') (touch_first s u t ps).
Proof.
  destruct (decide (s = s')) as [->|]; [|reflexivity].
  induction ps as [|p ps IH]; [reflexivity|]. simpl.
  destruct (is_page s' u p) eqn:E.
  - apply CrawlerFacts.is_page_spec in E as [E _].
    rewrite !filter_cons. simpl. rewrite !decide_False by (intros H; apply H, E).
    reflexivity.
  - rewrite !filter_cons, IH. reflexivity.
Qed.

Lemma apply_op_unique (d d' : DB) (o : Op) :
  apply_op d o = Some d' -> unique_rows d -> unique_rows d'.
Proof.
  unfold unique_rows. destruct o as [p|s u t|s t|l]; simpl.
  - destruct (existsb _ _) eqn:E; [discriminate|]. intros [= <-] N. simpl.
    rewrite fmap_app. apply NoDup_app. split; [exact N|]. split.
    + intros k Hk Hp. apply list_elem_of_singleton in Hp. subst k.
      apply existsb_is_page in Hk. congruence.
    + apply NoDup_singleton.
  - intros [= <-] N. simpl. rewrite touch_first_keys. exact N.
  - intros [= <-] N. exact N.
  - intros [= <-] N. exact N.
Qed.

Lemma flush_unique (ops : list Op) :
  forall d d', flush ops d = Some d' -> unique_rows d -> unique_rows d'.
Proof.
  induction ops as [|o ops IH]; intros d d'; simpl.
  - intros [= <-] N. exact N.
  - destruct (apply_op d o) as [d1|] eqn:E; simpl; [|discriminate].
    intros Hf N. eapply IH; [exact Hf|]. eapply apply_op_unique; eassumption.
Qed.

Lemma apply_op_appends (d d' : DB) (o : Op) :
  apply_op d o = Some d' ->
  fixed_columns <$> pages d'
  = (fixed_columns <$> pages d) ++ (fixed_columns <$> inserted [o]) /\
  logs d' = logs d ++ logged_by [o].
Proof.
  destruct o as [p|s u t|s t|l]; simpl.
  - destruct (existsb _ _); [discriminate|]. intros [= <-]. simpl.
    rewrite fmap_app, app_nil_r. split; reflexivity.
  - intros [= <-]. simpl. rewrite touch_first_fixed, !app_nil_r. split; reflexivity.
  - intros [= <-]. simpl. rewrite !app_nil_r. split; reflexivity.
  - intros [= <-]. simpl. rewrite !app_nil_r. split; reflexivity.
Qed.

Lemma flush_appends (ops : list Op) :
  forall d d', flush ops d = Some d' ->
    fixed_columns <$> pages d'
    = (fixed_columns <$> pages d) ++ (fixed_columns <$> inserted ops) /\
    logs d' = logs d ++ logged_by ops.
Proof.
  induction ops as [|o ops IH]; intros d d'; cbn [flush].
  - intros [= <-]. rewrite !app_nil_r. split; reflexivity.
  - destruct (apply_op d o) as [d1|] eqn:E; cbn [mbind option_bind]; [|discriminate].
    intros Hf. apply IH in Hf as (P2 & L2). apply apply_op_appends in E as (P1 & L1).
    change (o :: ops) with ([o] ++ ops).
    rewrite CrawlerFacts.inserted_app, logged_by_app, fmap_app, P2, P1, L2, L1, !app_assoc.
    split; reflexivity.
Qed.

Lemma has_row_key (s : Z) (u : string) (ps : list DiscoveredPage) :
  is_Some (find (is_page s u) ps) <-> (s, u) ∈ row_key <$> ps.
Proof.
  rewrite CrawlerFacts.find_is_Some, list_elem_of_fmap. split.
  - intros (p & Hp & E). apply CrawlerFacts.is_page_spec in E as [<- <-]. eauto.
  - intros (p & E & Hp). exists p. split; [exact Hp|].
    apply CrawlerFacts.is_page_spec. unfold row_key in E. injection E as -> ->.
    split; reflexivity.
Qed.

Lemma fixed_keys (a b : list DiscoveredPage) :
  fixed_columns <$> a = fixed_columns <$> b -> row_key <$> a = row_key <$> b.
Proof.
  intros H.
  change row_key with ((fun c : Z * string * option string * instant * Z =>
                          (c.1.1.1.1, c.1.1.1.2)) ∘ fixed_columns).
  rewrite !list_fmap_compose, H. reflexivity.
Qed.

(** A flush of what the diff loop left pending over [d0]: the rows that
    were there stay in place, only their last-seen time may change, and
    the new rows follow them as they were built. *)
Lemma flush_diff_ops (site_id : Z) (d0 : DB) (ops : list Op) :
  forall c d', flush ops c = Some d' -> Forall (diff_op site_id d0) ops ->
    forall old ins, pages c = old ++ ins ->
      fixed_columns <$> old = fixed_columns <$> pages d0 ->
      exists old', pages d' = old' ++ ins ++ inserted ops /\
        fixed_columns <$> old' = fixed_columns <$> pages d0 /\
        sites d' = sites c /\ logs d' = logs c.
Proof.
  induction ops as [|o ops IH]; intros c d'; cbn [flush].
  - intros [= <-] _ old ins Hp Hfix. exists old. rewrite !app_nil_r. auto.
  - destruct (apply_op c o) as [c1|] eqn:E; cbn [mbind option_bind]; [|discriminate].
    intros Hf HF old ins Hp Hfix. apply Forall_cons in HF as [Ho HF].
    destruct o as [p|s u t|s t|l]; simpl in Ho; try contradiction.
    + simpl in E. destruct (existsb _ _); [discriminate|]. injection E as <-.
      destruct (IH _ _ Hf HF old (ins ++ [p])) as (old' & P & Fx & S & L).
      * simpl. rewrite Hp, app_assoc. reflexivity.
      * exact Hfix.
      * exists old'. rewrite P, <- app_assoc. auto.
    + destruct Ho as [-> Hrow]. simpl in E. injection E as <-.
      assert (is_Some (find (is_page site_id u) old)) as Hold.
      { apply has_row_key. rewrite (fixed_keys _ _ Hfix). apply has_row_key, Hrow. }
      destruct (IH _ _ Hf HF (touch_first site_id u t old) ins) as (old' & P & Fx & S & L).
      * simpl. rewrite Hp. apply touch_first_app, Hold.
      * rewrite touch_first_fixed. exact Hfix.
      * exists old'. auto.
Qed.

(** A flush of statements about one site leaves what belongs to the
    other sites as it was. *)
Lemma flush_about (site_id : Z) (ops : list Op) :
  forall d d', flush ops d = Some d' -> Forall (about site_id) ops ->
    other_pages site_id d' = other_pages site_id d /\
    other_logs site_id d' = other_logs site_id d /\
    forall k, k <> site_id -> sites d' !! k = sites d !! k.
Proof.
  induction ops as [|o ops IH]; intros d d'; cbn [flush].
  - intros [= <-] _. auto.
  - destruct (apply_op d o) as [d1|] eqn:E; cbn [mbind option_bind]; [|discriminate].
    intros Hf HF. apply Forall_cons in HF as [Ho HF].
    destruct (IH _ _ Hf HF) as (P & L & S). rewrite P, L.
    assert (other_pages site_id d1 = other_pages site_id d /\
            other_logs site_id d1 = other_logs site_id d /\
            forall k, k <> site_id -> sites d1 !! k = sites d !! k) as (P1 & L1 & S1).
    { unfold other_pages, other_logs.
      destruct o as [p|s u t|s t|l]; simpl in Ho, E.
      - destruct (existsb _ _); [discriminate|]. injection E as <-. simpl.
        rewrite filter_app, filter_cons, decide_False by (intros H; apply H, Ho).
        rewrite filter_nil, app_nil_r. auto.
      - injection E as <-. simpl. subst s.
        rewrite touch_first_other, decide_True by reflexivity. auto.
      - injection E as <-. simpl. subst s. split; [reflexivity|]. split; [reflexivity|].
        intros k Hk. apply lookup_alter_ne. congruence.
      - injection E as <-. simpl.
        rewrite filter_app, filter_cons, decide_False by (intros H; apply H, Ho).
        rewrite filter_nil, app_nil_r. auto. }
    split; [exact P1|]. split; [exact L1|].
    intros k Hk. rewrite S, S1 by exact Hk. reflexivity.
Qed.

(** Two pending rows with the same site and URL cannot be flushed. *)
Lemma flush_duplicate (a b c : list Op) (p q : DiscoveredPage) (d : DB) :
  row_key p = row_key q ->
  flush (a ++ [InsertPage p] ++ b ++ [InsertPage q] ++ c) d = None.
Proof.
  intros K. rewrite flush_app. destruct (flush a d) as [da|]; [|reflexivity].
  cbn [mbind option_bind]. rewrite flush_app.
  destruct (flush [InsertPage p] da) as [dp|] eqn:Ep; [|reflexivity].
  cbn [mbind option_bind]. rewrite flush_app.
  destruct (flush b dp) as [db|] eqn:Eb; [|reflexivity].
  cbn [mbind option_bind app flush].
  assert (has_row (monitored_site_id q) (url q) db) as Hrow.
  { eapply CrawlerFacts.flush_rows; [exact Eb|].
    unfold row_key in K. injection K as <- <-.
    eapply (CrawlerFacts.flush_inserted_rows [InsertPage p]); [exact Ep|]. left. }
  apply has_row_key, existsb_is_page in Hrow.
  unfold apply_op. rewrite Hrow. reflexivity.
Qed.

End TableFacts.

(* ===================================================================== *)
(** * What a cycle commits *)
(* ===================================================================== *)

Module CycleFacts.

Import Http Database Crawler Invariants.

Lemma diff_op_about (site_id : Z) (d : DB) (o : Op) :
  diff_op site_id d o -> about site_id o.
Proof. destruct o; simpl; [intros (H & _)|intros (H & _)|intros []|intros []]; exact H. Qed.

Lemma diff_ops_log_nothing (site_id : Z) (d : DB) (ops : list Op) :
  Forall (diff_op site_id d) ops -> logged_by ops = [].
Proof.
  induction 1 as [|o ops H _ IH]; [reflexivity|].
  destruct o; simpl in H; try contradiction; exact IH.
Qed.

Section Trace.

Variable clock : nat -> instant.
Variable db_fault : nat -> option string.
Variable in_flush : nat -> bool.
Variable deliver : nat -> bool.
Variable net : nat -> string -> Wire.
Variable gzip_decompress : bytes -> option bytes.
Variable is_sitemap_index : bytes -> bool.
Variable parse_sitemap_index : bytes -> string -> list string.
Variable parse_sitemap : bytes -> list Parser.Entry.
Variable github_run_id : option string.
Variable fuel : nat.
Variable site : MonitoredSite.

Local Abbreviation step_of := (step_of clock).
Local Abbreviation finish := (finish clock db_fault in_flush deliver github_run_id).
Local Abbreviation on_exception := (on_exception clock db_fault deliver github_run_id).
Local Abbreviation record_failure := (record_failure clock db_fault deliver github_run_id).
Local Abbreviation walk :=
  (Parser.extract_urls_from_sitemap net gzip_decompress is_sitemap_index
     parse_sitemap_index parse_sitemap fuel).
Local Abbreviation diffing :=
  (diffing clock db_fault net gzip_decompress is_sitemap_index parse_sitemap_index
     parse_sitemap fuel).
Local Abbreviation process_site :=
  (process_site clock db_fault in_flush deliver net gzip_decompress is_sitemap_index
     parse_sitemap_index parse_sitemap github_run_id fuel).
Local Abbreviation success_log := (success_log github_run_id site).
Local Abbreviation failed_log := (failed_log github_run_id site).
Local Abbreviation stage := (stage github_run_id site).

(** The map that [get_existing_urls] builds from a database. *)
Local Abbreviation existing_of d :=
  (foldl (fun result page => <[url page := last_seen_at page]> result)
         (∅ : gmap string instant)
         (filter (fun page => monitored_site_id page = id site) (pages d))).

Local Abbreviation news_notes := (news_notes site).
Local Abbreviation error_notes := (error_notes site).

Local Abbreviation diffing_cases :=
  (CrawlerFacts.diffing_cases clock db_fault net gzip_decompress is_sitemap_index
     parse_sitemap_index parse_sitemap fuel site).
Local Abbreviation finish_cases :=
  (CrawlerFacts.finish_cases clock db_fault in_flush deliver github_run_id site).
Local Abbreviation on_exception_cases :=
  (CrawlerFacts.on_exception_cases clock db_fault deliver github_run_id site).
Local Abbreviation record_failure_cases :=
  (CrawlerFacts.record_failure_cases clock db_fault deliver github_run_id site).

Lemma step_of_diff_ops (d : DB) (lo hi : nat) (entries : list Parser.Entry)
    (oss : list (list Op)) :
  Forall2 (step_of site (existing_of d) d lo hi) entries oss ->
  Forall (diff_op (id site) d) (concat oss).
Proof.
  induction 1 as [|e os entries oss H _ IH]; [constructor|].
  cbn [concat]. apply Forall_app. split; [|exact IH].
  unfold Crawler.step_of in H.
  destruct (decide _) as [Hin|Hnot].
  - destruct (find _ _) as [p|] eqn:Ef.
    + destruct H as (k & _ & ->). constructor; [|constructor].
      simpl. split; [reflexivity|]. unfold has_row. rewrite Ef. eauto.
    + subst os. constructor.
  - destruct H as (k & _ & _ & ->). constructor; [|constructor].
    simpl. split; [reflexivity|]. split; [|split; reflexivity].
    intros Hrow. apply Hnot. apply CrawlerFacts.existing_urls_dom. exact Hrow.
Qed.

(** What [finish] has committed when it raises. *)
Lemma finish_stage (pending : list Op) (start : instant)
    (news : list DiscoveredPage) (w : World) (e : Exn) r' :
  finish pending site start news {| world := w; session_state := new_session |}
  = Some (Raise e, r') ->
  exists part, stage start (length news) pending part /\
    flush part (db w) = Some (db (world r')) /\
    outbox (world r') = outbox w /\ net_w (world r') = net_w w.
Proof.
  intros H. apply finish_cases in H as (N & [(e' & _ & O & H)|(d1 & [=] & _)]).
  unfold Invariants.stage.
  destruct H as [D|(d1 & Hf & [D|[D|D]])].
  - exists []. rewrite D. auto.
  - exists pending. rewrite D. auto 6.
  - exists (pending ++ [TouchSite (id site) (clock (ticks w))]).
    split; [eauto 6|]. split; [|auto].
    rewrite TableFacts.flush_app, Hf, D. reflexivity.
  - exists (pending ++ [TouchSite (id site) (clock (ticks w));
                        InsertLog (success_log start (length news) (clock (S (ticks w))))]).
    split; [eauto 8|]. split; [|auto].
    rewrite TableFacts.flush_app, Hf, D. reflexivity.
Qed.

(** What [process_site] has committed when it ends, however it ends:
    a success, a failure on record, or an exception. *)
Lemma process_site_trace (session : list Op) (w : World) r w' :
  process_site session site w = Some (r, w') ->
  exists ops done,
    Forall (diff_op (id site) (db w)) ops /\
    flush done (db w) = Some (db w') /\
    ((exists t now,
        r = Ret (true, success_message (length (inserted ops)), length (inserted ops)) /\
        done = (session ++ ops)
               ++ [TouchSite (id site) t;
                   InsertLog (success_log (clock (ticks w))
                                (length (inserted ops)) now)] /\
        outbox w' = outbox w ++ news_notes (inserted ops)) \/
     (exists e part now,
        stage (clock (ticks w)) (length (inserted ops)) (session ++ ops) part /\
        done = part ++ [InsertLog (failed_log (clock (ticks w)) e now)] /\
        outbox w' = outbox w ++ error_notes e /\
        r = Ret (false, failed_message e, 0%nat)) \/
     (exists x, r = Raise x /\
        stage (clock (ticks w)) (length (inserted ops)) (session ++ ops) done /\
        outbox w' = outbox w)).
Proof.
  rewrite CrawlerFacts.process_site_eq.
  assert (forall e w1, db w1 = db w -> outbox w1 = outbox w ->
            record_failure site (clock (ticks w)) e w1 = Some (r, w') ->
            exists ops done,
              Forall (diff_op (id site) (db w)) ops /\
              flush done (db w) = Some (db w') /\
              ((exists t now,
                  r = Ret (true, success_message (length (inserted ops)),
                           length (inserted ops)) /\
                  done = (session ++ ops)
                         ++ [TouchSite (id site) t;
                             InsertLog (success_log (clock (ticks w))
                                          (length (inserted ops)) now)] /\
                  outbox w' = outbox w ++ news_notes (inserted ops)) \/
               (exists e part now,
                  stage (clock (ticks w)) (length (inserted ops)) (session ++ ops) part /\
                  done = part ++ [InsertLog (failed_log (clock (ticks w)) e now)] /\
                  outbox w' = outbox w ++ error_notes e /\
                  r = Ret (false, failed_message e, 0%nat)) \/
               (exists x, r = Raise x /\
                  stage (clock (ticks w)) (length (inserted ops)) (session ++ ops) done /\
                  outbox w' = outbox w))) as Early.
  { intros e w1 D O H. pose proof (record_failure_cases (clock (ticks w)) e w1) as C.
    destruct (db_fault (db_ops w1)).
    - rewrite C in H. injection H as <- <-. exists [], []. split; [constructor|].
      split; [simpl; rewrite D; reflexivity|]. right. right. eexists.
      split; [reflexivity|]. split; [left; reflexivity|exact O].
    - destruct C as (w2 & E & D2 & O2 & _). rewrite E in H. injection H as <- <-.
      exists [], [InsertLog (failed_log (clock (ticks w)) e (clock (ticks w1)))].
      split; [constructor|]. split; [simpl; rewrite D2, D; reflexivity|].
      right. left. exists e, [], (clock (ticks w1)). split; [left; reflexivity|].
      split; [reflexivity|]. split; [rewrite O2, O; reflexivity|reflexivity]. }
  destruct (diffing_cases session (ticked w))
    as [(msg & _ & E)|[(_ & _ & E)|(entries & s & _ & HW & [H|H])]].
  - rewrite E. apply Early; reflexivity.
  - rewrite E. discriminate.
  - destruct H as (oss & wc & E & F & (D & N & O & T & _) & _). rewrite E.
    simpl in D, O, F.
    assert (Forall (diff_op (id site) (db w)) (concat oss)) as FD
      by (eapply step_of_diff_ops, F).
    destruct (finish _ site _ _ _) as [[[a|e] r2]|] eqn:EF; [| |discriminate].
    + intros [= <- <-].
      apply finish_cases in EF as (_ & [(e & [=] & _)|(d1 & -> & Hf & Hdb & Ho)]).
      exists (concat oss), ((session ++ concat oss)
                            ++ [TouchSite (id site) (clock (ticks wc));
                                InsertLog (success_log (clock (ticks w))
                                             (length (inserted (concat oss)))
                                             (clock (S (ticks wc))))]).
      split; [exact FD|]. split.
      * rewrite TableFacts.flush_app, <- D, Hf. simpl. rewrite Hdb. reflexivity.
      * left. eexists _, _. split; [reflexivity|]. split; [reflexivity|].
        rewrite Ho, O. reflexivity.
    + apply finish_stage in EF as (part & St & Hfl & Ho & _).
      rewrite D in Hfl. rewrite O in Ho.
      destruct (on_exception site (clock (ticks w)) e r2) as [[res r3]|] eqn:EH;
        [|discriminate].
      intros [= <- <-].
      apply on_exception_cases in EH as (_ & [(x & -> & D3 & O3)|(now & -> & D3 & O3)]).
      * exists (concat oss), part. split; [exact FD|].
        split; [rewrite D3; exact Hfl|]. right. right. exists x.
        split; [reflexivity|]. split; [exact St|]. rewrite O3. exact Ho.
      * exists (concat oss), (part ++ [InsertLog (failed_log (clock (ticks w)) e now)]).
        split; [exact FD|]. split.
        -- rewrite TableFacts.flush_app, Hfl. simpl. rewrite D3. reflexivity.
        -- right. left. exists e, part, now. split; [exact St|].
           split; [reflexivity|]. split; [rewrite O3, Ho; reflexivity|reflexivity].
  - destruct H as (msg & wc & k & E & (D & _ & O & _) & _). rewrite E.
    apply Early; [exact D|exact O].
Qed.

Lemma stage_about (start : instant) (n : nat) (ops done : list Op) (d : DB) :
  Forall (diff_op (id site) d) ops -> stage start n ops done ->
  Forall (about (id site)) done.
Proof.
  intros F H.
  assert (Forall (about (id site)) ops) as A
    by (eapply Forall_impl; [exact F|apply diff_op_about]).
  destruct H as [->|[->|[(t & ->)|(t & now & ->)]]].
  - constructor.
  - exact A.
  - apply Forall_app. split; [exact A|]. constructor; [reflexivity|constructor].
  - apply Forall_app. split; [exact A|].
    constructor; [reflexivity|]. constructor; [reflexivity|constructor].
Qed.

(** The history records of a stage: none, or the success record. *)
Lemma stage_logs (start : instant) (n : nat) (ops done : list Op) (d : DB) :
  Forall (diff_op (id site) d) ops -> stage start n ops done ->
  logged_by done = [] \/ exists now, logged_by done = [success_log start n now].
Proof.
  intros F H. pose proof (diff_ops_log_nothing _ _ _ F) as L.
  destruct H as [->|[->|[(t & ->)|(t & now & ->)]]].
  - left. reflexivity.
  - left. exact L.
  - left. rewrite TableFacts.logged_by_app, L. reflexivity.
  - right. exists now. rewrite TableFacts.logged_by_app, L. reflexivity.
Qed.

(** X10. A cycle for one site, entered with an empty session, leaves the
    pages, the history and the configuration of every other site as
    they were, however it ends. *)
Theorem process_site_leaves_other_sites_alone (w : World) r w' :
  process_site [] site w = Some (r, w') ->
  other_pages (id site) (db w') = other_pages (id site) (db w) /\
  other_logs (id site) (db w') = other_logs (id site) (db w) /\
  forall k, k <> id site -> sites (db w') !! k = sites (db w) !! k.
Proof.
  intros H. apply process_site_trace in H as (ops & done & F & Hfl & H).
  eapply TableFacts.flush_about; [exact Hfl|].
  assert (Forall (about (id site)) ops) as A
    by (eapply Forall_impl; [exact F|apply diff_op_about]).
  destruct H as [(t & now & _ & -> & _)|[(e & part & now & St & -> & _)|(x & _ & St & _)]].
  - apply Forall_app. split; [exact A|].
    constructor; [reflexivity|]. constructor; [reflexivity|constructor].
  - apply Forall_app. split; [eapply stage_about; eassumption|].
    constructor; [reflexivity|constructor].
  - eapply stage_about; eassumption.
Qed.

(** X11. The history that a cycle, entered with an empty session,
    leaves. A cycle that returns success has added one record, the
    success record with the count it reports. A cycle that returns
    failure has added the failed record with the error text, last; a
    cycle that raises has added no failed record. Before the failed
    record, or when the cycle raised, the success record of the same
    cycle may be there already: the exception then came after the
    history write, from the reads of the site or of the new pages for
    the notification. *)
Theorem cycle_history_records (w : World) r w' :
  process_site [] site w = Some (r, w') ->
  exists before,
    (before = [] \/ exists k t, before = [success_log (clock (ticks w)) k t]) /\
    match r with
    | Ret (true, m, n) =>
        exists now,
          logs (db w') = logs (db w) ++ [success_log (clock (ticks w)) n now] /\
          before = []
    | Ret (false, m, n) =>
        n = 0%nat /\
        exists e now,
          m = failed_message e /\
          logs (db w')
          = logs (db w) ++ before ++ [failed_log (clock (ticks w)) e now]
    | Raise _ => logs (db w') = logs (db w) ++ before
    end.
Proof.
  intros H. apply process_site_trace in H as (ops & done & F & Hfl & H).
  apply TableFacts.flush_appends in Hfl as (_ & L). rewrite L.
  pose proof (diff_ops_log_nothing _ _ _ F) as L0.
  destruct H as [(t & now & -> & -> & _)|[(e & part & now & St & -> & _ & ->)|(x & -> & St & _)]].
  - exists []. split; [left; reflexivity|]. exists now.
    cbn [app]. rewrite TableFacts.logged_by_app, L0. split; reflexivity.
  - destruct (stage_logs _ _ _ _ _ F St) as [L1|(t & L1)];
      rewrite TableFacts.logged_by_app, L1.
    + exists []. split; [left; reflexivity|]. split; [reflexivity|].
      exists e, now. split; reflexivity.
    + exists [success_log (clock (ticks w)) (length (inserted ops)) t].
      split; [right; eauto|]. split; [reflexivity|].
      exists e, now. split; reflexivity.
  - destruct (stage_logs _ _ _ _ _ F St) as [L1|(t & L1)]; rewrite L1.
    + exists []. split; [left; reflexivity|reflexivity].
    + exists [success_log (clock (ticks w)) (length (inserted ops)) t].
      split; [right; eauto|reflexivity].
Qed.

(** X12. A cycle that returns success, entered with an empty session, has
    added as many rows as it reports. The rows that were there are in
    place, with the site, URL, title, first-discovered time and
    processed flag that they had; the new rows follow them, each for
    this site and for a URL that had no row, with no title and the
    processed flag at 0; the site's last-crawled time is set; and one
    message, with exactly the new rows, has gone to the notifier when
    there are new rows and the site has notifications enabled, and
    none otherwise. *)
Theorem success_counts_the_rows_added (w : World) (m : string) (n : nat) w' :
  process_site [] site w = Some (Ret (true, m, n), w') ->
  exists old news t,
    pages (db w') = old ++ news /\
    fixed_columns <$> old = fixed_columns <$> pages (db w) /\
    length news = n /\
    Forall (fun p => monitored_site_id p = id site /\
                     ~ has_row (id site) (url p) (db w) /\
                     page_title p = None /\ is_processed p = 0) news /\
    m = success_message n /\
    sites (db w') = alter (crawled t) (id site) (sites (db w)) /\
    outbox w' = outbox w ++ news_notes news.
Proof.
  intros H. apply process_site_trace in H as (ops & done & F & Hfl & H).
  destruct H as [(t & now & [= -> ->] & -> & Ho)
                |[(e & part & now & _ & _ & _ & [=])|(x & [=] & _)]].
  simpl in Hfl. rewrite TableFacts.flush_app in Hfl.
  destruct (flush ops (db w)) as [d1|] eqn:E1; [|discriminate].
  simpl in Hfl. injection Hfl as Hdb.
  destruct (TableFacts.flush_diff_ops (id site) (db w) ops (db w) d1 E1 F (pages (db w)) [])
    as (old & P & Fx & S & _); [rewrite app_nil_r; reflexivity|reflexivity|].
  exists old, (inserted ops), t. rewrite <- Hdb. simpl. rewrite S.
  split; [exact P|]. split; [exact Fx|]. split; [reflexivity|].
  split; [|split; [reflexivity|split; [reflexivity|exact Ho]]].
  clear -F. induction F as [|o ops Ho _ IH]; [constructor|].
  destruct o as [p| | |]; simpl in Ho; try contradiction; try exact IH.
  constructor; [exact Ho|exact IH].
Qed.

Lemma step_of_duplicate (S : gmap string instant) (d : DB) (lo hi : nat)
    (E1 E2 E3 : list Parser.Entry) (e1 e2 : Parser.Entry) (oss : list (list Op)) :
  Forall2 (step_of site S d lo hi) (E1 ++ e1 :: E2 ++ e2 :: E3) oss ->
  Parser.url e1 = Parser.url e2 -> Parser.url e1 ∉ dom S ->
  forall c, flush (concat oss) c = None.
Proof.
  intros H Hu Hn c.
  apply Forall2_app_inv_l in H as (o1 & r1 & _ & H & ->).
  apply Forall2_cons_inv_l in H as (os1 & r2 & S1 & H & ->).
  apply Forall2_app_inv_l in H as (o2 & r3 & _ & H & ->).
  apply Forall2_cons_inv_l in H as (os2 & o3 & S2 & _ & ->).
  unfold Crawler.step_of in S1, S2. rewrite <- Hu in S2.
  rewrite decide_False in S1, S2 by exact Hn.
  destruct S1 as (k1 & _ & _ & ->). destruct S2 as (k2 & _ & _ & ->).
  rewrite concat_app. cbn [concat]. rewrite concat_app. cbn [concat].
  apply TableFacts.flush_duplicate. reflexivity.
Qed.

(** X13. A sitemap that lists a new URL twice makes the cycle raise, and
    nothing of the cycle is recorded. Both entries become pending
    rows and the unique constraint refuses the flush of the commit at
    line 302: no page is committed, not even the other new ones, and
    the last-crawled time is not written. The failed flush has rolled
    the transaction back, the site object is expired and the session
    waits for a [rollback()] that [process_site] does not call; so the
    [except] branch, which starts by reading the name of the site,
    raises [PendingRollbackError] before it has written the failed
    record or sent the error message that it is there to write and
    send. *)
Theorem duplicate_new_url_fails_the_cycle (w : World)
    (E1 E2 E3 : list Parser.Entry) (e1 e2 : Parser.Entry) (s : Net) :
  (forall k, (db_ops w <= k)%nat -> db_fault k = None) ->
  walk (sitemap_url site) (base_url site) (net_w w)
  = Some (E1 ++ e1 :: E2 ++ e2 :: E3, s) ->
  Parser.url e1 = Parser.url e2 ->
  ~ has_row (id site) (Parser.url e1) (db w) ->
  exists w',
    process_site [] site w = Some (Raise pending_rollback, w') /\
    db w' = db w /\
    outbox w' = outbox w.
Proof.
  intros Hok HW Hu Hn. rewrite CrawlerFacts.process_site_eq.
  destruct (diffing_cases [] (ticked w))
    as [(msg & Hf & _)|[(_ & HN & _)|(entries & s' & _ & HW' & [H|H])]].
  - simpl in Hf. rewrite Hok in Hf by lia. discriminate.
  - simpl in HN. rewrite HW in HN. discriminate.
  - simpl in HW'. rewrite HW in HW'. injection HW' as <- <-.
    destruct H as (oss & wc & E & F & (D & N & O & T & Cn) & C). rewrite E.
    simpl in D, O, Cn, F.
    assert (flush (concat oss) (db wc) = None) as Hfl.
    { apply (step_of_duplicate _ _ _ _ _ _ _ _ _ _ F Hu).
      intros Hin. apply Hn. apply CrawlerFacts.existing_urls_dom in Hin. exact Hin. }
    unfold Crawler.finish, bind at 1, committing at 1, commit. cbn [app].
    cbn [session_state world refusal new_session].
    rewrite (Hok (db_ops wc)) by lia. rewrite Hfl.
    unfold after_failed_commit. rewrite CrawlerFacts.on_exception_refused.
    eexists. split; [reflexivity|]. simpl. split; assumption.
  - simpl in HW'. destruct H as (msg & wc & k & _ & _ & Hk & Hf).
    simpl in Hk. rewrite Hok in Hf by lia. discriminate.
Qed.

(** X14. A sitemap that cannot be fetched at all (the request failed after
    the retries, decompression failed, or the body was empty) does not
    make the cycle fail: with a database that does not fail the cycle
    returns success with 0 new pages, sets the site's last-crawled
    time, records "success" in the history and notifies nobody. The
    page table is not touched. *)
Theorem unreachable_sitemap_counts_as_success (w : World) :
  (forall k, (db_ops w <= k)%nat -> db_fault k = None) ->
  (0 < fuel)%nat ->
  Parser.falsy (Parser.fetch_sitemap net gzip_decompress (sitemap_url site) (net_w w)).1
  = true ->
  exists w',
    process_site [] site w = Some (Ret (true, success_message 0, 0%nat), w') /\
    db w' = logged (success_log (clock (ticks w)) 0 (clock (S (S (ticks w)))))
              (site_crawled (id site) (clock (S (ticks w))) (db w)) /\
    outbox w' = outbox w.
Proof.
  intros Hok Hfuel Hfalsy.
  destruct fuel as [|n] eqn:Efuel; [lia|].
  rewrite CrawlerFacts.process_site_eq, CrawlerFacts.diffing_eq.
  cbn [db_ops ticked net_w db]. rewrite (Hok (db_ops w)) by lia.
  unfold Parser.extract_urls_from_sitemap, Parser.fetch_and_parse_sitemap.
  rewrite ParserFacts.process_sitemap_failed; [|set_solver|exact Hfalsy].
  cbn [mbind option_bind fst snd Parser.all_urls Parser.fetched Parser.mark
         Parser.init_walk Parser.net_st].
  unfold Crawler.diff_loop. cbn [for_loop ret].
  match goal with
  | |- context [Crawler.finish _ _ _ _ _ _ _ _ _ ?r] =>
      destruct (CrawlerFacts.finish_ok clock db_fault in_flush deliver github_run_id
                  site [] (clock (ticks w)) [] (world r) (db w))
        as (r' & Hfin & Hdb & Ho & _)
  end.
  { intros k Hk. apply Hok. simpl in Hk. lia. }
  { reflexivity. }
  simpl in Hfin. rewrite Hfin. exists (world r'). split; [reflexivity|].
  split; [exact Hdb|]. rewrite Ho. simpl. apply app_nil_r.
Qed.

Lemma existing_lookup (l : list DiscoveredPage) :
  (forall p q, p ∈ l -> q ∈ l -> url p = url q -> last_seen_at p = last_seen_at q) ->
  forall (m : gmap string instant) (u : string) (t : instant),
    foldl (fun result page => <[url page := last_seen_at page]> result) m l !! u = Some t
    <-> (exists p, p ∈ l /\ url p = u /\ last_seen_at p = t) \/
        ((forall p, p ∈ l -> url p <> u) /\ m !! u = Some t).
Proof.
  induction l as [|q l IH]; intros Hfun m u t; simpl.
  - split; [intros H; right; split; [intros p Hp; inversion Hp|exact H]|].
    intros [(p & Hp & _)|[_ H]]; [inversion Hp|exact H].
  - rewrite IH by (intros p1 p2 H1 H2; apply Hfun; right; assumption). split.
    + intros [(p & Hp & Hu & Ht)|[Hno Hm]].
      * left. exists p. split; [right; exact Hp|auto].
      * destruct (decide (url q = u)) as [Hq|Hq].
        -- rewrite Hq, lookup_insert_eq in Hm. injection Hm as Hm.
           left. exists q. split; [left|auto].
        -- rewrite lookup_insert_ne in Hm by exact Hq. right. split; [|exact Hm].
           intros p Hp. apply elem_of_cons in Hp as [->|Hp]; [exact Hq|apply Hno, Hp].
    + intros [(p & Hp & Hu & Ht)|[Hno Hm]].
      * apply elem_of_cons in Hp as [->|Hp]; [|left; eauto].
        destruct (decide (u ∈ url <$> l)) as [Hin|Hnin].
        -- apply list_elem_of_fmap in Hin as (p' & Hu' & Hp'). left. exists p'.
           split; [exact Hp'|]. split; [auto|].
           rewrite <- Ht. symmetry. apply Hfun; [left|right; exact Hp'|congruence].
        -- right. split.
           ++ intros p' Hp' Hu'. apply Hnin. apply list_elem_of_fmap. eauto.
           ++ rewrite <- Hu, lookup_insert_eq, Ht. reflexivity.
      * right. split; [intros p Hp; apply Hno; right; exact Hp|].
        rewrite lookup_insert_ne by (apply Hno; left). exact Hm.
Qed.

Lemma unique_rows_inj (ps : list DiscoveredPage) :
  NoDup (row_key <$> ps) ->
  forall p q, p ∈ ps -> q ∈ ps -> row_key p = row_key q -> p = q.
Proof.
  induction ps as [|a ps IH]; intros N p q Hp Hq K; [inversion Hp|].
  rewrite fmap_cons in N. apply NoDup_cons in N as [Ha N].
  apply elem_of_cons in Hp as [->|Hp]; apply elem_of_cons in Hq as [->|Hq].
  - reflexivity.
  - exfalso. apply Ha. rewrite K. apply list_elem_of_fmap. eauto.
  - exfalso. apply Ha. rewrite <- K. apply list_elem_of_fmap. eauto.
  - apply IH; assumption.
Qed.

(** X15. [get_existing_urls] reads the table once. Its keys are exactly the
    URLs that have a row for the site, rows of other sites do not
    count; and when the unique constraint holds of the table, the value
    at a URL is the last-seen time of the site's row for it. *)
Theorem get_existing_urls_lookup (site_id : Z) (w : World) :
  db_fault (db_ops w) = None ->
  exists m,
    get_existing_urls db_fault site_id w = Some (Ret m, called_db w) /\
    (forall u, u ∈ dom m <-> has_row site_id u (db w)) /\
    (unique_rows (db w) ->
     forall u t, m !! u = Some t <->
       exists p, p ∈ pages (db w) /\ monitored_site_id p = site_id /\
                 url p = u /\ last_seen_at p = t).
Proof.
  intros Hok. unfold get_existing_urls, query. rewrite Hok.
  eexists. split; [reflexivity|]. split.
  - intros u. apply CrawlerFacts.existing_urls_dom.
  - intros N u t. rewrite existing_lookup.
    + split.
      * intros [(p & Hp & Hu & Ht)|[_ Hm]]; [|rewrite lookup_empty in Hm; discriminate].
        apply list_elem_of_filter in Hp as [Hs Hp]. eauto.
      * intros (p & Hp & Hs & Hu & Ht). left. exists p.
        split; [apply list_elem_of_filter; split; assumption|auto].
    + intros p q Hp Hq Hu.
      apply list_elem_of_filter in Hp as [Hsp Hp].
      apply list_elem_of_filter in Hq as [Hsq Hq].
      rewrite (unique_rows_inj _ N p q Hp Hq); [reflexivity|].
      unfold row_key. rewrite Hsp, Hsq, Hu. reflexivity.
Qed.

Lemma step_of_timed (S : gmap string instant) (d : DB) (lo hi : nat)
    (entries : list Parser.Entry) (oss : list (list Op)) :
  Forall2 (step_of site S d lo hi) entries oss ->
  Forall (timed_op clock lo hi) (concat oss).
Proof.
  induction 1 as [|e os entries oss H _ IH]; [constructor|].
  cbn [concat]. apply Forall_app. split; [|exact IH].
  unfold Crawler.step_of in H. destruct (decide _).
  - destruct (find _ _).
    + destruct H as (k & Hk & ->). constructor; [|constructor]. exists k. auto.
    + subst os. constructor.
  - destruct H as (k & Hk1 & Hk2 & ->). constructor; [|constructor].
    exists k. simpl. auto.
Qed.

Lemma refreshed_refl (lo hi : nat) (ps : list DiscoveredPage) :
  Forall2 (refreshed clock lo hi) ps ps.
Proof. apply Forall_Forall2_diag, Forall_forall. intros p _. split; auto. Qed.

Lemma refreshed_trans (lo hi : nat) (a b c : list DiscoveredPage) :
  Forall2 (refreshed clock lo hi) a b -> Forall2 (refreshed clock lo hi) b c ->
  Forall2 (refreshed clock lo hi) a c.
Proof.
  intros H. revert c. induction H as [|x y a b (F1 & T1) _ IH]; intros c Hc.
  - inversion Hc. constructor.
  - apply Forall2_cons_inv_l in Hc as (z & c' & (F2 & T2) & Hc & ->).
    constructor; [|apply IH, Hc]. split; [congruence|].
    destruct T2 as [T2|T2]; [|right; exact T2].
    rewrite T2. exact T1.
Qed.

Lemma touch_first_refreshed (lo hi : nat) (s : Z) (u : string) (t : instant)
    (ps : list DiscoveredPage) :
  read_between clock lo hi t ->
  Forall2 (refreshed clock lo hi) ps (touch_first s u t ps).
Proof.
  intros Ht. induction ps as [|p ps IH]; [constructor|]. simpl.
  destruct (is_page s u p).
  - constructor; [|apply refreshed_refl]. split; [reflexivity|]. right. exact Ht.
  - constructor; [|exact IH]. split; auto.
Qed.

Lemma refreshed_fixed (lo hi : nat) (a b : list DiscoveredPage) :
  Forall2 (refreshed clock lo hi) a b -> fixed_columns <$> b = fixed_columns <$> a.
Proof.
  induction 1 as [|x y a b (F & _) _ IH]; [reflexivity|].
  rewrite !fmap_cons, F, IH. reflexivity.
Qed.

(** A flush of what the diff loop left pending, with the times. *)
Lemma flush_timed (d0 : DB) (lo hi : nat) (ops : list Op) :
  forall c d', flush ops c = Some d' ->
    Forall (diff_op (id site) d0) ops -> Forall (timed_op clock lo hi) ops ->
    forall old ins, pages c = old ++ ins ->
      fixed_columns <$> old = fixed_columns <$> pages d0 ->
      exists old', pages d' = old' ++ ins ++ inserted ops /\
        Forall2 (refreshed clock lo hi) old old'.
Proof.
  induction ops as [|o ops IH]; intros c d'; cbn [flush].
  - intros [= <-] _ _ old ins Hp Hfix. exists old. rewrite !app_nil_r.
    split; [exact Hp|apply refreshed_refl].
  - destruct (apply_op c o) as [c1|] eqn:E; cbn [mbind option_bind]; [|discriminate].
    intros Hf HF HT old ins Hp Hfix.
    apply Forall_cons in HF as [Ho HF]. apply Forall_cons in HT as [Hto HT].
    destruct o as [p|s u t|s t|l]; simpl in Ho; try contradiction.
    + simpl in E. destruct (existsb _ _); [discriminate|]. injection E as <-.
      destruct (IH _ _ Hf HF HT old (ins ++ [p])) as (old' & P & R).
      * simpl. rewrite Hp, app_assoc. reflexivity.
      * exact Hfix.
      * exists old'. rewrite P, <- app_assoc. auto.
    + destruct Ho as [-> Hrow]. simpl in E. injection E as <-. simpl in Hto.
      assert (is_Some (find (is_page (id site) u) old)) as Hold.
      { apply TableFacts.has_row_key. rewrite (TableFacts.fixed_keys _ _ Hfix).
        apply TableFacts.has_row_key, Hrow. }
      destruct (IH _ _ Hf HF HT (touch_first (id site) u t old) ins) as (old' & P & R).
      * simpl. rewrite Hp. apply TableFacts.touch_first_app, Hold.
      * rewrite TableFacts.touch_first_fixed. exact Hfix.
      * exists old'. split; [exact P|].
        eapply refreshed_trans; [apply touch_first_refreshed, Hto|exact R].
Qed.

(** A successful cycle, with the times it wrote. *)
Lemma process_site_success_times (w : World) (m : string) (n : nat) w' :
  process_site [] site w = Some (Ret (true, m, n), w') ->
  exists ops hi d1,
    (S (ticks w) <= hi)%nat /\
    Forall (diff_op (id site) (db w)) ops /\
    Forall (timed_op clock (S (ticks w)) hi) ops /\
    flush ops (db w) = Some d1 /\
    n = length (inserted ops) /\
    db w' = logged (success_log (clock (ticks w)) n (clock (S hi)))
              (site_crawled (id site) (clock hi) d1).
Proof.
  intros H.
  apply (CrawlerFacts.process_site_success clock db_fault in_flush deliver net
           gzip_decompress is_sitemap_index parse_sitemap_index parse_sitemap
           github_run_id fuel site) in H
    as (entries & s & oss & hi & d1 & _ & F & Hhi & Hf & Hn & _ & Hdb & _).
  exists (concat oss), hi, d1. split; [exact Hhi|].
  split; [eapply step_of_diff_ops, F|]. split; [eapply step_of_timed, F|].
  split; [exact Hf|]. split; [exact Hn|exact Hdb].
Qed.

(** X16. The times that a successful cycle writes are in order when the
    clock does not go back. The record's start time is the first
    reading of the cycle; the two times of every new row, and the
    last-seen time of every row that was refreshed, are not before it
    and not after the site's new last-crawled time; and that is not
    after the record's end time. A row that was there keeps its site,
    URL, title, first-discovered time and processed flag, and keeps
    its last-seen time unless it was refreshed. *)
Theorem cycle_times_are_ordered (w : World) (m : string) (n : nat) w' :
  (forall i j, (i <= j)%nat -> clock i <= clock j) ->
  process_site [] site w = Some (Ret (true, m, n), w') ->
  exists old news t l e,
    pages (db w') = old ++ news /\ length news = n /\
    sites (db w') = alter (crawled t) (id site) (sites (db w)) /\
    logs (db w') = logs (db w) ++ [l] /\
    start_time l = clock (ticks w) /\ end_time l = Some e /\
    start_time l <= t <= e /\
    Forall (fun p => start_time l <= first_discovered_at p <= last_seen_at p /\
                     last_seen_at p <= t) news /\
    Forall2 (fun p0 p => fixed_columns p = fixed_columns p0 /\
                         (last_seen_at p = last_seen_at p0 \/
                          start_time l <= last_seen_at p <= t))
            (pages (db w)) old.
Proof.
  intros Hmono H.
  apply process_site_success_times in H as (ops & hi & d1 & Hhi & F & T & Hf & -> & Hdb).
  destruct (flush_timed (db w) (S (ticks w)) hi ops (db w) d1 Hf F T (pages (db w)) [])
    as (old & P & R); [rewrite app_nil_r; reflexivity|reflexivity|].
  destruct (TableFacts.flush_diff_ops (id site) (db w) ops (db w) d1 Hf F (pages (db w)) [])
    as (old2 & _ & _ & HS & L); [rewrite app_nil_r; reflexivity|reflexivity|].
  exists old, (inserted ops), (clock hi),
    (success_log (clock (ticks w)) (length (inserted ops)) (clock (S hi))), (clock (S hi)).
  rewrite Hdb. simpl. rewrite HS, L.
  split; [exact P|]. do 5 (split; [reflexivity|]).
  split; [split; apply Hmono; lia|]. split.
  - clear -T Hmono Hhi. induction T as [|o ops Ho _ IH]; [constructor|].
    destruct o as [p| | |]; try exact IH. constructor; [|exact IH].
    destruct Ho as (k & Hk1 & Hk2 & -> & ->).
    split; [split|]; apply Hmono; lia.
  - eapply Forall2_impl; [exact R|].
    intros p0 p (Fx & [E|(k & Hk & E)]); (split; [exact Fx|]); [left; exact E|].
    right. rewrite E. split; apply Hmono; lia.
Qed.

(** X17. However a cycle ends, at most one message has gone from it to
    [send_text] of the notifier, and none for a site whose
    notifications are disabled. A message about new pages goes with
    the success outcome, lists at least one page and as many as the
    cycle reports; an error message goes with a failure outcome. A
    call of [send_new_pages_notification] that raises while it reads
    the pages has sent nothing, and the error message follows it. *)
Theorem cycle_notifies_at_most_once (session : list Op) (w : World) r w' :
  process_site session site w = Some (r, w') ->
  exists notes,
    outbox w' = outbox w ++ notes /\
    (length notes <= 1)%nat /\
    (is_notification_enabled site = 0 -> notes = []) /\
    forall note, note ∈ notes ->
      match note with
      | NewPages s ps =>
          s = id site /\ ps <> [] /\
          exists m, r = Ret (true, m, length ps)
      | ErrorNote s _ =>
          s = id site /\
          match r with Ret (b, _, _) => b = false | Raise _ => True end
      end.
Proof.
  intros H. apply process_site_trace in H as (ops & done & _ & _ & H).
  destruct H as [(t & now & -> & _ & Ho)|[(e & part & now & _ & _ & Ho & ->)|(x & -> & _ & Ho)]].
  - exists (news_notes (inserted ops)). split; [exact Ho|].
    unfold Invariants.news_notes.
    destruct (bool_decide (inserted ops <> [])) eqn:E1;
      destruct (bool_decide (is_notification_enabled site <> 0)) eqn:E2; simpl;
      try (split; [lia|]; split; [reflexivity|]; intros note Hn; inversion Hn).
    split; [lia|]. split.
    + intros Hz. apply bool_decide_eq_true in E2. contradiction.
    + intros note Hn. apply list_elem_of_singleton in Hn. subst note.
      apply bool_decide_eq_true in E1. split; [reflexivity|]. split; [exact E1|eauto].
  - exists (error_notes e). split; [exact Ho|].
    unfold Invariants.error_notes.
    destruct (bool_decide (is_notification_enabled site <> 0)) eqn:E2; simpl;
      try (split; [lia|]; split; [reflexivity|]; intros note Hn; inversion Hn).
    split; [lia|]. split.
    + intros Hz. apply bool_decide_eq_true in E2. contradiction.
    + intros note Hn. apply list_elem_of_singleton in Hn. subst note.
      split; reflexivity.
  - exists []. rewrite app_nil_r. split; [exact Ho|]. split; [simpl; lia|].
    split; [reflexivity|]. intros note Hn. inversion Hn.
Qed.

Lemma record_failure_net (start : instant) (e : Exn) (w : World) r w' :
  record_failure site start e w = Some (r, w') -> net_w w' = net_w w.
Proof.
  pose proof (record_failure_cases start e w) as C.
  destruct (db_fault (db_ops w)).
  - rewrite C. intros [= _ <-]. reflexivity.
  - destruct C as (w2 & E & _ & _ & N). rewrite E. intros [= _ <-]. exact N.
Qed.

(** X18. Every request that a cycle makes through [make_request] is a
    request of the sitemap walk. A cycle that ends has either made
    none (the first query failed) or left the request counter as the
    walk from the site's sitemap URL left it: at most three requests
    for each sitemap URL visited, and none for any page. (The message
    to the notifier is posted with [requests.post]; it is counted in
    the outbox, not here.) *)
Theorem cycle_only_requests_sitemaps (session : list Op) (w : World) r w' :
  process_site session site w = Some (r, w') ->
  net_w w' = net_w w \/
  exists entries visited wk,
    Parser.fetch_and_parse_sitemap net gzip_decompress is_sitemap_index
      parse_sitemap_index parse_sitemap fuel (sitemap_url site) (base_url site) (net_w w)
    = Some (entries, visited, wk) /\
    net_w w' = Parser.net_st wk /\
    (n_req (net_w w') <= n_req (net_w w) + 3 * size visited)%nat.
Proof.
  rewrite CrawlerFacts.process_site_eq.
  destruct (diffing_cases session (ticked w))
    as [(msg & _ & E)|[(_ & _ & E)|(entries & s & _ & HW & H)]].
  - rewrite E. intros H. apply record_failure_net in H. left. exact H.
  - rewrite E. discriminate.
  - intros Hp. right. simpl in HW.
    unfold Parser.extract_urls_from_sitemap in HW.
    destruct (Parser.fetch_and_parse_sitemap net gzip_decompress is_sitemap_index
                parse_sitemap_index parse_sitemap fuel (sitemap_url site)
                (base_url site) (net_w w)) as [[[entries' visited] wk]|] eqn:EW;
      [|discriminate].
    simpl in HW. injection HW as -> <-.
    exists entries, visited, wk. split; [reflexivity|].
    pose proof (WalkFacts.returned_walk_bound _ _ _ _ _ _ _ _ _ _ _ _ EW) as Hb.
    assert (net_w w' = Parser.net_st wk) as Hnet.
    { destruct H as [(oss & wc & E & _ & (_ & N & _) & _)|(msg & wc & k & E & (_ & N & _) & _)];
        rewrite E in Hp; simpl in N.
      - destruct (finish _ site _ _ _) as [[[a|e] r2]|] eqn:EF; [| |discriminate].
        + injection Hp as _ <-. apply finish_cases in EF as (Nf & _).
          rewrite Nf. exact N.
        + assert (net_w (world r2) = net_w wc) as Nf
            by (apply finish_cases in EF as (Nf & _); exact Nf).
          destruct (on_exception site (clock (ticks w)) e r2) as [[res r3]|] eqn:EH;
            [|discriminate].
          injection Hp as _ <-. apply on_exception_cases in EH as (Nh & _).
          rewrite Nh, Nf. exact N.
      - apply record_failure_net in Hp. rewrite Hp. exact N. }
    split; [exact Hnet|]. rewrite Hnet. exact Hb.
Qed.

End Trace.

(** ** The example site *)

Import Examples Scenarios.

(** A cycle whose second commit fails while it flushes: the rows are
    committed, and the cycle raises from its [except] branch with
    nothing on record. *)
Example cycle_failing_midway :
  observe (run [3%nat] (world_of db1))
  = Some (Raise pending_rollback,
          [touch (clock 1) page_a;
           new_page site "https://example.com/b" (clock 2) (clock 3)],
          Some None, [], []).
Proof. vm_compute. reflexivity. Qed.

(** A cycle for site 1 over a table that also holds a page of site 2. *)
Example cycle_beside_another_site :
  observe (run_with site_net leaf_entries (world_of db2))
  = Some (Ret (true, success_message 1, 1%nat),
          [page_other; touch (clock 1) page_a;
           new_page site "https://example.com/b" (clock 2) (clock 3)],
          Some (Some (clock 4)),
          [{| log_site_id := 1; run_id := None; start_time := clock 0;
              end_time := Some (clock 5); status := "success";
              pages_found_count := 1; message := Some (found_message 1) |}],
          [NewPages 1 [new_page site "https://example.com/b" (clock 2) (clock 3)]]).
Proof. vm_compute. reflexivity. Qed.

Lemma process_site_leaves_other_sites_alone_witness :
  let w' := world_after (run_with site_net leaf_entries (world_of db2)) in
  other_pages 1 (db w') = other_pages 1 db2 /\
  other_logs 1 (db w') = other_logs 1 db2 /\
  forall k, k <> 1 -> sites (db w') !! k = sites db2 !! k.
Proof.
  refine (process_site_leaves_other_sites_alone clock (faults_at []) flushing delivered
            site_net gunzip is_index index_children leaf_entries None 5 site
            (world_of db2) (Ret (true, success_message 1, 1%nat))
            (world_after (run_with site_net leaf_entries (world_of db2))) _).
  vm_compute. reflexivity.
Defined.

(** A cycle whose read of the first new page, for the notification,
    fails: the success record is written already, and the failed
    record follows it. *)
Example cycle_failing_at_the_notification :
  observe (run [6%nat] (world_of db0))
  = Some (Ret (false, failed_message (OperationalError "connection lost"), 0%nat),
          [new_page site "https://example.com/a" (clock 1) (clock 2);
           new_page site "https://example.com/b" (clock 3) (clock 4)],
          Some (Some (clock 5)),
          [success_log None site (clock 0) 2 (clock 6);
           failed_log None site (clock 0) (OperationalError "connection lost") (clock 7)],
          [ErrorNote 1 "connection lost"]).
Proof. vm_compute. reflexivity. Qed.

Lemma cycle_history_records_witness :
  let w' := world_after (run [6%nat] (world_of db0)) in
  exists before,
    (before = [] \/ exists k t, before = [success_log None site (clock 0) k t]) /\
    0%nat = 0%nat /\
    exists e now,
      failed_message (OperationalError "connection lost") = failed_message e /\
      logs (db w') = [] ++ before ++ [failed_log None site (clock 0) e now].
Proof.
  refine (cycle_history_records clock (faults_at [6%nat]) flushing delivered site_net
            gunzip is_index index_children leaf_entries None 5 site
            (world_of db0)
            (Ret (false, failed_message (OperationalError "connection lost"), 0%nat))
            (world_after (run [6%nat] (world_of db0))) _).
  vm_compute. reflexivity.
Defined.

Lemma success_counts_the_rows_added_witness :
  let w' := world_after (run [] (world_of db1)) in
  exists old news t,
    pages (db w') = old ++ news /\
    fixed_columns <$> old = fixed_columns <$> pages db1 /\
    length news = 1%nat /\
    Forall (fun p => monitored_site_id p = 1 /\
                     ~ has_row 1 (url p) db1 /\
                     page_title p = None /\ is_processed p = 0) news /\
    success_message 1 = success_message 1 /\
    sites (db w') = alter (crawled t) 1 (sites db1) /\
    outbox w' = [] ++ news_notes site news.
Proof.
  refine (success_counts_the_rows_added clock (faults_at []) flushing delivered site_net
            gunzip is_index index_children leaf_entries None 5 site
            (world_of db1) (success_message 1) 1
            (world_after (run [] (world_of db1))) _).
  vm_compute. reflexivity.
Defined.

(** The leaf lists [/a], [/b] and [/a] again: the cycle raises and
    nothing is recorded. *)
Example cycle_over_repeated_url :
  observe (run_with leaf_net repeated_entries (world_of db0))
  = Some (Raise pending_rollback, [], Some None, [], []).
Proof. vm_compute. reflexivity. Qed.

Lemma no_row_in_db0 : ~ has_row 1 (Parser.url entry_a) db0.
Proof. intros [p Hp]. discriminate. Qed.

Lemma duplicate_new_url_fails_the_cycle_witness :
  exists w',
    run_with leaf_net repeated_entries (world_of db0)
    = Some (Raise pending_rollback, w') /\
    db w' = db0 /\
    outbox w' = [].
Proof.
  refine (duplicate_new_url_fails_the_cycle clock (faults_at []) flushing delivered
            leaf_net gunzip is_index index_children repeated_entries None 5 site
            (world_of db0) [] [entry_b] [] entry_a entry_a
            {| n_req := 1; waits := [] |} (CrawlerFacts.no_fault_ok 0) _ _ no_row_in_db0).
  - vm_compute. reflexivity.
  - reflexivity.
Defined.

(** The server answers 404 to everything: the cycle reports success. *)
Example cycle_over_missing_sitemap :
  observe (run_with gone_net leaf_entries (world_of db1))
  = Some (Ret (true, success_message 0, 0%nat),
          [page_a], Some (Some (clock 1)),
          [success_log None site (clock 0) 0 (clock 2)],
          []).
Proof. vm_compute. reflexivity. Qed.

Lemma unreachable_sitemap_counts_as_success_witness :
  exists w',
    run_with gone_net leaf_entries (world_of db1)
    = Some (Ret (true, success_message 0, 0%nat), w') /\
    db w' = logged (success_log None site (clock 0) 0 (clock 2))
              (site_crawled 1 (clock 1) db1) /\
    outbox w' = [].
Proof.
  refine (unreachable_sitemap_counts_as_success clock (faults_at []) flushing delivered
            gone_net gunzip is_index index_children leaf_entries None 5 site
            (world_of db1) (CrawlerFacts.no_fault_ok 0) _ _).
  - lia.
  - vm_compute. reflexivity.
Defined.

Lemma clock_mono (i j : nat) : (i <= j)%nat -> clock i <= clock j.
Proof. unfold clock. lia. Qed.

Lemma cycle_times_are_ordered_witness :
  let w' := world_after (run [] (world_of db1)) in
  exists old news t l e,
    pages (db w') = old ++ news /\ length news = 1%nat /\
    sites (db w') = alter (crawled t) 1 (sites db1) /\
    logs (db w') = [] ++ [l] /\
    start_time l = clock 0 /\ end_time l = Some e /\
    start_time l <= t <= e /\
    Forall (fun p => start_time l <= first_discovered_at p <= last_seen_at p /\
                     last_seen_at p <= t) news /\
    Forall2 (fun p0 p => fixed_columns p = fixed_columns p0 /\
                         (last_seen_at p = last_seen_at p0 \/
                          start_time l <= last_seen_at p <= t))
            (pages db1) old.
Proof.
  refine (cycle_times_are_ordered clock (faults_at []) flushing delivered site_net
            gunzip is_index index_children leaf_entries None 5 site
            (world_of db1) (success_message 1) 1
            (world_after (run [] (world_of db1))) clock_mono _).
  vm_compute. reflexivity.
Defined.

Lemma cycle_notifies_at_most_once_witness :
  exists notes,
    outbox world1 = [] ++ notes /\
    (length notes <= 1)%nat /\
    (is_notification_enabled site = 0 -> notes = []) /\
    forall note, note ∈ notes ->
      match note with
      | NewPages s ps =>
          s = 1 /\ ps <> [] /\
          exists m, @Ret Exn _ (true, success_message 2, 2%nat) = Ret (true, m, length ps)
      | ErrorNote s _ => s = 1 /\ true = false
      end.
Proof.
  refine (cycle_notifies_at_most_once clock (faults_at []) flushing delivered site_net
            gunzip is_index index_children leaf_entries None 5 site []
            (world_of db0) (Ret (true, success_message 2, 2%nat)) world1 _).
  vm_compute. reflexivity.
Defined.

Lemma cycle_only_requests_sitemaps_witness :
  net_w world1 = net0 \/
  exists entries visited wk,
    Parser.fetch_and_parse_sitemap site_net gunzip is_index index_children leaf_entries
      5 root_url base net0
    = Some (entries, visited, wk) /\
    net_w world1 = Parser.net_st wk /\
    (n_req (net_w world1) <= 0 + 3 * size visited)%nat.
Proof.
  refine (cycle_only_requests_sitemaps clock (faults_at []) flushing delivered site_net
            gunzip is_index index_children leaf_entries None 5 site []
            (world_of db0) (Ret (true, success_message 2, 2%nat)) world1 _).
  vm_compute. reflexivity.
Defined.

Lemma get_existing_urls_lookup_witness :
  exists m,
    get_existing_urls (faults_at []) 1 (world_of db2)
    = Some (Ret m, called_db (world_of db2)) /\
    (forall u, u ∈ dom m <-> has_row 1 u db2) /\
    (unique_rows db2 ->
     forall u t, m !! u = Some t <->
       exists p, p ∈ pages db2 /\ monitored_site_id p = 1 /\
                 url p = u /\ last_seen_at p = t).
Proof.
  refine (get_existing_urls_lookup (faults_at []) 1 (world_of db2) _).
  reflexivity.
Defined.

End CycleFacts.


(* ===================================================================== *)
(** * Properties of the notifier *)
(* ===================================================================== *)

Module NotifierFacts.

Import Database Crawler Notifier.

Lemma string_app_assoc (a b c : string) : (a +:+ b) +:+ c = a +:+ (b +:+ c).
Proof.
  induction a as [|x a IH]; [reflexivity|].
  change (String x ((a +:+ b) +:+ c) = String x (a +:+ (b +:+ c))).
  rewrite IH. reflexivity.
Qed.

Lemma string_app_nil_r (a : string) : a +:+ "" = a.
Proof.
  induction a as [|x a IH]; [reflexivity|].
  change (String x (a +:+ "") = String x a). rewrite IH. reflexivity.
Qed.

Lemma add_lines_join (pages : list DiscoveredPage) :
  forall (i : nat) (text : string),
    add_lines i pages text
    = text +:+ join (imap (fun j page => page_line (i + j) page) pages).
Proof.
  induction pages as [|page rest IH]; intros i text; cbn [add_lines imap join foldr].
  - rewrite string_app_nil_r. reflexivity.
  - rewrite IH, string_app_assoc, Nat.add_0_r. f_equal. f_equal. f_equal.
    apply imap_ext. intros j p _. simpl. f_equal. lia.
Qed.

Section Webhook.

Variable reply : nat -> Reply.
Variable now : string.

(** X19. The message about new pages lists at most ten of them: the text is
    the header, then one numbered line for each of the first ten
    pages, in order and numbered from 1, then, only when there are
    more than ten, a note with the number of pages not shown. For an
    empty list nothing is sent and the answer is [True]; otherwise the
    text is sent as one text message. *)
Theorem new_pages_message_lists_at_most_ten (self : FeishuNotifier)
    (site : MonitoredSite) (new_pages : list DiscoveredPage) (h : Hook) :
  let n := length new_pages in
  let lines := imap (fun j page => page_line (S j) page) (take 10 new_pages) in
  new_pages_text now site new_pages
  = new_pages_header now site n +:+ join lines
    +:+ (if decide (10 < n)%nat then more_pages_note (n - 10) else "") /\
  length lines = Nat.min 10 n /\
  (forall j page, (j < 10)%nat -> new_pages !! j = Some page ->
     lines !! j = Some (page_line (S j) page)) /\
  (new_pages = [] ->
     send_new_pages_notification reply now self site new_pages h = (Ret true, h)) /\
  (new_pages <> [] ->
     send_new_pages_notification reply now self site new_pages h
     = send_message reply self "text" (new_pages_text now site new_pages) h).
Proof.
  intros n lines. split; [|split; [|split; [|split]]].
  - unfold new_pages_text. fold n. rewrite add_lines_join. fold lines.
    destruct (decide (10 < n)%nat).
    + rewrite string_app_assoc. reflexivity.
    + rewrite string_app_nil_r. reflexivity.
  - unfold lines. rewrite length_imap, length_take. reflexivity.
  - intros j page Hj Hp. unfold lines.
    rewrite list_lookup_imap, lookup_take_lt by exact Hj. rewrite Hp. reflexivity.
  - intros ->. reflexivity.
  - intros Hne. destruct new_pages; [contradiction|reflexivity].
Qed.

Lemma retrying_returns (fuel k : nat) (body : Hook -> Res Caught bool * Hook)
    (h h' : Hook) (b : bool) :
  body h = (Ret b, h') -> retrying fuel k body h = (Ret b, h').
Proof. intros H. destruct fuel; simpl; rewrite H; reflexivity. Qed.

(** The body of [send_message] returns, whatever the POST meets. *)
Lemma send_message_body_returns (self : FeishuNotifier)
    (msg_type text : string) (h : Hook) :
  exists b h',
    send_message_body reply self msg_type text h = (Ret b, h') /\
    sleeps h' = sleeps h /\
    posts h' = (if truthy (webhook_url self) && truthy (secret self)
                then posts h ++ [(msg_type, text)] else posts h) /\
    (b = true <->
     truthy (webhook_url self) = true /\ truthy (secret self) = true /\
     reply (length (posts h)) = Replied 200 (Some true)).
Proof.
  unfold send_message_body, post_and_read.
  destruct (truthy (webhook_url self)); cbn [negb andb].
  2:{ exists false, h. repeat split; try discriminate. intros (? & _); discriminate. }
  destruct (truthy (secret self)); cbn [negb].
  2:{ exists false, h. repeat split; try discriminate. intros (_ & ? & _); discriminate. }
  destruct (reply (length (posts h))) as [status code|] eqn:E.
  - destruct (status =? 200) eqn:Es.
    + apply Z.eqb_eq in Es. subst status.
      destruct code as [[|]|]; eexists _, _;
        (split; [reflexivity|]); (split; [reflexivity|]); (split; [reflexivity|]);
        split; try discriminate; auto; intros (_ & _ & [=]).
    + eexists _, _.
      (split; [reflexivity|]); (split; [reflexivity|]); (split; [reflexivity|]).
      split; [discriminate|]. intros (_ & _ & [= -> _]). discriminate.
  - eexists _, _.
    (split; [reflexivity|]); (split; [reflexivity|]); (split; [reflexivity|]).
    split; [discriminate|]. intros (_ & _ & [=]).
Qed.

(** X20. A message is posted at most once. The body of [send_message]
    catches whatever the delivery raises and answers [False], so the
    retry around it never sees an exception: the call never raises,
    never sleeps and never posts a second time. Without a webhook URL
    or without a secret nothing is posted. The answer is [True]
    exactly when both are set and the one POST was answered with
    status 200 and a body whose code is 0. *)
Theorem send_message_is_not_retried (self : FeishuNotifier)
    (msg_type text : string) (h : Hook) :
  exists b h',
    send_message reply self msg_type text h = (Ret b, h') /\
    sleeps h' = sleeps h /\
    posts h' = (if truthy (webhook_url self) && truthy (secret self)
                then posts h ++ [(msg_type, text)] else posts h) /\
    (b = true <->
     truthy (webhook_url self) = true /\ truthy (secret self) = true /\
     reply (length (posts h)) = Replied 200 (Some true)).
Proof.
  destruct (send_message_body_returns self msg_type text h) as (b & h' & E & H).
  exists b, h'. split; [|exact H].
  unfold send_message. apply retrying_returns. exact E.
Qed.

End Webhook.

(** ** Examples *)

Import Scenarios.

(** Twelve new pages: ten are listed and the note counts two. *)
Example twelve_pages :
  let pages := (fun k => new_page Examples.site (pretty k) 0 0) <$> seq 1 12 in
  new_pages_text "2024-01-01 00:00:00" Examples.site pages
  = new_pages_header "2024-01-01 00:00:00" Examples.site 12
    +:+ join ((fun k => pretty k +:+ ". " +:+ pretty k +:+ nl) <$> seq 1 10)
    +:+ more_pages_note 2.
Proof. vm_compute. reflexivity. Qed.

(** A webhook that cannot be reached: one POST, no sleep, [False]. *)
Example unreachable_webhook :
  send_message (fun _ => PostFails) feishu "text" "hello" hook0
  = (Ret false, {| posts := [("text"%string, "hello"%string)]; sleeps := [] |}).
Proof. reflexivity. Qed.

Lemma new_pages_message_lists_at_most_ten_witness :
  send_new_pages_notification (fun _ => PostFails) "2024-01-01 00:00:00" feishu
    Examples.site [] hook0
  = (Ret true, hook0).
Proof.
  refine (proj1 (proj2 (proj2 (proj2
            (new_pages_message_lists_at_most_ten (fun _ => PostFails)
               "2024-01-01 00:00:00" feishu Examples.site [] hook0)))) _).
  reflexivity.
Defined.

End NotifierFacts.
